(** * The snap action resolver of the store client

    A shallow embedding of [SnapAction], [snapAction], [genInstanceKey],
    [isValidAction] and [findRev] of package [store], together with the
    parts of Go's [encoding/json] struct marshalling that decide which keys
    of an action entry reach the wire.

    Conventions of the embedding:
    - Go [int] is [Z]; counters that only count up from zero are [nat];
      Go strings are [string].
    - Go maps are [gmap]s.  A map that holds pointers ([map[string]*T]) is
      a [gmap] of pointers; a nil map is [None], a made map is [Some m].
    - The caller's actions are [[]*SnapAction]: a list of pointers into a
      heap of [SnapAction] objects, because [snapAction] writes to them.
    - Everything the resolver calls but does not define is a field of one
      of two classes: [Externals] for the pure collaborators (decoders,
      hashing, error translation), [Transport] for those that act on the
      world (the HTTP round trip, the token refresh). *)

From stdpp Require Import gmap strings list fin_maps pretty.
From Stdlib Require Import ZArith.

Local Set Warnings "-register-all".
Local Open Scope Z_scope.

(** ** Results of fallible code: [(value, error)] pairs of Go *)

Definition bindE {Err A B} (m : Err + A) (k : A → Err + B) : Err + B :=
  match m with
  | inl e => inl e
  | inr a => k a
  end.

Notation "'attempt' x ':=' m 'in' k" := (bindE m (λ x, k))
  (at level 10, x name, m at level 100, k at level 200, only parsing).

(** A range loop with early [return nil, err]. *)
Fixpoint foldE {Err S A} (f : S → A → Err + S) (l : list A) (s : S) : Err + S :=
  match l with
  | [] => inr s
  | x :: l' =>
      match f s x with
      | inl e => inl e
      | inr s' => foldE f l' s'
      end
  end.

(** ** JSON values as [encoding/json] emits them *)

Inductive json :=
| JNull
| JBool (b : bool)
| JNum (n : Z)
| JStr (s : string)
| JArr (items : list json)
| JObj (fields : list (string * json)).

(** The value stored under [key] in an emitted object. *)
Fixpoint obj_get (key : string) (fields : list (string * json)) : option json :=
  match fields with
  | [] => None
  | (k, v) :: rest => if decide (k = key) then Some v else obj_get key rest
  end.

(** Struct fields tagged [omitempty]: strings, ints, bools. *)
Definition omitempty_string (key s : string) : list (string * json) :=
  if decide (s = "") then [] else [(key, JStr s)].

Definition omitempty_int (key : string) (n : Z) : list (string * json) :=
  if decide (n = 0) then [] else [(key, JNum n)].

Definition omitempty_bool (key : string) (b : bool) : list (string * json) :=
  if b then [(key, JBool true)] else [].

(** A [*bool] tagged [omitempty]: only the nil pointer is empty. *)
Definition omitempty_boolptr (key : string) (p : option bool) : list (string * json) :=
  match p with
  | None => []
  | Some b => [(key, JBool b)]
  end.

(** The objects of an emitted array, and the two arrays of the request
    payload. *)
Definition arrayObjects (j : json) : list (list (string * json)) :=
  match j with
  | JArr items =>
      omap (λ x, match x with JObj fields => Some fields | _ => None end) items
  | _ => []
  end.

Definition payloadArray (key : string) (jsonData : json)
  : list (list (string * json)) :=
  match jsonData with
  | JObj fields => from_option arrayObjects [] (obj_get key fields)
  | _ => []
  end.

Definition serializedContext : json → list (list (string * json)) :=
  payloadArray "context".
Definition serializedActions : json → list (list (string * json)) :=
  payloadArray "actions".

(** ** Package [snap] *)

(** Modelled from the spec: [snap.SplitInstanceName] is not part of the
    sources at hand.  The spec splits the instance name at [_] into
    (snapName, instanceKey); an instance name is [snapName] or
    [snapName_instanceKey], so the split is at the first underscore. *)
Fixpoint SplitInstanceName (instanceName : string) : string * string :=
  match instanceName with
  | EmptyString => ("", "")
  | String c rest =>
      if Ascii.eqb c (Ascii.Ascii true true true true true false true false) then ("", rest)
      else let '(n, k) := SplitInstanceName rest in (String c n, k)
  end.

(** Modelled from the spec: [snap.InstanceSnap], the snap-name component
    of an instance name. *)
Definition InstanceSnap (instanceName : string) : string :=
  fst (SplitInstanceName instanceName).

(** [snap.Revision] is used by the code as [struct { N int }]: it reads
    [.N], builds values with [snap.R] and compares them with [==]. *)
Record Revision := R { N : Z }.

Global Instance Revision_eq_dec : EqDecision Revision.
Proof. solve_decision. Defined.

(** ** Errors *)

(** The two refresh flags of [authRefreshNeed]. *)
Record authRefreshNeed := { need_device : bool; need_user : bool }.

(** Modelled from the spec: [authRefreshNeed.needed] is not part of the
    sources at hand; the refresh primitive is invoked if either sentinel is
    present. *)
Definition needed (rn : authRefreshNeed) : bool :=
  need_device rn || need_user rn.

Record snapRelease := { Architecture : string; rel_Channel : string }.

(** [error] values that flow through the resolver.  Each [fmt.Errorf] call
    site is a constructor carrying its arguments; [ext] stands for the
    errors made by collaborators. *)
Inductive error {ext : Type} :=
| errInvalidCurrentSnap
    (* "internal error: invalid current snap information" *)
| errSaltNotProvided
    (* "internal error: request salt not provided" *)
| errUnsupportedAction (action : string)
    (* "internal error: unsupported action %q" *)
| errActionWithoutInstanceName
    (* "internal error: action without instance name" *)
| errUnsupportedDownload (instanceName : string)
    (* "internal error: unsupported download with instance name %q" *)
| errInvalidResult (cause : ext)
    (* "unexpected invalid install/refresh API result: %v" *)
| errUnexpectedRefresh
    (* "unexpected invalid install/refresh API result: unexpected refresh" *)
| errUnexpectedInstanceKey (instanceKey : string)
    (* "unexpected invalid install/refresh API result: unexpected instance-key %q" *)
| ErrNoUpdateAvailable
| errUserAuthorizationNeedsRefresh
| errDeviceAuthorizationNeedsRefresh
| errExternal (e : ext).
Arguments error : clear implicits.

(** The three messages that start with
    "unexpected invalid install/refresh API result". *)
Definition isInvalidResponse {ext} (e : error ext) : bool :=
  match e with
  | errInvalidResult _ | errUnexpectedRefresh | errUnexpectedInstanceKey _ => true
  | _ => false
  end.

(** The messages that start with "internal error:". *)
Definition isInternalError {ext} (e : error ext) : bool :=
  match e with
  | errInvalidCurrentSnap | errSaltNotProvided | errUnsupportedAction _
  | errActionWithoutInstanceName | errUnsupportedDownload _ => true
  | _ => false
  end.

(** [SnapActionError]: three per-name buckets (nil or a map), the ordered
    [Other] list and the [NoResults] flag. *)
Record SnapActionError {ext : Type} := {
  NoResults : bool;
  Refresh : option (gmap string (error ext));
  Install : option (gmap string (error ext));
  Download : option (gmap string (error ext));
  Other : list (error ext);
}.
Arguments SnapActionError : clear implicits.

(** What a call hands back in its [error] result when it is not nil:
    a [*SnapActionError] or any other error. *)
Inductive callError {ext : Type} :=
| CompositeErr (saErr : SnapActionError ext)
| PlainErr (e : error ext).
Arguments callError : clear implicits.

(** ** The collaborators *)

Class Externals := {
  (* package snap *)
  Epoch : Type;
  Epoch_IsZero : Epoch → bool;
  Revision_Unset : Revision → bool;
  (* encoding/json on the types that bring their own marshaller *)
  extError : Type;
  Epoch_MarshalJSON : Epoch → extError + json;
  Time : Type;
  Time_IsZero : Time → bool;
  Time_MarshalJSON : Time → extError + json;
  (* crypto and encoding/base64, on byte strings *)
  SHA256 : string → string;
  RawURLEncoding : string → string;
  (* strconv.Quote, the %q verb *)
  Quote : string → string;
  (* the store's snap payload and its decoder *)
  storeSnap : Type;
  storeSnap_Revision : storeSnap → Z;
  Info : Type;
  Info_setChannel : string → Info → Info;
  Info_setInstanceKey : string → Info → Info;
  infoFromStoreSnap : storeSnap → extError + Info;
  translateSnapActionError :
    string → string → string → string → list snapRelease → error extError;
  (* the store object and the transport *)
  snapActionFields : list string;
  snapActionURL : string;
  jsonContentType : string;
  apiV2Endps : Z;
  deltaFormat : string;
  Response : Type;
  StatusCode : Response → Z;
  respToError : Response → string → extError;
}.

(** ** The data model of [SnapAction] *)

Section DataModel.
Context `{Ext : Externals}.

Record RefreshOptions := {
  RefreshManaged : bool;
  IsAutoRefresh : bool;
  PrivacyKey : string;
}.

Record CurrentSnap := {
  cur_InstanceName : string;
  cur_SnapID : string;
  cur_Revision : Revision;
  cur_TrackingChannel : string;
  cur_RefreshedDate : Time;
  cur_IgnoreValidation : bool;
  cur_Block : list Revision;
  cur_Epoch : Epoch;
  cur_CohortKey : string;
}.

Record currentSnapV2JSON := {
  cj_SnapID : string;            (* "snap-id" *)
  cj_InstanceKey : string;       (* "instance-key" *)
  cj_Revision : Z;               (* "revision" *)
  cj_TrackingChannel : string;   (* "tracking-channel" *)
  cj_Epoch : Epoch;              (* "epoch" *)
  cj_RefreshedDate : option Time;   (* "refreshed-date,omitempty" *)
  cj_IgnoreValidation : bool;    (* "ignore-validation,omitempty" *)
  cj_CohortKey : string;         (* "cohort-key,omitempty" *)
}.

(** [SnapActionFlags]: an [int] bit set, [1 << iota]. *)
Definition SnapActionIgnoreValidation : Z := Z.shiftl 1 0.
Definition SnapActionEnforceValidation : Z := Z.shiftl 1 1.

Record SnapAction := {
  Action : string;
  InstanceName : string;
  SnapID : string;
  Channel : string;
  act_Revision : Revision;
  CohortKey : string;
  Flags : Z;
  act_Epoch : Epoch;
}.

Definition isValidAction (action : string) : bool :=
  if decide (action = "download") then true
  else if decide (action = "install") then true
  else if decide (action = "refresh") then true
  else false.

(** [snapActionJSON].  [aj_IgnoreValidation] is the [*bool];
    [aj_Epoch] is the [interface{}]: [None] is the nil interface,
    [Some None] holds the nil [*snap.Epoch], [Some (Some e)] a pointer to
    an epoch. *)
Record snapActionJSON := {
  aj_Action : string;                  (* "action" *)
  aj_InstanceKey : string;             (* "instance-key" *)
  aj_Name : string;                    (* "name,omitempty" *)
  aj_SnapID : string;                  (* "snap-id,omitempty" *)
  aj_Channel : string;                 (* "channel,omitempty" *)
  aj_Revision : Z;                     (* "revision,omitempty" *)
  aj_CohortKey : string;               (* "cohort-key,omitempty" *)
  aj_IgnoreValidation : option bool;   (* "ignore-validation,omitempty" *)
  aj_Epoch : option (option Epoch);    (* "epoch,omitempty" *)
}.

Record snapActionResultError := {
  err_Code : string;
  err_Message : string;
  err_Releases : list snapRelease;     (* error.extra.releases *)
}.

Record snapActionResult := {
  res_Result : string;
  res_InstanceKey : string;
  res_SnapID : string;
  res_Name : string;
  res_Snap : storeSnap;
  res_EffectiveChannel : string;
  res_RedirectChannel : string;
  res_Error : snapActionResultError;
}.

Record snapActionRequest := {
  req_Context : list currentSnapV2JSON;
  req_Actions : list snapActionJSON;
  req_Fields : list string;
}.

Record errorListEntry := { el_Code : string; el_Message : string }.

Record snapActionResultList := {
  Results : list snapActionResult;
  ErrorList : list errorListEntry;
}.

(** [SnapActionResult]: the decoded info and the redirect channel. *)
Record SnapActionResult := {
  sar_Info : Info;
  RedirectChannel : string;
}.

(** [requestOptions] as [snapAction] fills it. *)
Record requestOptions := {
  Method : string;
  URL : string;
  Accept : string;
  ContentType : string;
  Data : json;
  APILevel : Z;
  ExtraHeaders : gmap string string;
}.

(** Modelled from the spec: [requestOptions.addHeader] is not part of the
    sources at hand; it attaches one header to the outgoing request. *)
Definition addHeader (k v : string) (r : requestOptions) : requestOptions :=
  {| Method := Method r; URL := URL r; Accept := Accept r;
     ContentType := ContentType r; Data := Data r; APILevel := APILevel r;
     ExtraHeaders := <[k := v]> (ExtraHeaders r) |}.

(** *** Marshalling of the request *)

Definition liftM {A} (m : extError + A) : error extError + A :=
  match m with
  | inl e => inl (errExternal e)
  | inr a => inr a
  end.

(** All elements of a slice, stopping at the first error. *)
Fixpoint mapE {Err A B} (f : A → Err + B) (l : list A) : Err + list B :=
  match l with
  | [] => inr []
  | x :: l' =>
      attempt y := f x in
      attempt ys := mapE f l' in
      inr (y :: ys)
  end.

Definition marshal_currentSnapV2JSON (c : currentSnapV2JSON)
  : extError + list (string * json) :=
  attempt epoch := Epoch_MarshalJSON (cj_Epoch c) in
  attempt date :=
    match cj_RefreshedDate c with
    | None => inr []
    | Some t => attempt j := Time_MarshalJSON t in inr [("refreshed-date", j)]
    end in
  inr ([("snap-id", JStr (cj_SnapID c));
        ("instance-key", JStr (cj_InstanceKey c));
        ("revision", JNum (cj_Revision c));
        ("tracking-channel", JStr (cj_TrackingChannel c));
        ("epoch", epoch)]
       ++ date
       ++ omitempty_bool "ignore-validation" (cj_IgnoreValidation c)
       ++ omitempty_string "cohort-key" (cj_CohortKey c)).

(** The [interface{}] field with [omitempty]: the nil interface is left
    out, a nil pointer inside it is written as null. *)
Definition marshal_epochField (e : option (option Epoch))
  : extError + list (string * json) :=
  match e with
  | None => inr []
  | Some None => inr [("epoch", JNull)]
  | Some (Some ep) => attempt j := Epoch_MarshalJSON ep in inr [("epoch", j)]
  end.

Definition marshal_snapActionJSON (a : snapActionJSON)
  : extError + list (string * json) :=
  attempt epoch := marshal_epochField (aj_Epoch a) in
  inr ([("action", JStr (aj_Action a));
        ("instance-key", JStr (aj_InstanceKey a))]
       ++ omitempty_string "name" (aj_Name a)
       ++ omitempty_string "snap-id" (aj_SnapID a)
       ++ omitempty_string "channel" (aj_Channel a)
       ++ omitempty_int "revision" (aj_Revision a)
       ++ omitempty_string "cohort-key" (aj_CohortKey a)
       ++ omitempty_boolptr "ignore-validation" (aj_IgnoreValidation a)
       ++ epoch).

Definition marshal_snapActionRequest (r : snapActionRequest) : extError + json :=
  attempt ctx := mapE marshal_currentSnapV2JSON (req_Context r) in
  attempt acts := mapE marshal_snapActionJSON (req_Actions r) in
  inr (JObj [("context", JArr (JObj <$> ctx));
             ("actions", JArr (JObj <$> acts));
             ("fields", JArr (JStr <$> req_Fields r))]).

End DataModel.

(** ** The store object, the transport and the token refresh *)

(** The parts of the world a call can touch: the transport answers a
    request, the auth primitive refreshes tokens, both may change the world
    (token state, server state). *)
Class Transport `{Ext : Externals} := {
  World : Type;
  useDeltas : World → bool;
  retryRequestDecodeJSON :
    requestOptions → World →
    World * (extError + Response * snapActionResultList);
  extractSuggestedCurrency : Response → World → World;
  refreshAuth : authRefreshNeed → World → World * option extError;
}.

Section Resolver.
Context `{Tr : Transport}.

Abbreviation err := (error extError).

(** *** Objects the call shares with its caller *)

Definition ptr := nat.

(** The [SnapAction] objects behind the caller's [[]*SnapAction]; two
    equal pointers are the same object. *)
Definition heap := ptr → SnapAction.

Definition setChannel (c : string) (a : SnapAction) : SnapAction :=
  {| Action := Action a; InstanceName := InstanceName a; SnapID := SnapID a;
     Channel := c; act_Revision := act_Revision a; CohortKey := CohortKey a;
     Flags := Flags a; act_Epoch := act_Epoch a |}.

Definition store (h : heap) (p : ptr) (a : SnapAction) : heap :=
  λ q, if decide (q = p) then a else h q.

(** What a call does to the outside, in order.  [EvSnapAction] marks the
    entry of one inner [snapAction] call. *)
Inductive event :=
| EvSnapAction
| EvTransport (req : requestOptions)
| EvRefreshAuth (need : authRefreshNeed).

Record state := {
  objects : heap;
  world : World;
  trace : list event;
}.

Definition isTransport (e : event) : bool :=
  match e with EvTransport _ => true | _ => false end.
Definition isRefreshAuth (e : event) : bool :=
  match e with EvRefreshAuth _ => true | _ => false end.
Definition isSnapAction (e : event) : bool :=
  match e with EvSnapAction => true | _ => false end.

Fixpoint count (f : event → bool) (t : list event) : nat :=
  match t with
  | [] => 0
  | e :: t' => (if f e then 1 else 0) + count f t'
  end%nat.

(** *** [genInstanceKey] *)

Definition genInstanceKey (curSnap : CurrentSnap) (salt : string) : err + string :=
  let '(_, snapInstanceKey) := SplitInstanceName (cur_InstanceName curSnap) in
  if decide (snapInstanceKey = "") then inr (cur_SnapID curSnap)
  else if decide (salt = "") then inl errSaltNotProvided
  else
    let enc :=
      RawURLEncoding (SHA256 (cur_SnapID curSnap +:+ snapInstanceKey +:+ salt)) in
    inr (cur_SnapID curSnap +:+ ":" +:+ enc).

(** *** [findRev] *)

Fixpoint findRev (needle : Revision) (haystack : list Revision) : bool :=
  match haystack with
  | [] => false
  | r :: rest => if decide (needle = r) then true else findRev needle rest
  end.

(** *** [snapAction]: the context loop *)

Record contextTables := {
  curSnaps : gmap string CurrentSnap;
  instanceNameToKey : gmap string string;
  curSnapJSONs : list currentSnapV2JSON;
}.

Definition noContext : contextTables :=
  {| curSnaps := ∅; instanceNameToKey := ∅; curSnapJSONs := [] |}.

Definition contextEntry (curSnap : CurrentSnap) (instanceKey : string)
  : currentSnapV2JSON :=
  let channel :=
    if decide (cur_TrackingChannel curSnap = "") then "stable"
    else cur_TrackingChannel curSnap in
  let refreshedDate :=
    if Time_IsZero (cur_RefreshedDate curSnap) then None
    else Some (cur_RefreshedDate curSnap) in
  {| cj_SnapID := cur_SnapID curSnap;
     cj_InstanceKey := instanceKey;
     cj_Revision := N (cur_Revision curSnap);
     cj_TrackingChannel := channel;
     cj_IgnoreValidation := cur_IgnoreValidation curSnap;
     cj_RefreshedDate := refreshedDate;
     cj_Epoch := cur_Epoch curSnap;
     cj_CohortKey := cur_CohortKey curSnap |}.

(** One turn of [for i, curSnap := range currentSnaps]. *)
Definition contextStep (requestSalt : string) (t : contextTables)
    (curSnap : CurrentSnap) : err + contextTables :=
  if bool_decide (cur_SnapID curSnap = "")
     || bool_decide (cur_InstanceName curSnap = "")
     || Revision_Unset (cur_Revision curSnap)
  then inl errInvalidCurrentSnap
  else
    attempt instanceKey := genInstanceKey curSnap requestSalt in
    inr {| curSnaps := <[instanceKey := curSnap]> (curSnaps t);
           instanceNameToKey :=
             <[cur_InstanceName curSnap := instanceKey]> (instanceNameToKey t);
           curSnapJSONs := curSnapJSONs t ++ [contextEntry curSnap instanceKey] |}.

Definition contextLoop (requestSalt : string) (currentSnaps : list CurrentSnap)
  : err + contextTables :=
  foldE (contextStep requestSalt) currentSnaps noContext.

(** *** [snapAction]: the action loop *)

Record actionTables := {
  downloadNum : nat;
  installNum : nat;
  installs : gmap string ptr;
  downloads : gmap string ptr;
  refreshes : gmap string ptr;
  actionJSONs : list snapActionJSON;
}.

Definition noActions : actionTables :=
  {| downloadNum := 0; installNum := 0; installs := ∅; downloads := ∅;
     refreshes := ∅; actionJSONs := [] |}.

(** The [*bool] built from the flags. *)
Definition ignoreValidationOf (flags : Z) : option bool :=
  if decide (Z.land flags SnapActionIgnoreValidation ≠ 0) then Some true
  else if decide (Z.land flags SnapActionEnforceValidation ≠ 0) then Some false
  else None.

(** The statements that follow the branch on the kind: [aJSON.Name] and
    [aJSON.Epoch] for everything but a refresh, then [aJSON.InstanceKey]. *)
Definition finishEntry (a : SnapAction) (aJSON : snapActionJSON)
    (instanceKey : string) : snapActionJSON :=
  let aJSON :=
    if decide (Action a ≠ "refresh") then
      {| aj_Action := aj_Action aJSON;
         aj_InstanceKey := aj_InstanceKey aJSON;
         aj_Name := InstanceSnap (InstanceName a);
         aj_SnapID := aj_SnapID aJSON;
         aj_Channel := aj_Channel aJSON;
         aj_Revision := aj_Revision aJSON;
         aj_CohortKey := aj_CohortKey aJSON;
         aj_IgnoreValidation := aj_IgnoreValidation aJSON;
         aj_Epoch :=
           if Epoch_IsZero (act_Epoch a) then Some None
           else Some (Some (act_Epoch a)) |}
    else aJSON in
  {| aj_Action := aj_Action aJSON;
     aj_InstanceKey := instanceKey;
     aj_Name := aj_Name aJSON;
     aj_SnapID := aj_SnapID aJSON;
     aj_Channel := aj_Channel aJSON;
     aj_Revision := aj_Revision aJSON;
     aj_CohortKey := aj_CohortKey aJSON;
     aj_IgnoreValidation := aj_IgnoreValidation aJSON;
     aj_Epoch := aj_Epoch aJSON |}.

(** One turn of [for i, a := range actions], [a] being the pointer [p].
    The write to [a.Channel] stays in the heap also when the turn ends in
    an error; what is read through [a] after the write is read from the
    heap as the write left it. *)
Definition actionStep (nameToKey : gmap string string) (h : heap)
    (t : actionTables) (p : ptr) : heap * (err + actionTables) :=
  if negb (isValidAction (Action (h p))) then
    (h, inl (errUnsupportedAction (Action (h p))))
  else if decide (InstanceName (h p) = "") then
    (h, inl errActionWithoutInstanceName)
  else
    let ignoreValidation := ignoreValidationOf (Flags (h p)) in
    (* aJSON := &snapActionJSON{...}: these fields are copied here *)
    let aJSON :=
      {| aj_Action := Action (h p);
         aj_InstanceKey := "";
         aj_Name := "";
         aj_SnapID := SnapID (h p);
         aj_Channel := Channel (h p);
         aj_Revision := N (act_Revision (h p));
         aj_CohortKey := CohortKey (h p);
         aj_IgnoreValidation := ignoreValidation;
         aj_Epoch := None |} in
    (* if !a.Revision.Unset() { a.Channel = "" } *)
    let h' :=
      if Revision_Unset (act_Revision (h p)) then h
      else store h p (setChannel "" (h p)) in
    let a := h' p in
    if decide (Action a = "install") then
      let installNum' := S (installNum t) in
      let instanceKey := "install-" +:+ pretty installNum' in
      (h', inr {| downloadNum := downloadNum t; installNum := installNum';
                  installs := <[instanceKey := p]> (installs t);
                  downloads := downloads t; refreshes := refreshes t;
                  actionJSONs :=
                    actionJSONs t ++ [finishEntry a aJSON instanceKey] |})
    else if decide (Action a = "download") then
      let downloadNum' := S (downloadNum t) in
      let instanceKey := "download-" +:+ pretty downloadNum' in
      if decide (snd (SplitInstanceName (InstanceName a)) ≠ "") then
        (h', inl (errUnsupportedDownload (InstanceName a)))
      else
        (h', inr {| downloadNum := downloadNum'; installNum := installNum t;
                    installs := installs t;
                    downloads := <[instanceKey := p]> (downloads t);
                    refreshes := refreshes t;
                    actionJSONs :=
                      actionJSONs t ++ [finishEntry a aJSON instanceKey] |})
    else
      let instanceKey := default "" (nameToKey !! InstanceName a) in
      (h', inr {| downloadNum := downloadNum t; installNum := installNum t;
                  installs := installs t; downloads := downloads t;
                  refreshes := <[instanceKey := p]> (refreshes t);
                  actionJSONs :=
                    actionJSONs t ++ [finishEntry a aJSON instanceKey] |}).

Fixpoint actionLoop (nameToKey : gmap string string) (actions : list ptr)
    (h : heap) (t : actionTables) : heap * (err + actionTables) :=
  match actions with
  | [] => (h, inr t)
  | p :: rest =>
      match actionStep nameToKey h t p with
      | (h', inl e) => (h', inl e)
      | (h', inr t') => actionLoop nameToKey rest h' t'
      end
  end.

(** *** [snapAction]: the request *)

Definition buildRequestOptions (opts : RefreshOptions) (w : World)
    (jsonData : json) : requestOptions :=
  let reqOptions :=
    {| Method := "POST"; URL := snapActionURL; Accept := jsonContentType;
       ContentType := jsonContentType; Data := jsonData;
       APILevel := apiV2Endps; ExtraHeaders := ∅ |} in
  let reqOptions :=
    if IsAutoRefresh opts
    then addHeader "Snap-Refresh-Reason" "scheduled" reqOptions
    else reqOptions in
  let reqOptions :=
    if useDeltas w
    then addHeader "Snap-Accept-Delta-Format" deltaFormat reqOptions
    else reqOptions in
  if RefreshManaged opts
  then addHeader "Snap-Refresh-Managed" "true" reqOptions
  else reqOptions.

(** *** [snapAction]: the walk over the results *)

Record correlation := {
  refreshErrors : gmap string err;
  installErrors : gmap string err;
  downloadErrors : gmap string err;
  otherErrors : list err;
  sars : list SnapActionResult;
}.

Definition noCorrelation : correlation :=
  {| refreshErrors := ∅; installErrors := ∅; downloadErrors := ∅;
     otherErrors := []; sars := [] |}.

Definition setRefreshError (name : string) (e : err) (c : correlation) :=
  {| refreshErrors := <[name := e]> (refreshErrors c);
     installErrors := installErrors c; downloadErrors := downloadErrors c;
     otherErrors := otherErrors c; sars := sars c |}.

Definition setInstallError (name : string) (e : err) (c : correlation) :=
  {| refreshErrors := refreshErrors c;
     installErrors := <[name := e]> (installErrors c);
     downloadErrors := downloadErrors c;
     otherErrors := otherErrors c; sars := sars c |}.

Definition setDownloadError (name : string) (e : err) (c : correlation) :=
  {| refreshErrors := refreshErrors c; installErrors := installErrors c;
     downloadErrors := <[name := e]> (downloadErrors c);
     otherErrors := otherErrors c; sars := sars c |}.

Definition appendOther (e : err) (c : correlation) :=
  {| refreshErrors := refreshErrors c; installErrors := installErrors c;
     downloadErrors := downloadErrors c;
     otherErrors := otherErrors c ++ [e]; sars := sars c |}.

Definition appendSar (r : SnapActionResult) (c : correlation) :=
  {| refreshErrors := refreshErrors c; installErrors := installErrors c;
     downloadErrors := downloadErrors c;
     otherErrors := otherErrors c; sars := sars c ++ [r] |}.

(** The branch [res.Result == "error"] of the loop body.  [h] is the heap
    the action loop left: the tables hold pointers, so [a.Channel] and
    [a.InstanceName] are read from the objects as they are now. *)
Definition errorResultStep (h : heap) (ct : contextTables) (at_ : actionTables)
    (c : correlation) (res : snapActionResult) : correlation :=
  let e := res_Error res in
  let orphan :=
    appendOther
      (translateSnapActionError "" "" (err_Code e) (err_Message e) []) c in
  match installs at_ !! res_InstanceKey res with
  | Some p =>
      let a := h p in
      if decide (res_Name res ≠ "") then
        setInstallError (InstanceName a)
          (translateSnapActionError "install" (Channel a) (err_Code e)
             (err_Message e) (err_Releases e)) c
      else orphan
  | None =>
      match downloads at_ !! res_InstanceKey res with
      | Some p =>
          let a := h p in
          if decide (res_Name res ≠ "") then
            setDownloadError (res_Name res)
              (translateSnapActionError "download" (Channel a) (err_Code e)
                 (err_Message e) (err_Releases e)) c
          else orphan
      | None =>
          match curSnaps ct !! res_InstanceKey res with
          | Some cur =>
              match refreshes at_ !! res_InstanceKey res with
              | None =>
                  (* an error for a snap that was not part of an action *)
                  appendOther
                    (translateSnapActionError "" "" (err_Code e)
                       ("snap " +:+ Quote (cur_InstanceName cur) +:+ ": "
                        +:+ err_Message e) []) c
              | Some p =>
                  let a := h p in
                  let channel :=
                    if bool_decide (Channel a = "")
                       && Revision_Unset (act_Revision a)
                    then cur_TrackingChannel cur
                    else Channel a in
                  setRefreshError (cur_InstanceName cur)
                    (translateSnapActionError "refresh" channel (err_Code e)
                       (err_Message e) (err_Releases e)) c
              end
          | None => orphan
          end
      end
  end.

(** The tail of the loop body, shared by every result that is kept. *)
Definition keepResult (c : correlation) (res : snapActionResult)
    (snapInfo : Info) (instanceName : string) : err + correlation :=
  if bool_decide (res_Result res ≠ "download") && bool_decide (instanceName = "")
  then inl (errUnexpectedInstanceKey (res_InstanceKey res))
  else
    let '(_, instanceKey) := SplitInstanceName instanceName in
    inr (appendSar
           {| sar_Info := Info_setInstanceKey instanceKey snapInfo;
              RedirectChannel := res_RedirectChannel res |} c).

(** One turn of [for _, res := range results.Results]. *)
Definition resultStep (h : heap) (ct : contextTables) (at_ : actionTables)
    (c : correlation) (res : snapActionResult) : err + correlation :=
  if decide (res_Result res = "error") then
    inr (errorResultStep h ct at_ c res)
  else
    match infoFromStoreSnap (res_Snap res) with
    | inl e => inl (errInvalidResult e)
    | inr snapInfo =>
        let snapInfo := Info_setChannel (res_EffectiveChannel res) snapInfo in
        if decide (res_Result res = "refresh") then
          match curSnaps ct !! res_InstanceKey res with
          | None => inl errUnexpectedRefresh
          | Some cur =>
              let rrev := R (storeSnap_Revision (res_Snap res)) in
              if bool_decide (rrev = cur_Revision cur)
                 || findRev rrev (cur_Block cur)
              then inr (setRefreshError (cur_InstanceName cur)
                          ErrNoUpdateAvailable c)
              else keepResult c res snapInfo (cur_InstanceName cur)
          end
        else if decide (res_Result res = "install") then
          match installs at_ !! res_InstanceKey res with
          | Some p => keepResult c res snapInfo (InstanceName (h p))
          | None => keepResult c res snapInfo ""
          end
        else keepResult c res snapInfo ""
    end.

Definition resultLoop (h : heap) (ct : contextTables) (at_ : actionTables)
    (results : list snapActionResult) : err + correlation :=
  foldE (resultStep h ct at_) results noCorrelation.

(** [for _, errObj := range results.ErrorList]. *)
Definition errorListErrors (l : list errorListEntry) : list err :=
  (λ errObj,
     translateSnapActionError "" "" (el_Code errObj) (el_Message errObj) [])
  <$> l.

(** "normalize empty maps" *)
Definition normalize (m : gmap string err) : option (gmap string err) :=
  if decide (size m = 0%nat) then None else Some m.

(** The end of [snapAction], from the second loop to the two returns. *)
Definition assemble (results : snapActionResultList) (c : correlation)
  : list SnapActionResult * option (callError extError) :=
  let otherErrors := otherErrors c ++ errorListErrors (ErrorList results) in
  if negb (size (refreshErrors c) + size (installErrors c)
           + size (downloadErrors c) =? 0)%nat
     || (length (Results results) =? 0)%nat
     || negb (length otherErrors =? 0)%nat
  then
    (sars c,
     Some (CompositeErr
             {| NoResults := (length (Results results) =? 0)%nat;
                Refresh := normalize (refreshErrors c);
                Install := normalize (installErrors c);
                Download := normalize (downloadErrors c);
                Other := otherErrors |}))
  else (sars c, None).

(** *** [snapAction] *)

Definition result : Type := list SnapActionResult * option (callError extError).

Definition logEvent (e : event) (st : state) : state :=
  {| objects := objects st; world := world st; trace := trace st ++ [e] |}.

Definition setObjects (h : heap) (st : state) : state :=
  {| objects := h; world := world st; trace := trace st |}.

Definition setWorld (w : World) (st : state) : state :=
  {| objects := objects st; world := w; trace := trace st |}.

Definition fail (e : err) : result := ([], Some (PlainErr e)).

(** The first half of [snapAction], up to [json.Marshal]: both loops and
    the payload.  The heap comes back also when the build fails. *)
Definition buildRequest (currentSnaps : list CurrentSnap) (actions : list ptr)
    (requestSalt : string) (h : heap)
  : heap * (err + contextTables * actionTables * json) :=
  match contextLoop requestSalt currentSnaps with
  | inl e => (h, inl e)
  | inr ct =>
      match actionLoop (instanceNameToKey ct) actions h noActions with
      | (h', inl e) => (h', inl e)
      | (h', inr at_) =>
          match marshal_snapActionRequest
                  {| req_Context := curSnapJSONs ct;
                     req_Actions := actionJSONs at_;
                     req_Fields := snapActionFields |} with
          | inl e => (h', inl (errExternal e))
          | inr jsonData => (h', inr (ct, at_, jsonData))
          end
      end
  end.

(** One inner call.  [opts] is never nil here: [SnapAction] replaces a nil
    [opts] before it calls. *)
Definition snapAction (currentSnaps : list CurrentSnap) (actions : list ptr)
    (opts : RefreshOptions) (st : state) : state * result :=
  let st := logEvent EvSnapAction st in
  let requestSalt := PrivacyKey opts in
  match buildRequest currentSnaps actions requestSalt (objects st) with
  | (h, inl e) => (setObjects h st, fail e)
  | (h, inr (ct, at_, jsonData)) =>
      let st := setObjects h st in
      let reqOptions := buildRequestOptions opts (world st) jsonData in
      let '(w, answer) := retryRequestDecodeJSON reqOptions (world st) in
      let st := setWorld w (logEvent (EvTransport reqOptions) st) in
      match answer with
      | inl e => (st, fail (errExternal e))
      | inr (resp, results) =>
          if decide (StatusCode resp ≠ 200) then
            (st, fail (errExternal
                         (respToError resp "query the store for updates")))
          else
            let st := setWorld (extractSuggestedCurrency resp w) st in
            match resultLoop h ct at_ (Results results) with
            | inl e => (st, fail e)
            | inr c => (st, assemble results c)
            end
      end
  end.

(** *** [SnapAction]: the auth-refresh loop *)

(** The body of [switch otherErr]. *)
Definition noteRefreshNeed (rn : authRefreshNeed) (otherErr : err)
  : authRefreshNeed :=
  match otherErr with
  | errUserAuthorizationNeedsRefresh =>
      {| need_device := need_device rn; need_user := true |}
  | errDeviceAuthorizationNeedsRefresh =>
      {| need_device := true; need_user := need_user rn |}
  | _ => rn
  end.

Definition refreshNeedOf (other : list err) : authRefreshNeed :=
  fold_left noteRefreshNeed other {| need_device := false; need_user := false |}.

(** What one turn of the [for] loop decides after the inner call. *)
Definition wantsRetry (authRefreshes : nat) (r : result) : option authRefreshNeed :=
  match snd r with
  | Some (CompositeErr saErr) =>
      if (authRefreshes <? 2)%nat && (0 <? length (Other saErr))%nat then
        let refreshNeed := refreshNeedOf (Other saErr) in
        if needed refreshNeed then Some refreshNeed else None
      else None
  | _ => None
  end.

(** The [for { ... }] of [SnapAction]; [fuel] bounds the number of turns
    the model may take, the code itself has no such bound. *)
Fixpoint retryLoop (fuel : nat) (authRefreshes : nat)
    (currentSnaps : list CurrentSnap) (actions : list ptr)
    (opts : RefreshOptions) (st : state) : option (state * result) :=
  match fuel with
  | O => None
  | S fuel' =>
      let '(st, r) := snapAction currentSnaps actions opts st in
      match wantsRetry authRefreshes r with
      | Some refreshNeed =>
          (* the error of refreshAuth is logged and dropped *)
          let '(w, _) := refreshAuth refreshNeed (world st) in
          let st := setWorld w (logEvent (EvRefreshAuth refreshNeed) st) in
          retryLoop fuel' (S authRefreshes) currentSnaps actions opts st
      | None => Some (st, r)
      end
  end.

(** [&RefreshOptions{}], what a nil [opts] is replaced by. *)
Definition noOptions : RefreshOptions :=
  {| RefreshManaged := false; IsAutoRefresh := false; PrivacyKey := "" |}.

Definition noResultsError : callError extError :=
  CompositeErr {| NoResults := true; Refresh := None; Install := None;
                  Download := None; Other := [] |}.

(** The method [SnapAction] of the store; the bare name is the struct. *)
Definition Store_SnapAction (fuel : nat) (currentSnaps : list CurrentSnap)
    (actions : list ptr) (opts : option RefreshOptions) (st : state)
  : option (state * result) :=
  let opts := default noOptions opts in
  if (length currentSnaps =? 0)%nat && (length actions =? 0)%nat then
    (* nothing to do *)
    Some (st, ([], Some noResultsError))
  else retryLoop fuel 0 currentSnaps actions opts st.

(** *** Names for what one turn of the action loop does *)

(** The heap after one turn. *)
Definition afterStep (h : heap) (p : ptr) : heap :=
  if Revision_Unset (act_Revision (h p)) then h
  else store h p (setChannel "" (h p)).

(** What an entry ends up with in [Name] and [Epoch], as functions of the
    action. *)
Definition nameOf (a : SnapAction) : string :=
  if decide (Action a ≠ "refresh") then InstanceSnap (InstanceName a) else "".

Definition epochOf (a : SnapAction) : option (option Epoch) :=
  if decide (Action a ≠ "refresh") then
    if Epoch_IsZero (act_Epoch a) then Some None else Some (Some (act_Epoch a))
  else None.

(** The entry one turn appends, but for its instance key. *)
Definition entryOf (a : SnapAction) (instanceKey : string) : snapActionJSON :=
  {| aj_Action := Action a;
     aj_InstanceKey := instanceKey;
     aj_Name := nameOf a;
     aj_SnapID := SnapID a;
     aj_Channel := Channel a;
     aj_Revision := N (act_Revision a);
     aj_CohortKey := CohortKey a;
     aj_IgnoreValidation := ignoreValidationOf (Flags a);
     aj_Epoch := epochOf a |}.

(** A turn fails for three reasons only, all read off the action kind and
    the instance name. *)
Definition rejected (kind instanceName : string) : option err :=
  if negb (isValidAction kind) then Some (errUnsupportedAction kind)
  else if decide (instanceName = "") then Some errActionWithoutInstanceName
  else if decide (kind = "download" ∧ (SplitInstanceName instanceName).2 ≠ "")
  then Some (errUnsupportedDownload instanceName)
  else None.

(** Two actions that differ at most in their flags, two entries that
    differ at most in [IgnoreValidation], and heaps and tables that differ
    at most so. *)
Definition sameButFlags (a b : SnapAction) : Prop :=
  Action a = Action b ∧ InstanceName a = InstanceName b
  ∧ SnapID a = SnapID b ∧ Channel a = Channel b
  ∧ act_Revision a = act_Revision b ∧ CohortKey a = CohortKey b
  ∧ act_Epoch a = act_Epoch b.

Definition sameButValidation (x y : snapActionJSON) : Prop :=
  aj_Action x = aj_Action y ∧ aj_InstanceKey x = aj_InstanceKey y
  ∧ aj_Name x = aj_Name y ∧ aj_SnapID x = aj_SnapID y
  ∧ aj_Channel x = aj_Channel y ∧ aj_Revision x = aj_Revision y
  ∧ aj_CohortKey x = aj_CohortKey y ∧ aj_Epoch x = aj_Epoch y.

Definition heapsButFlags (h1 h2 : heap) : Prop :=
  ∀ q, sameButFlags (h1 q) (h2 q).

Definition tablesButValidation (t1 t2 : actionTables) : Prop :=
  downloadNum t1 = downloadNum t2 ∧ installNum t1 = installNum t2
  ∧ installs t1 = installs t2 ∧ downloads t1 = downloads t2
  ∧ refreshes t1 = refreshes t2
  ∧ Forall2 sameButValidation (actionJSONs t1) (actionJSONs t2).

End Resolver.

(** ** Measures and checks named for the further properties *)

Section Accounting.
Context `{Tr : Transport}.

(** How many of the actions behind [l] are of kind [kind]. *)
Definition kindCount (h : heap) (kind : string) (l : list ptr) : nat :=
  length (filter (λ q, Action (h q) = kind) l).

(** The test at the head of the context loop:
    [curSnap.SnapID == "" || curSnap.InstanceName == "" ||
     curSnap.Revision.Unset()]. *)
Definition invalidCurrentSnap (curSnap : CurrentSnap) : bool :=
  bool_decide (cur_SnapID curSnap = "")
  || bool_decide (cur_InstanceName curSnap = "")
  || Revision_Unset (cur_Revision curSnap).

(** How many server results the walk has put somewhere so far. *)
Definition accounted (c : correlation) : nat :=
  (length (sars c) + size (refreshErrors c) + size (installErrors c)
   + size (downloadErrors c) + length (otherErrors c))%nat.

(** What a kept result looks like among the successes. *)
Definition keptAs (res : snapActionResult) (sar : SnapActionResult) : Prop :=
  res_Result res ≠ "error"
  ∧ RedirectChannel sar = res_RedirectChannel res
  ∧ ∃ info instanceKey,
      infoFromStoreSnap (res_Snap res) = inr info
      ∧ sar_Info sar
        = Info_setInstanceKey instanceKey
            (Info_setChannel (res_EffectiveChannel res) info).

(** No key that a later install or download would be given is in the
    tables yet. *)
Definition countersFresh (t : actionTables) : Prop :=
  (∀ k, (installNum t < k)%nat →
        installs t !! ("install-" +:+ pretty k) = None)
  ∧ (∀ k, (downloadNum t < k)%nat →
          downloads t !! ("download-" +:+ pretty k) = None).

(** Two actions that differ at most in their channel, two entries that
    differ at most in [Channel], and heaps and tables that differ at most
    so. *)
Definition sameButChannel (a b : SnapAction) : Prop :=
  Action a = Action b ∧ InstanceName a = InstanceName b
  ∧ SnapID a = SnapID b ∧ act_Revision a = act_Revision b
  ∧ CohortKey a = CohortKey b ∧ Flags a = Flags b
  ∧ act_Epoch a = act_Epoch b.

Definition entriesButChannel (x y : snapActionJSON) : Prop :=
  aj_Action x = aj_Action y ∧ aj_InstanceKey x = aj_InstanceKey y
  ∧ aj_Name x = aj_Name y ∧ aj_SnapID x = aj_SnapID y
  ∧ aj_Revision x = aj_Revision y ∧ aj_CohortKey x = aj_CohortKey y
  ∧ aj_IgnoreValidation x = aj_IgnoreValidation y
  ∧ aj_Epoch x = aj_Epoch y.

Definition heapsButChannel (h1 h2 : heap) : Prop :=
  ∀ q, sameButChannel (h1 q) (h2 q).

Definition tablesButChannel (t1 t2 : actionTables) : Prop :=
  downloadNum t1 = downloadNum t2 ∧ installNum t1 = installNum t2
  ∧ installs t1 = installs t2 ∧ downloads t1 = downloads t2
  ∧ refreshes t1 = refreshes t2
  ∧ Forall2 entriesButChannel (actionJSONs t1) (actionJSONs t2).

(** Two emitted objects that agree on every key but [channel]. *)
Definition objectsButChannel (x y : list (string * json)) : Prop :=
  ∀ key, key ≠ "channel" → obj_get key x = obj_get key y.

End Accounting.

(** Deciding equality of two key literals. *)
Ltac key_decide :=
  repeat first
    [ rewrite decide_True by reflexivity
    | rewrite decide_False by discriminate ];
  cbn [obj_get app].


(** ** A concrete store to run the resolver on

    A scripted stand-in for the collaborators: the transport plays back a
    list of canned answers, token refresh always fails, hashing and
    encoding only wrap their input. *)

Module Demo.

Record demoSnap := { ds_Revision : Z; ds_Price : string }.

Record demoInfo := {
  di_Revision : Z;
  di_Channel : string;
  di_InstanceKey : string;
}.

(** The decoder refuses a payload with a bad price, as a stand-in for
    anything the real decoder cannot parse. *)
Definition demoInfoFromStoreSnap (d : demoSnap) : string + demoInfo :=
  if decide (ds_Price d = "bad") then inl "cannot parse snap price"
  else inr {| di_Revision := ds_Revision d; di_Channel := "";
              di_InstanceKey := "" |}.

Definition demoTranslate (action snapChannel code message : string)
    (releases : list snapRelease) : error string :=
  if decide (code = "user-authorization-needs-refresh")
  then errUserAuthorizationNeedsRefresh
  else if decide (code = "device-authorization-needs-refresh")
  then errDeviceAuthorizationNeedsRefresh
  else errExternal (action +:+ "/" +:+ snapChannel +:+ "/" +:+ code
                    +:+ "/" +:+ message).

#[export] Instance demoExternals : Externals := {|
  Epoch := list Z;
  Epoch_IsZero := λ e, bool_decide (e = []);
  Revision_Unset := λ r, bool_decide (N r = 0);
  extError := string;
  Epoch_MarshalJSON := λ e, inr (JArr (JNum <$> e));
  Time := Z;
  Time_IsZero := λ t, bool_decide (t = 0);
  Time_MarshalJSON := λ t, inr (JNum t);
  SHA256 := λ s, "sha256(" +:+ s +:+ ")";
  RawURLEncoding := λ s, "b64(" +:+ s +:+ ")";
  Quote := λ s, "'" +:+ s +:+ "'";
  storeSnap := demoSnap;
  storeSnap_Revision := ds_Revision;
  Info := demoInfo;
  Info_setChannel := λ c i,
    {| di_Revision := di_Revision i; di_Channel := c;
       di_InstanceKey := di_InstanceKey i |};
  Info_setInstanceKey := λ k i,
    {| di_Revision := di_Revision i; di_Channel := di_Channel i;
       di_InstanceKey := k |};
  infoFromStoreSnap := demoInfoFromStoreSnap;
  translateSnapActionError := demoTranslate;
  snapActionFields := ["snap-id"; "revision"];
  snapActionURL := "v2/snaps/refresh";
  jsonContentType := "application/json";
  apiV2Endps := 2;
  deltaFormat := "xdelta3";
  Response := Z;
  StatusCode := λ code, code;
  respToError := λ _ msg, "cannot " +:+ msg;
|}.

(** The world is the list of answers the server has yet to give. *)
Definition demoWorld : Type :=
  list (string + Z * snapActionResultList).

#[export] Instance demoTransport : Transport := {|
  World := demoWorld;
  useDeltas := λ _, false;
  retryRequestDecodeJSON := λ _ w,
    match w with
    | [] => ([], inl "no answer")
    | a :: rest => (rest, a)
    end;
  extractSuggestedCurrency := λ _ w, w;
  refreshAuth := λ _ w, (w, Some "cannot refresh");
|}.

Definition mkCurrent (name id : string) (rev : Z) (block : list Z) : CurrentSnap :=
  {| cur_InstanceName := name; cur_SnapID := id; cur_Revision := R rev;
     cur_TrackingChannel := "stable"; cur_RefreshedDate := 0;
     cur_IgnoreValidation := false; cur_Block := R <$> block;
     cur_Epoch := []; cur_CohortKey := "" |}.

Definition mkAction (kind name channel : string) (rev flags : Z) : SnapAction :=
  {| Action := kind; InstanceName := name; SnapID := ""; Channel := channel;
     act_Revision := R rev; CohortKey := ""; Flags := flags; act_Epoch := [] |}.

Definition noError : snapActionResultError :=
  {| err_Code := ""; err_Message := ""; err_Releases := [] |}.

Definition mkResult (kind key name : string) (rev : Z) (price : string)
  : snapActionResult :=
  {| res_Result := kind; res_InstanceKey := key; res_SnapID := "";
     res_Name := name;
     res_Snap := {| ds_Revision := rev; ds_Price := price |};
     res_EffectiveChannel := "stable"; res_RedirectChannel := "";
     res_Error := noError |}.

Definition mkErrorResult (key name code : string) : snapActionResult :=
  {| res_Result := "error"; res_InstanceKey := key; res_SnapID := "";
     res_Name := name;
     res_Snap := {| ds_Revision := 0; ds_Price := "" |};
     res_EffectiveChannel := ""; res_RedirectChannel := "";
     res_Error := {| err_Code := code; err_Message := "msg";
                     err_Releases := [] |} |}.

Definition answer (results : list snapActionResult) (errs : list errorListEntry)
  : string + Z * snapActionResultList :=
  inr (200, {| Results := results; ErrorList := errs |}).

(** A heap with one object per pointer: the actions of a list, and a
    blank action elsewhere. *)
Definition heapOf (l : list SnapAction) : heap :=
  λ p, default (mkAction "" "" "" 0 0) (l !! p).

Definition start (l : list SnapAction) (w : demoWorld) : state :=
  {| objects := heapOf l; world := w; trace := [] |}.

Definition salted : RefreshOptions :=
  {| RefreshManaged := false; IsAutoRefresh := false; PrivacyKey := "salt" |}.

(** What a successful build produced. *)
Definition built
    (b : heap * (error string + contextTables * actionTables * json))
  : contextTables * actionTables * json :=
  match b.2 with
  | inr x => x
  | inl _ => (noContext, noActions, JNull)
  end.

(** An install pinned to revision 7 that also names a channel. *)
Definition pinned : SnapAction := mkAction "install" "hello" "stable" 7 0.
Definition pinnedBuild := buildRequest [] [0%nat] "salt" (heapOf [pinned]).

(** An install whose instance name has an instance key and no snap name. *)
Definition nameless : SnapAction := mkAction "install" "_x" "stable" 0 0.

(** A plain install and a refresh of a snap with an instance key, both
    validation flags set on the refresh. *)
Definition helloDev : CurrentSnap := mkCurrent "hello_dev" "abc" 10 [11].
Definition mixed : list SnapAction :=
  [mkAction "install" "core" "stable" 0 0;
   mkAction "refresh" "hello_dev" "edge" 0 3].
Definition mixedBuild :=
  buildRequest [helloDev] [0%nat; 1%nat] "salt" (heapOf mixed).
Definition helloDevKey : string := "abc:b64(sha256(abcdevsalt))".

(** A refresh pinned to a revision, its first answer asking for a user
    token refresh, its second reporting an error for the snap. *)
Definition hello : CurrentSnap := mkCurrent "hello" "abc" 10 [11].
Definition pinnedRefresh : SnapAction := mkAction "refresh" "hello" "edge" 12 0.
Definition softExpiry : demoWorld :=
  [answer [mkErrorResult "" "" "user-authorization-needs-refresh"] [];
   answer [mkErrorResult "abc" "hello" "revision-not-found"] []].

(** Server results about [hello]: the current revision with a payload
    that decodes, the same with one that does not, a blocked revision. *)
Definition sameRevision : snapActionResult := mkResult "refresh" "abc" "hello" 10 "".
Definition helloTables : contextTables :=
  (built (buildRequest [hello] [] "salt" (heapOf []))).1.1.

(** The refresh of [hello] answered with its current revision. *)
Definition plainRefresh : SnapAction := mkAction "refresh" "hello" "" 0 0.
Definition noUpdateBuild :=
  buildRequest [hello] [0%nat] "salt" (heapOf [plainRefresh]).
Definition noUpdate : state :=
  start [plainRefresh] [answer [sameRevision] []].


End Demo.

(** ** More inputs for the concrete store *)

Module Scenes.
Import Demo.

(** The correlation a walk ended with. *)
Definition walked (r : error string + correlation) : correlation :=
  match r with
  | inr c => c
  | inl _ => noCorrelation
  end.

(** Two installs, a refresh and a download, and the answer of the store:
    the refresh fails, the other three succeed. *)
Definition batch : list SnapAction :=
  [mkAction "install" "one" "stable" 0 0;
   mkAction "install" "two_dev" "stable" 0 0;
   mkAction "refresh" "hello" "edge" 0 0;
   mkAction "download" "three" "stable" 0 0].
Definition batchBuild :=
  buildRequest [hello] [0%nat; 1%nat; 2%nat; 3%nat] "salt" (heapOf batch).
Definition batchResults : list snapActionResult :=
  [mkResult "install" "install-1" "one" 1 "";
   mkResult "install" "install-2" "two" 2 "";
   mkErrorResult "abc" "hello" "snap-channel-not-available";
   mkResult "download" "download-1" "three" 3 ""].
Definition batchWalk : correlation :=
  walked (resultLoop batchBuild.1 (built batchBuild).1.1
            (built batchBuild).1.2 batchResults).

(** An install, an action of a kind the store does not know, and a
    download that has an instance key. *)
Definition secondRejected : list SnapAction :=
  [mkAction "install" "one" "stable" 0 0;
   mkAction "remove" "hello" "" 0 0;
   mkAction "download" "three_x" "" 0 0].

(** A result of a kind the store never sends. *)
Definition strangeResult : snapActionResult := mkResult "remove" "x" "x" 1 "".

(** The refresh of [hello] answered with a new revision. *)
Definition newRevision : snapActionResult :=
  mkResult "refresh" "abc" "hello" 12 "".
Definition updateWalk : correlation :=
  walked (resultLoop noUpdateBuild.1 (built noUpdateBuild).1.1
            (built noUpdateBuild).1.2 [newRevision]).

(** A managed auto refresh. *)
Definition managed : RefreshOptions :=
  {| RefreshManaged := true; IsAutoRefresh := true; PrivacyKey := "salt" |}.

(** An install under a key the request never used. *)
Definition strayInstall : snapActionResult :=
  mkResult "install" "install-9" "hello" 1 "".


(** [pinned] with another channel. *)
Definition pinnedEdge : SnapAction := mkAction "install" "hello" "edge" 7 0.

End Scenes.


(** * Properties *)

Section Properties.
Context `{Tr : Transport}.

Abbreviation err := (error extError).

(** ** Generic facts about the loop combinators and emitted objects *)

Lemma bindE_inr {E A B} (m : E + A) (k : A → E + B) (b : B) :
  bindE m k = inr b → ∃ a, m = inr a ∧ k a = inr b.
Proof. destruct m as [e|a]; simpl; [discriminate | eauto]. Qed.

Lemma foldE_app {E S A} (f : S → A → E + S) (l1 l2 : list A) (s : S) :
  foldE f (l1 ++ l2) s =
  match foldE f l1 s with inl e => inl e | inr s' => foldE f l2 s' end.
Proof.
  revert s. induction l1 as [|x l1 IH]; intros s; simpl; [done|].
  destruct (f s x); [done | apply IH].
Qed.

Lemma mapE_lookup {E A B} (f : A → E + B) (l : list A) (l' : list B) i x :
  mapE f l = inr l' → l !! i = Some x →
  ∃ y, f x = inr y ∧ l' !! i = Some y.
Proof.
  revert l' i. induction l as [|x0 l IH]; intros l' i H Hi; [done|].
  simpl in H. apply bindE_inr in H as (y & Hy & H).
  apply bindE_inr in H as (ys & Hys & H). inversion H; subst.
  destruct i as [|i]; simpl in *.
  - inversion Hi; subst. eauto.
  - eapply IH; eauto.
Qed.

Lemma obj_get_app key (l1 l2 : list (string * json)) :
  obj_get key (l1 ++ l2) =
  match obj_get key l1 with Some v => Some v | None => obj_get key l2 end.
Proof.
  induction l1 as [|[k v] l1 IH]; simpl; [done|].
  destruct (decide (k = key)); [done | apply IH].
Qed.

Lemma obj_get_omitempty_string key k s :
  obj_get key (omitempty_string k s) =
  if decide (k = key) then (if decide (s = "") then None else Some (JStr s))
  else None.
Proof.
  unfold omitempty_string. destruct (decide (s = "")); simpl;
    destruct (decide (k = key)); done.
Qed.

Lemma obj_get_omitempty_int key k n :
  obj_get key (omitempty_int k n) =
  if decide (k = key) then (if decide (n = 0) then None else Some (JNum n))
  else None.
Proof.
  unfold omitempty_int. destruct (decide (n = 0)); simpl;
    destruct (decide (k = key)); done.
Qed.

Lemma obj_get_omitempty_boolptr key k p :
  obj_get key (omitempty_boolptr k p) =
  if decide (k = key) then JBool <$> p else None.
Proof.
  unfold omitempty_boolptr. destruct p; simpl; destruct (decide (k = key)); done.
Qed.

Lemma arrayObjects_JObj (l : list (list (string * json))) :
  arrayObjects (JArr (JObj <$> l)) = l.
Proof.
  unfold arrayObjects. induction l as [|x l IH]; [done|].
  rewrite fmap_cons. change (omap ?f (JObj x :: ?t)) with (x :: omap f t).
  by rewrite IH.
Qed.

(** The payload holds exactly the marshalled entries, in order. *)
Lemma marshal_snapActionRequest_inr r jsonData :
  marshal_snapActionRequest r = inr jsonData →
  mapE marshal_currentSnapV2JSON (req_Context r) = inr (serializedContext jsonData)
  ∧ mapE marshal_snapActionJSON (req_Actions r) = inr (serializedActions jsonData).
Proof.
  unfold marshal_snapActionRequest. intros H.
  apply bindE_inr in H as (ctx & Hctx & H).
  apply bindE_inr in H as (acts & Hacts & H). inversion H; subst.
  unfold serializedContext, serializedActions, payloadArray.
  cbn [obj_get]. repeat case_decide; try done.
  cbn [from_option]. by rewrite !arrayObjects_JObj.
Qed.

Lemma marshal_epochField_other (e : option (option Epoch)) ep key :
  marshal_epochField e = inr ep → key ≠ "epoch" → obj_get key ep = None.
Proof.
  intros Hep Hkey. unfold marshal_epochField in Hep.
  destruct e as [[e|]|].
  - apply bindE_inr in Hep as (j & _ & Hj). inversion Hj; subst.
    simpl. by case_decide.
  - inversion Hep; subst. simpl. by case_decide.
  - by inversion Hep; subst.
Qed.

Lemma marshal_epochField_epoch (e : option (option Epoch)) ep :
  marshal_epochField e = inr ep →
  ep = from_option (λ j, [("epoch", j)]) [] (obj_get "epoch" ep).
Proof.
  intros Hep. unfold marshal_epochField in Hep.
  destruct e as [[e|]|].
  - apply bindE_inr in Hep as (j & _ & Hj). by inversion Hj; subst.
  - by inversion Hep; subst.
  - by inversion Hep; subst.
Qed.

(** Which keys an action entry carries on the wire. *)
Lemma marshal_snapActionJSON_fields (a : snapActionJSON) obj :
  marshal_snapActionJSON a = inr obj →
  obj_get "action" obj = Some (JStr (aj_Action a))
  ∧ obj_get "instance-key" obj = Some (JStr (aj_InstanceKey a))
  ∧ obj_get "name" obj =
      (if decide (aj_Name a = "") then None else Some (JStr (aj_Name a)))
  ∧ obj_get "channel" obj =
      (if decide (aj_Channel a = "") then None else Some (JStr (aj_Channel a)))
  ∧ obj_get "ignore-validation" obj = JBool <$> aj_IgnoreValidation a
  ∧ marshal_epochField (aj_Epoch a) =
      inr (from_option (λ j, [("epoch", j)]) [] (obj_get "epoch" obj)).
Proof.
  unfold marshal_snapActionJSON. intros H.
  apply bindE_inr in H as (ep & Hep & H). inversion H; subst; clear H.
  pose proof (marshal_epochField_other _ _ "name" Hep) as Hn.
  pose proof (marshal_epochField_other _ _ "channel" Hep) as Hc.
  pose proof (marshal_epochField_other _ _ "ignore-validation" Hep) as Hi.
  cbn [app obj_get].
  rewrite !obj_get_app, !obj_get_omitempty_string, !obj_get_omitempty_int,
    !obj_get_omitempty_boolptr.
  key_decide. repeat split.
  - destruct (decide (aj_Name a = "")); [|done]. by apply Hn.
  - destruct (decide (aj_Channel a = "")); [|done]. by apply Hc.
  - destruct (aj_IgnoreValidation a); [done|]. by apply Hi.
  - rewrite Hep. f_equal. by apply marshal_epochField_epoch in Hep.
Qed.

Lemma marshal_currentSnapV2JSON_key (c : currentSnapV2JSON) obj :
  marshal_currentSnapV2JSON c = inr obj →
  obj_get "instance-key" obj = Some (JStr (cj_InstanceKey c)).
Proof.
  unfold marshal_currentSnapV2JSON. intros H.
  apply bindE_inr in H as (ep & _ & H).
  apply bindE_inr in H as (date & _ & H). inversion H; subst.
  cbn [app obj_get]. by key_decide.
Qed.

(** ** The action loop *)

Lemma afterStep_fields h p :
  Action (afterStep h p p) = Action (h p)
  ∧ InstanceName (afterStep h p p) = InstanceName (h p)
  ∧ act_Epoch (afterStep h p p) = act_Epoch (h p).
Proof.
  unfold afterStep, store. destruct (Revision_Unset _); [done|].
  by rewrite decide_True.
Qed.

Lemma finishEntry_entryOf h p instanceKey :
  finishEntry (afterStep h p p)
    {| aj_Action := Action (h p);
       aj_InstanceKey := "";
       aj_Name := "";
       aj_SnapID := SnapID (h p);
       aj_Channel := Channel (h p);
       aj_Revision := N (act_Revision (h p));
       aj_CohortKey := CohortKey (h p);
       aj_IgnoreValidation := ignoreValidationOf (Flags (h p));
       aj_Epoch := None |} instanceKey
  = entryOf (h p) instanceKey.
Proof.
  unfold finishEntry, entryOf, nameOf, epochOf.
  destruct (afterStep_fields h p) as (-> & -> & ->).
  by destruct (decide (Action (h p) ≠ "refresh")).
Qed.

(** The turn with its two reads through the written object resolved. *)
Lemma actionStep_unfold nk h t p :
  actionStep nk h t p =
  if negb (isValidAction (Action (h p))) then
    (h, inl (errUnsupportedAction (Action (h p))))
  else if decide (InstanceName (h p) = "") then
    (h, inl errActionWithoutInstanceName)
  else if decide (Action (h p) = "install") then
    let instanceKey := "install-" +:+ pretty (S (installNum t)) in
    (afterStep h p,
     inr {| downloadNum := downloadNum t; installNum := S (installNum t);
            installs := <[instanceKey := p]> (installs t);
            downloads := downloads t; refreshes := refreshes t;
            actionJSONs := actionJSONs t ++ [entryOf (h p) instanceKey] |})
  else if decide (Action (h p) = "download") then
    let instanceKey := "download-" +:+ pretty (S (downloadNum t)) in
    if decide ((SplitInstanceName (InstanceName (h p))).2 ≠ "") then
      (afterStep h p, inl (errUnsupportedDownload (InstanceName (h p))))
    else
      (afterStep h p,
       inr {| downloadNum := S (downloadNum t); installNum := installNum t;
              installs := installs t;
              downloads := <[instanceKey := p]> (downloads t);
              refreshes := refreshes t;
              actionJSONs := actionJSONs t ++ [entryOf (h p) instanceKey] |})
  else
    let instanceKey := default "" (nk !! InstanceName (h p)) in
    (afterStep h p,
     inr {| downloadNum := downloadNum t; installNum := installNum t;
            installs := installs t; downloads := downloads t;
            refreshes := <[instanceKey := p]> (refreshes t);
            actionJSONs := actionJSONs t ++ [entryOf (h p) instanceKey] |}).
Proof.
  unfold actionStep. cbn zeta.
  change (if Revision_Unset (act_Revision (h p)) then h
          else store h p (setChannel "" (h p))) with (afterStep h p).
  destruct (afterStep_fields h p) as (-> & -> & _).
  by rewrite !finishEntry_entryOf.
Qed.

Lemma actionStep_inl nk h t p h' e :
  actionStep nk h t p = (h', inl e) →
  rejected (Action (h p)) (InstanceName (h p)) = Some e
  ∧ (h' = h ∨ h' = afterStep h p)
  ∧ (isValidAction (Action (h p)) = true → InstanceName (h p) ≠ "" →
     h' = afterStep h p).
Proof.
  rewrite actionStep_unfold. unfold rejected. intros H.
  destruct (isValidAction (Action (h p))); simpl in *.
  2: { simplify_eq. split_and!; [done | by left | done]. }
  destruct (decide (InstanceName (h p) = "")).
  { simplify_eq. split_and!; [done | by left | done]. }
  destruct (decide (Action (h p) = "install")) as [Hi|Hi]; [done|].
  destruct (decide (Action (h p) = "download")) as [Hd|Hd]; [|done].
  destruct (decide ((SplitInstanceName (InstanceName (h p))).2 ≠ "")); [|done].
  rewrite decide_True by done. simplify_eq.
  split_and!; [done | by right | done].
Qed.

Lemma actionStep_inr nk h t p h' t' :
  actionStep nk h t p = (h', inr t') →
  rejected (Action (h p)) (InstanceName (h p)) = None
  ∧ h' = afterStep h p
  ∧ ∃ instanceKey,
      actionJSONs t' = actionJSONs t ++ [entryOf (h p) instanceKey]
      ∧ (Action (h p) = "install" →
           instanceKey = "install-" +:+ pretty (S (installNum t))
           ∧ installs t' = <[instanceKey := p]> (installs t)
           ∧ installNum t' = S (installNum t)
           ∧ downloadNum t' = downloadNum t
           ∧ downloads t' = downloads t ∧ refreshes t' = refreshes t)
      ∧ (Action (h p) = "download" →
           instanceKey = "download-" +:+ pretty (S (downloadNum t))
           ∧ downloads t' = <[instanceKey := p]> (downloads t)
           ∧ downloadNum t' = S (downloadNum t)
           ∧ installNum t' = installNum t
           ∧ installs t' = installs t ∧ refreshes t' = refreshes t)
      ∧ (Action (h p) ≠ "install" → Action (h p) ≠ "download" →
           instanceKey = default "" (nk !! InstanceName (h p))
           ∧ refreshes t' = <[instanceKey := p]> (refreshes t)
           ∧ installNum t' = installNum t ∧ downloadNum t' = downloadNum t
           ∧ installs t' = installs t ∧ downloads t' = downloads t).
Proof.
  rewrite actionStep_unfold. unfold rejected. intros H.
  destruct (isValidAction (Action (h p))); simpl in *; [|done].
  destruct (decide (InstanceName (h p) = "")); [done|].
  destruct (decide (Action (h p) = "install")) as [Hi|Hi].
  { simplify_eq. rewrite decide_False by (rewrite Hi; intros [? _]; done).
    split_and!; [done..|]. eexists. split; [done|].
    split_and!; intros; simplify_eq; try done. by rewrite Hi in *. }
  destruct (decide (Action (h p) = "download")) as [Hd|Hd].
  { destruct (decide ((SplitInstanceName (InstanceName (h p))).2 ≠ ""));
      [done|].
    simplify_eq. rewrite decide_False by (intros [_ ?]; done).
    split_and!; [done..|]. eexists. split; [done|].
    split_and!; intros; simplify_eq; done. }
  simplify_eq. rewrite decide_False by (intros [? _]; done).
  split_and!; [done..|]. eexists. split; [done|].
  split_and!; intros; simplify_eq; done.
Qed.

Lemma rejected_None kind name :
  rejected kind name = None ↔
  isValidAction kind = true ∧ name ≠ ""
  ∧ (kind = "download" → (SplitInstanceName name).2 = "").
Proof.
  unfold rejected.
  destruct (isValidAction kind); simpl;
    [|split; [done | by intros (? & _)]].
  destruct (decide (name = "")); [split; [done | by intros (_ & ? & _)]|].
  case_decide as Hd.
  - split; [done|]. intros (_ & _ & Hk). destruct Hd as [Hd Hne].
    by destruct (Hne (Hk Hd)).
  - split; [|done]. intros _. split_and!; [done..|].
    intros Hk. destruct (decide ((SplitInstanceName name).2 = "")); [done|].
    by destruct Hd.
Qed.

Lemma afterStep_lookup h p q :
  afterStep h p q =
  if decide (q = p ∧ Revision_Unset (act_Revision (h q)) = false)
  then setChannel "" (h q) else h q.
Proof.
  unfold afterStep, store.
  destruct (Revision_Unset (act_Revision (h p))) eqn:Hu.
  - rewrite decide_False; [done|]. intros [-> ?]. congruence.
  - destruct (decide (q = p)) as [->|Hq].
    + by rewrite decide_True.
    + rewrite decide_False; [done|]. by intros [? _].
Qed.

Lemma actionLoop_app nk l1 l2 h t :
  actionLoop nk (l1 ++ l2) h t =
  match actionLoop nk l1 h t with
  | (h', inl e) => (h', inl e)
  | (h', inr t') => actionLoop nk l2 h' t'
  end.
Proof.
  revert h t. induction l1 as [|p l1 IH]; intros h t; simpl; [done|].
  destruct (actionStep nk h t p) as [h1 [e|t1]]; [done | apply IH].
Qed.

(** The heap the loop leaves, pointer by pointer: the channel of every
    object the loop went through whose revision is set is cleared, and
    nothing else is touched. *)
Lemma actionLoop_heap nk l h t h' t' :
  actionLoop nk l h t = (h', inr t') →
  ∀ q, h' q =
       if decide (q ∈ l ∧ Revision_Unset (act_Revision (h q)) = false)
       then setChannel "" (h q) else h q.
Proof.
  revert h t. induction l as [|p l IH]; intros h t H q; simpl in H.
  - simplify_eq. rewrite decide_False; [done|]. intros [Hq _]. by inversion Hq.
  - destruct (actionStep nk h t p) as [h1 [e|t1]] eqn:Hs; [done|].
    apply actionStep_inr in Hs as (_ & -> & _).
    rewrite (IH _ _ H q), !afterStep_lookup.
    destruct (decide (q = p ∧ Revision_Unset (act_Revision (h q)) = false))
      as [[-> Hu]|Hn].
    + rewrite (decide_True (P := p ∈ p :: l ∧ _)) by (split; [left|done]).
      by case_decide.
    + destruct (decide (q ∈ l ∧ Revision_Unset (act_Revision (h q)) = false))
        as [[Hin Hu]|Hn'].
      * rewrite decide_True by (split; [by right|done]). done.
      * rewrite decide_False; [done|]. intros [Hin Hu].
        apply elem_of_cons in Hin as [->|Hin]; [by apply Hn | by apply Hn'].
Qed.

(** Whatever the outcome, each object is as before or has lost its channel. *)
Lemma actionLoop_frame nk l h t h' r :
  actionLoop nk l h t = (h', r) →
  ∀ q, h' q = h q
       ∨ (h' q = setChannel "" (h q) ∧ q ∈ l
          ∧ Revision_Unset (act_Revision (h q)) = false).
Proof.
  revert h t. induction l as [|p l IH]; intros h t H q; simpl in H.
  - simplify_eq. by left.
  - destruct (actionStep nk h t p) as [h1 [e|t1]] eqn:Hs.
    + simplify_eq. apply actionStep_inl in Hs as (_ & [->| ->] & _); [by left|].
      rewrite afterStep_lookup. case_decide as Hq; [|by left].
      destruct Hq as [-> Hu]. right. split_and!; [done| left |done].
    + apply actionStep_inr in Hs as (_ & -> & _).
      destruct (IH _ _ H q) as [Hq|(Hq & Hin & Hu)]; rewrite Hq.
      * rewrite afterStep_lookup. case_decide as Hp; [|by left].
        destruct Hp as [-> Hu]. right. split_and!; [done| left |done].
      * rewrite afterStep_lookup in Hu |- *. right.
        case_decide as Hp.
        -- destruct Hp as [-> Hu']. split_and!; [done | left | done].
        -- split_and!; [done | by right | done].
Qed.

(** The loop only appends entries, one per action. *)
Lemma actionLoop_entries nk l h t h' t' :
  actionLoop nk l h t = (h', inr t') →
  ∃ es, actionJSONs t' = actionJSONs t ++ es ∧ length es = length l.
Proof.
  revert h t. induction l as [|p l IH]; intros h t H; simpl in H.
  - simplify_eq. exists []. by rewrite app_nil_r.
  - destruct (actionStep nk h t p) as [h1 [e|t1]] eqn:Hs; [done|].
    apply actionStep_inr in Hs as (_ & _ & k & Hk & _).
    apply IH in H as (es & -> & Hlen). rewrite Hk, <-app_assoc.
    eexists. split; [done|]. simpl. by rewrite Hlen.
Qed.

(** The entry of the action at index [i]: it is built from the object as
    the turns before [i] left it. *)
Lemma actionLoop_lookup nk l h t h' t' i p :
  actionLoop nk l h t = (h', inr t') → l !! i = Some p →
  ∃ h1 t1 instanceKey,
    actionLoop nk (take i l) h t = (h1, inr t1)
    ∧ rejected (Action (h1 p)) (InstanceName (h1 p)) = None
    ∧ actionJSONs t' !! (length (actionJSONs t) + i)%nat
      = Some (entryOf (h1 p) instanceKey)
    ∧ (Action (h1 p) ≠ "install" → Action (h1 p) ≠ "download" →
       instanceKey = default "" (nk !! InstanceName (h1 p))).
Proof.
  intros H Hi. rewrite <-(take_drop_middle l i p Hi), actionLoop_app in H.
  destruct (actionLoop nk (take i l) h t) as [h1 [e|t1]] eqn:H1; [done|].
  simpl in H.
  destruct (actionStep nk h1 t1 p) as [h2 [e|t2]] eqn:Hs; [done|].
  apply actionStep_inr in Hs as (Hrej & _ & k & Hk & _ & _ & Hkey).
  destruct (actionLoop_entries _ _ _ _ _ _ H1) as (es1 & He1 & Hl1).
  apply actionLoop_entries in H as (es2 & He2 & _).
  exists h1, t1, k. split_and!; [done..| |by intros ??; apply Hkey].
  assert (length es1 = i) as Hlen.
  { rewrite Hl1, length_take. apply lookup_lt_Some in Hi. lia. }
  rewrite He2, Hk, He1, <-!app_assoc.
  rewrite lookup_app_r by lia. rewrite lookup_app_r by lia.
  replace (length (actionJSONs t) + i - length (actionJSONs t) - length es1)%nat
    with 0%nat by lia.
  done.
Qed.

(** The entry of the action at index [i] in terms of the heap the caller
    handed in.  Only the channel can differ from the caller's object: it is
    already cleared when the same object came earlier in the list with a
    set revision. *)
Lemma actionLoop_entry nk l h h' t' i p :
  actionLoop nk l h noActions = (h', inr t') → l !! i = Some p →
  rejected (Action (h p)) (InstanceName (h p)) = None
  ∧ ∃ aj, actionJSONs t' !! i = Some aj
    ∧ aj_Action aj = Action (h p)
    ∧ aj_Name aj = nameOf (h p)
    ∧ aj_Epoch aj = epochOf (h p)
    ∧ aj_IgnoreValidation aj = ignoreValidationOf (Flags (h p))
    ∧ aj_Channel aj =
        (if decide (p ∈ take i l
                    ∧ Revision_Unset (act_Revision (h p)) = false)
         then "" else Channel (h p))
    ∧ (Action (h p) = "refresh" →
       aj_InstanceKey aj = default "" (nk !! InstanceName (h p))).
Proof.
  intros H Hi.
  destruct (actionLoop_lookup _ _ _ _ _ _ _ _ H Hi)
    as (h1 & t1 & k & H1 & Hrej & Hlook & Hkey).
  pose proof (actionLoop_heap _ _ _ _ _ _ H1 p) as Hp.
  assert (Hsame : h1 p = h p ∨ h1 p = setChannel "" (h p)).
  { rewrite Hp. case_decide; eauto. }
  assert (rejected (Action (h1 p)) (InstanceName (h1 p))
          = rejected (Action (h p)) (InstanceName (h p))) as Hr
    by (destruct Hsame as [-> | ->]; done).
  split; [by rewrite <-Hr|].
  exists (entryOf (h1 p) k). simpl in Hlook. split; [done|].
  split_and!; simpl.
  - by destruct Hsame as [-> | ->].
  - by destruct Hsame as [-> | ->].
  - by destruct Hsame as [-> | ->].
  - by destruct Hsame as [-> | ->].
  - rewrite Hp. by case_decide.
  - intros Hrefresh.
    assert (Action (h1 p) = "refresh") as Ha
      by (by destruct Hsame as [-> | ->]).
    rewrite Hkey by (rewrite Ha; done).
    by destruct Hsame as [-> | ->].
Qed.

(** The loop fails exactly when it meets an action that [rejected] turns
    down; nothing else about the objects can stop it. *)
Lemma actionLoop_inl nk l h t h' e :
  actionLoop nk l h t = (h', inl e) →
  ∃ p, p ∈ l ∧ rejected (Action (h p)) (InstanceName (h p)) = Some e.
Proof.
  revert h t. induction l as [|p l IH]; intros h t H; simpl in H; [done|].
  destruct (actionStep nk h t p) as [h1 [e1|t1]] eqn:Hs.
  - simplify_eq. apply actionStep_inl in Hs as (Hr & _ & _).
    exists p. split; [left | done].
  - pose proof (actionStep_inr _ _ _ _ _ _ Hs) as (_ & -> & _).
    apply IH in H as (q & Hq & Hr). exists q. split; [by right|].
    rewrite afterStep_lookup in Hr. by case_decide.
Qed.

Lemma actionLoop_accepts nk l h t :
  (∀ p, p ∈ l → rejected (Action (h p)) (InstanceName (h p)) = None) →
  ∃ h' t', actionLoop nk l h t = (h', inr t').
Proof.
  intros Hok. destruct (actionLoop nk l h t) as [h' [e|t']] eqn:H; [|eauto].
  apply actionLoop_inl in H as (p & Hp & Hr). rewrite (Hok p Hp) in Hr. done.
Qed.

(** ** The context loop *)

Lemma genInstanceKey_error curSnap salt e :
  genInstanceKey curSnap salt = inl e → e = errSaltNotProvided.
Proof.
  unfold genInstanceKey.
  destruct (SplitInstanceName (cur_InstanceName curSnap)) as [n k].
  repeat case_decide; intros; by simplify_eq.
Qed.

Lemma contextStep_inr salt t curSnap t' :
  contextStep salt t curSnap = inr t' →
  ∃ instanceKey,
    genInstanceKey curSnap salt = inr instanceKey
    ∧ curSnaps t' = <[instanceKey := curSnap]> (curSnaps t)
    ∧ instanceNameToKey t' =
        <[cur_InstanceName curSnap := instanceKey]> (instanceNameToKey t)
    ∧ curSnapJSONs t' = curSnapJSONs t ++ [contextEntry curSnap instanceKey].
Proof.
  unfold contextStep. case_match; [done|]. intros Hs.
  apply bindE_inr in Hs as (k & Hk & Hs). inversion Hs; subst. eauto.
Qed.

Lemma contextStep_inl salt t curSnap e :
  contextStep salt t curSnap = inl e → isInternalError e = true.
Proof.
  unfold contextStep. case_match; [by intros; simplify_eq|].
  destruct (genInstanceKey curSnap salt) as [e'|k] eqn:Hk; simpl; [|done].
  apply genInstanceKey_error in Hk as ->. by intros; simplify_eq.
Qed.

(** A current snap whose key cannot be derived stops the loop: at that
    snap, or at an earlier one that is turned down. *)
Lemma contextLoop_fails salt l t curSnap e :
  curSnap ∈ l → genInstanceKey curSnap salt = inl e →
  ∃ e', foldE (contextStep salt) l t = inl e' ∧ isInternalError e' = true.
Proof.
  intros Hin Hk. revert t.
  induction l as [|x l IH]; intros t; [by inversion Hin|]. simpl.
  destruct (contextStep salt t x) as [e'|t'] eqn:Hs.
  - exists e'. split; [done|]. by eapply contextStep_inl.
  - apply elem_of_cons in Hin as [->|Hin]; [|by apply IH].
    apply contextStep_inr in Hs as (k & Hk' & _). congruence.
Qed.

(** What the tables say after the loop.  The name table points to the key
    of the last current snap with that name, and the context list has the
    entry of every current snap at its own index. *)
Lemma contextLoop_tables salt l ct :
  contextLoop salt l = inr ct →
  length (curSnapJSONs ct) = length l
  ∧ (∀ j cur, l !! j = Some cur →
       ∃ key, genInstanceKey cur salt = inr key
              ∧ curSnapJSONs ct !! j = Some (contextEntry cur key))
  ∧ (∀ name key, instanceNameToKey ct !! name = Some key →
       ∃ j cur, l !! j = Some cur ∧ cur_InstanceName cur = name
                ∧ genInstanceKey cur salt = inr key
                ∧ ∀ j' cur', (j < j')%nat → l !! j' = Some cur' →
                             cur_InstanceName cur' ≠ name)
  ∧ (∀ cur, cur ∈ l → is_Some (instanceNameToKey ct !! cur_InstanceName cur))
  ∧ (∀ key cur, curSnaps ct !! key = Some cur →
       cur ∈ l ∧ genInstanceKey cur salt = inr key).
Proof.
  unfold contextLoop. revert ct.
  induction l as [|x l IH] using rev_ind; intros ct H.
  - simpl in H. simplify_eq. split_and!; try done.
    + intros cur Hin. by inversion Hin.
  - rewrite foldE_app in H.
    destruct (foldE (contextStep salt) l noContext) as [e|t] eqn:Hl; [done|].
    simpl in H. destruct (contextStep salt t x) as [e|t'] eqn:Hs; [done|].
    simplify_eq.
    apply contextStep_inr in Hs as (k & Hk & Hcur & Hname & Hjson).
    destruct (IH t eq_refl) as (Hlen & Hentry & Hlast & Hall & Hsnaps).
    split_and!.
    + rewrite Hjson, !length_app, Hlen. done.
    + intros j cur Hj. rewrite Hjson.
      destruct (decide (j < length l)%nat) as [Hlt|Hge].
      * rewrite lookup_app_l in Hj by done.
        destruct (Hentry j cur Hj) as (key & ? & ?). exists key.
        split; [done|]. rewrite lookup_app_l by lia. done.
      * rewrite lookup_app_r in Hj by lia.
        destruct (j - length l)%nat as [|m] eqn:Hn; [|by destruct m].
        simpl in Hj. simplify_eq. exists k. split; [done|].
        rewrite lookup_app_r by lia. rewrite Hlen, Hn. done.
    + intros name key. rewrite Hname.
      destruct (decide (cur_InstanceName x = name)) as [<-|Hne].
      * rewrite lookup_insert_eq. intros ?; simplify_eq.
        exists (length l), x. split_and!; try done.
        -- rewrite lookup_app_r by lia. by rewrite Nat.sub_diag.
        -- intros j' cur' Hlt Hj'. apply lookup_lt_Some in Hj'.
           rewrite length_app in Hj'. simpl in Hj'. lia.
      * rewrite lookup_insert_ne by done. intros Hkey.
        destruct (Hlast name key Hkey) as (j & cur & Hj & Hn & Hg & Hafter).
        exists j, cur. split_and!; try done.
        -- rewrite lookup_app_l; [done|]. by eapply lookup_lt_Some.
        -- intros j' cur' Hlt Hj'.
           destruct (decide (j' < length l)%nat).
           ++ rewrite lookup_app_l in Hj' by done. by eapply Hafter.
           ++ rewrite lookup_app_r in Hj' by lia.
              destruct (j' - length l)%nat as [|m]; [|by destruct m].
              simpl in Hj'. by simplify_eq.
    + intros cur Hin. rewrite Hname.
      destruct (decide (cur_InstanceName x = cur_InstanceName cur)) as [->|Hne].
      * rewrite lookup_insert_eq. eauto.
      * rewrite lookup_insert_ne by done. apply Hall.
        apply elem_of_app in Hin as [Hin|Hin]; [done|].
        apply list_elem_of_singleton in Hin. by subst.
    + intros key cur. rewrite Hcur.
      destruct (decide (k = key)) as [<-|Hne].
      * rewrite lookup_insert_eq. intros ?; simplify_eq.
        split; [|done]. apply elem_of_app. right. by apply list_elem_of_singleton.
      * rewrite lookup_insert_ne by done. intros Hkey.
        destruct (Hsnaps key cur Hkey). split; [|done].
        apply elem_of_app. by left.
Qed.

(** ** The request *)

Lemma buildRequest_inr cs actions salt h h' ct at_ jsonData :
  buildRequest cs actions salt h = (h', inr (ct, at_, jsonData)) →
  contextLoop salt cs = inr ct
  ∧ actionLoop (instanceNameToKey ct) actions h noActions = (h', inr at_)
  ∧ mapE marshal_currentSnapV2JSON (curSnapJSONs ct)
    = inr (serializedContext jsonData)
  ∧ mapE marshal_snapActionJSON (actionJSONs at_)
    = inr (serializedActions jsonData).
Proof.
  unfold buildRequest. intros H.
  destruct (contextLoop salt cs) as [e|ct'] eqn:Hc; [done|].
  destruct (actionLoop (instanceNameToKey ct') actions h noActions)
    as [h1 [e|at1]] eqn:Ha; [done|].
  destruct (marshal_snapActionRequest _) as [e|j] eqn:Hm; [done|].
  simplify_eq. apply marshal_snapActionRequest_inr in Hm as [? ?]. done.
Qed.

(** The wire entry of the action at index [i], with what the loop copied
    into it. *)
Lemma request_action_entry cs actions salt h h' ct at_ jsonData i p :
  buildRequest cs actions salt h = (h', inr (ct, at_, jsonData)) →
  actions !! i = Some p →
  ∃ aj entry,
    serializedActions jsonData !! i = Some entry
    ∧ marshal_snapActionJSON aj = inr entry
    ∧ aj_Action aj = Action (h p)
    ∧ aj_Name aj = nameOf (h p)
    ∧ aj_Epoch aj = epochOf (h p)
    ∧ aj_IgnoreValidation aj = ignoreValidationOf (Flags (h p))
    ∧ aj_Channel aj =
        (if decide (p ∈ take i actions
                    ∧ Revision_Unset (act_Revision (h p)) = false)
         then "" else Channel (h p))
    ∧ (Action (h p) = "refresh" →
       aj_InstanceKey aj =
         default "" (instanceNameToKey ct !! InstanceName (h p))).
Proof.
  intros H Hi. apply buildRequest_inr in H as (_ & Ha & _ & Hm).
  destruct (actionLoop_entry _ _ _ _ _ _ _ Ha Hi)
    as (_ & aj & Haj & ? & ? & ? & ? & ? & ?).
  destruct (mapE_lookup _ _ _ _ _ Hm Haj) as (entry & ? & ?).
  exists aj, entry. done.
Qed.

(** ** C1: the channel of an action with a set revision *)

(** C1 (amended): for every action whose revision is set, the entry
    serialized into the request carries the channel the action object holds
    when the loop reaches it: the caller's channel, left out only when it
    is empty, unless the same object stood earlier in the action list (then
    it is already cleared and the key is left out).  The object's channel
    is cleared after the copy, so it is empty once the request is built. *)
Theorem serialized_channel_of_pinned_action
    cs actions salt h h' ct at_ jsonData i p :
  buildRequest cs actions salt h = (h', inr (ct, at_, jsonData)) →
  actions !! i = Some p →
  Revision_Unset (act_Revision (h p)) = false →
  ∃ entry,
    serializedActions jsonData !! i = Some entry
    ∧ obj_get "channel" entry =
        (if decide (p ∈ take i actions) then None
         else if decide (Channel (h p) = "") then None
         else Some (JStr (Channel (h p))))
    ∧ Channel (h' p) = "".
Proof.
  intros H Hi Hu.
  destruct (request_action_entry _ _ _ _ _ _ _ _ _ _ H Hi)
    as (aj & entry & Hentry & Hm & _ & _ & _ & _ & Hch & _).
  apply marshal_snapActionJSON_fields in Hm as (_ & _ & _ & Hc & _).
  exists entry. split; [done|]. split.
  - rewrite Hc, Hch. destruct (decide (p ∈ take i actions)).
    + rewrite (decide_True (P := _ ∧ _)) by done. by rewrite decide_True.
    + rewrite (decide_False (P := _ ∧ _)) by (by intros [? _]). done.
  - apply buildRequest_inr in H as (_ & Ha & _).
    rewrite (actionLoop_heap _ _ _ _ _ _ Ha p).
    rewrite decide_True; [done|]. split; [|done].
    by eapply list_elem_of_lookup_2.
Qed.

(** ** C2: the epoch and name keys *)

(** C2 (amended): for every action of kind install or download the
    serialized entry has the epoch key, null when the action's epoch is
    zero and the marshalled epoch otherwise, and it has the name key, set
    to the snap-name component of the instance name, exactly when that
    component is not empty; for every action of kind refresh the entry has
    neither key. *)
Theorem serialized_epoch_and_name cs actions salt h h' ct at_ jsonData i p :
  buildRequest cs actions salt h = (h', inr (ct, at_, jsonData)) →
  actions !! i = Some p →
  ∃ entry,
    serializedActions jsonData !! i = Some entry
    ∧ (Action (h p) = "install" ∨ Action (h p) = "download" →
       (if Epoch_IsZero (act_Epoch (h p))
        then obj_get "epoch" entry = Some JNull
        else ∃ j, Epoch_MarshalJSON (act_Epoch (h p)) = inr j
                  ∧ obj_get "epoch" entry = Some j)
       ∧ obj_get "name" entry =
           (if decide (InstanceSnap (InstanceName (h p)) = "") then None
            else Some (JStr (InstanceSnap (InstanceName (h p))))))
    ∧ (Action (h p) = "refresh" →
       obj_get "epoch" entry = None ∧ obj_get "name" entry = None).
Proof.
  intros H Hi.
  destruct (request_action_entry _ _ _ _ _ _ _ _ _ _ H Hi)
    as (aj & entry & Hentry & Hm & _ & Hname & Hepoch & _).
  apply marshal_snapActionJSON_fields in Hm as (_ & _ & Hn & _ & _ & He).
  rewrite Hname in Hn. rewrite Hepoch in He.
  exists entry. split; [done|]. unfold nameOf, epochOf in *. split.
  - intros Hkind.
    assert (Action (h p) ≠ "refresh") as Hne by (by destruct Hkind as [-> | ->]).
    revert Hn He. destruct (decide (Action (h p) ≠ "refresh")); [|done].
    intros Hn He. split; [|done].
    destruct (Epoch_IsZero (act_Epoch (h p))); simpl in He.
    + destruct (obj_get "epoch" entry); simpl in He; by simplify_eq.
    + apply bindE_inr in He as (j & Hj & He). exists j. split; [done|].
      destruct (obj_get "epoch" entry); simpl in He; by simplify_eq.
  - intros Hkind. revert Hn He.
    destruct (decide (Action (h p) ≠ "refresh")); [done|].
    intros Hn He. split; [|done]. simpl in He.
    destruct (obj_get "epoch" entry); simpl in He; by simplify_eq.
Qed.

(** ** C8: the instance key of a refresh *)

(** C8: for every action of kind refresh the serialized instance key is
    what the instance-name table holds for its instance name, no counter
    being involved.  When some current snap has that instance name, the
    key is the one derived for such a current snap, and it stands verbatim
    in that snap's serialized context entry and in the action's entry.
    The snap in question is the one of that name which no later one of the
    same name follows: the only one when instance names are not repeated
    among the current snaps. *)
Theorem refresh_instance_key_from_context
    cs actions salt h h' ct at_ jsonData i p :
  buildRequest cs actions salt h = (h', inr (ct, at_, jsonData)) →
  actions !! i = Some p →
  Action (h p) = "refresh" →
  let unshadowed j :=
    ∀ j' cur', (j < j')%nat → cs !! j' = Some cur' →
               cur_InstanceName cur' ≠ InstanceName (h p) in
  let keyed entry j cur key :=
    genInstanceKey cur salt = inr key
    ∧ obj_get "instance-key" entry = Some (JStr key)
    ∧ ∃ centry, serializedContext jsonData !! j = Some centry
                ∧ obj_get "instance-key" centry = Some (JStr key) in
  ∃ entry,
    serializedActions jsonData !! i = Some entry
    ∧ obj_get "instance-key" entry =
        Some (JStr (default "" (instanceNameToKey ct !! InstanceName (h p))))
    ∧ ((∃ cur, cur ∈ cs ∧ cur_InstanceName cur = InstanceName (h p)) →
       ∃ j cur key,
         cs !! j = Some cur
         ∧ cur_InstanceName cur = InstanceName (h p)
         ∧ unshadowed j ∧ keyed entry j cur key)
    ∧ (∀ j cur,
         cs !! j = Some cur →
         cur_InstanceName cur = InstanceName (h p) →
         unshadowed j →
         ∃ key, keyed entry j cur key).
Proof.
  intros H Hi Hkind. cbn zeta.
  destruct (request_action_entry _ _ _ _ _ _ _ _ _ _ H Hi)
    as (aj & entry & Hentry & Hm & _ & _ & _ & _ & _ & Hkey).
  apply marshal_snapActionJSON_fields in Hm as (_ & Hk & _).
  rewrite (Hkey Hkind) in Hk.
  exists entry. split_and!; [done..| |].
  - intros (cur0 & Hin & Hname).
    apply buildRequest_inr in H as (Hc & _ & Hmc & _).
    destruct (contextLoop_tables _ _ _ Hc) as (_ & Hjson & Hlast & Hall & _).
    destruct (Hall _ Hin) as [key Hlook]. rewrite Hname in Hlook.
    destruct (Hlast _ _ Hlook) as (j & cur & Hj & Hn & Hg & Hafter).
    destruct (Hjson _ _ Hj) as (key' & Hg' & Hcj).
    assert (key' = key) as -> by congruence.
    destruct (mapE_lookup _ _ _ _ _ Hmc Hcj) as (centry & Hce & Hcl).
    apply marshal_currentSnapV2JSON_key in Hce.
    exists j, cur, key. split_and!; try done.
    + by rewrite Hk, Hlook.
    + by exists centry.
  - intros j cur Hj Hname Hun.
    apply buildRequest_inr in H as (Hc & _ & Hmc & _).
    destruct (contextLoop_tables _ _ _ Hc) as (_ & Hjson & Hlast & Hall & _).
    destruct (Hall cur) as [key Hlook]; [by eapply list_elem_of_lookup_2|].
    rewrite Hname in Hlook.
    destruct (Hlast _ _ Hlook) as (j1 & cur1 & Hj1 & Hn1 & Hg1 & Hafter1).
    assert (j1 = j) as ->.
    { destruct (Nat.lt_trichotomy j1 j) as [Hlt|[?|Hlt]]; [|done|].
      - by destruct (Hafter1 _ _ Hlt Hj).
      - by destruct (Hun _ _ Hlt Hj1). }
    assert (cur1 = cur) as -> by congruence.
    destruct (Hjson _ _ Hj) as (key' & Hg' & Hcj).
    assert (key' = key) as -> by congruence.
    destruct (mapE_lookup _ _ _ _ _ Hmc Hcj) as (centry & Hce & Hcl).
    apply marshal_currentSnapV2JSON_key in Hce.
    exists key. split_and!; try done.
    + by rewrite Hk, Hlook.
    + by exists centry.
Qed.

(** ** The request on the wire *)

Lemma buildRequestOptions_Data opts w jsonData :
  Data (buildRequestOptions opts w jsonData) = jsonData.
Proof.
  unfold buildRequestOptions.
  destruct (IsAutoRefresh opts), (useDeltas w), (RefreshManaged opts); done.
Qed.

(** A call whose request is built sends it, once, and its payload is the
    one [buildRequest] made. *)
Lemma snapAction_sends cs actions opts st h ct at_ jsonData :
  buildRequest cs actions (PrivacyKey opts) (objects st)
  = (h, inr (ct, at_, jsonData)) →
  ∃ req, trace (snapAction cs actions opts st).1
         = trace st ++ [EvSnapAction; EvTransport req]
         ∧ Data req = jsonData.
Proof.
  intros Hb. eexists. split; [|apply buildRequestOptions_Data].
  unfold snapAction. cbn [objects logEvent]. rewrite Hb.
  cbn [world setObjects logEvent].
  destruct (retryRequestDecodeJSON _ _) as [w [e|[resp results]]];
    [|case_decide; [|destruct (resultLoop _ _ _ _)]];
    cbn [trace setWorld setObjects logEvent fst]; by rewrite <-app_assoc.
Qed.

(** ** Flags and failure *)

Lemma sameButFlags_afterStep h1 h2 p :
  heapsButFlags h1 h2 → heapsButFlags (afterStep h1 p) (afterStep h2 p).
Proof.
  intros Hh q. rewrite !afterStep_lookup.
  destruct (Hh q) as (Ha & Hn & Hs & Hc & Hr & Hk & He).
  rewrite <-Hr. case_decide; [|by apply Hh].
  unfold sameButFlags. cbn. done.
Qed.

Lemma sameButFlags_entryOf a b instanceKey :
  sameButFlags a b →
  sameButValidation (entryOf a instanceKey) (entryOf b instanceKey).
Proof.
  intros (Ha & Hn & Hs & Hc & Hr & Hk & He).
  unfold sameButValidation, entryOf, nameOf, epochOf. cbn.
  rewrite Ha, Hn, Hs, Hc, Hr, Hk, He. done.
Qed.

(** One turn on two heaps that differ in flags only: the same failure, or
    two successes that again differ in flags only. *)
Lemma actionStep_flags nk h1 h2 t1 t2 p :
  heapsButFlags h1 h2 → tablesButValidation t1 t2 →
  match actionStep nk h1 t1 p, actionStep nk h2 t2 p with
  | (_, inl e1), (_, inl e2) => e1 = e2
  | (h1', inr t1'), (h2', inr t2') =>
      heapsButFlags h1' h2' ∧ tablesButValidation t1' t2'
  | _, _ => False
  end.
Proof.
  intros Hh (Hd & Hi & Hti & Htd & Htr & Hj).
  pose proof (sameButFlags_afterStep _ _ p Hh) as Hafter.
  pose proof (λ k, sameButFlags_entryOf _ _ k (Hh p)) as Hentry.
  destruct (Hh p) as (Ha & Hn & _).
  rewrite !actionStep_unfold. cbn zeta. rewrite <-Ha, <-Hn, <-Hd, <-Hi.
  destruct (isValidAction (Action (h1 p))); simpl; [|done].
  repeat case_decide; try done.
  all: split; [done|]; unfold tablesButValidation; cbn;
    rewrite ?Hti, ?Htd, ?Htr; split_and!; try done;
    apply Forall2_app; [done|]; by constructor.
Qed.

Lemma actionLoop_flags nk l : ∀ h1 h2 t1 t2,
  heapsButFlags h1 h2 → tablesButValidation t1 t2 →
  match actionLoop nk l h1 t1, actionLoop nk l h2 t2 with
  | (_, inl e1), (_, inl e2) => e1 = e2
  | (_, inr t1'), (_, inr t2') => tablesButValidation t1' t2'
  | _, _ => False
  end.
Proof.
  induction l as [|p l IH]; intros h1 h2 t1 t2 Hh Ht; simpl; [done|].
  pose proof (actionStep_flags nk h1 h2 t1 t2 p Hh Ht) as Hs.
  destruct (actionStep nk h1 t1 p) as [h1' [e1|t1']],
           (actionStep nk h2 t2 p) as [h2' [e2|t2']]; try done.
  destruct Hs. by apply IH.
Qed.

Lemma marshal_snapActionJSON_flags x y :
  sameButValidation x y →
  match marshal_snapActionJSON x, marshal_snapActionJSON y with
  | inl e1, inl e2 => e1 = e2
  | inr _, inr _ => True
  | _, _ => False
  end.
Proof.
  intros (_ & _ & _ & _ & _ & _ & _ & He). unfold marshal_snapActionJSON.
  rewrite He. by destruct (marshal_epochField (aj_Epoch y)).
Qed.

Lemma mapE_marshal_flags l1 l2 :
  Forall2 sameButValidation l1 l2 →
  match mapE marshal_snapActionJSON l1, mapE marshal_snapActionJSON l2 with
  | inl e1, inl e2 => e1 = e2
  | inr _, inr _ => True
  | _, _ => False
  end.
Proof.
  induction 1 as [|x y l1 l2 Hxy _ IH]; simpl; [done|].
  pose proof (marshal_snapActionJSON_flags x y Hxy) as Hm.
  destruct (marshal_snapActionJSON x), (marshal_snapActionJSON y);
    simpl; try done.
  destruct (mapE marshal_snapActionJSON l1),
           (mapE marshal_snapActionJSON l2); simpl; done.
Qed.

(** Whether the request can be built, and the error when it cannot, do
    not depend on the flags of any action. *)
Lemma buildRequest_flags cs actions salt h1 h2 :
  heapsButFlags h1 h2 →
  match (buildRequest cs actions salt h1).2,
        (buildRequest cs actions salt h2).2 with
  | inl e1, inl e2 => e1 = e2
  | inr _, inr _ => True
  | _, _ => False
  end.
Proof.
  intros Hh. unfold buildRequest.
  destruct (contextLoop salt cs) as [e|ct]; [done|].
  assert (tablesButValidation noActions noActions) as Ht
    by (unfold tablesButValidation; split_and!; try done; constructor).
  pose proof (actionLoop_flags (instanceNameToKey ct) actions _ _ _ _ Hh Ht)
    as Hl.
  destruct (actionLoop _ actions h1 _) as [h1' [e1|t1']],
           (actionLoop _ actions h2 _) as [h2' [e2|t2']]; try done.
  destruct Hl as (_ & _ & _ & _ & _ & Hj).
  unfold marshal_snapActionRequest. cbn [req_Context req_Actions req_Fields].
  destruct (mapE marshal_currentSnapV2JSON _); [done|]. simpl.
  pose proof (mapE_marshal_flags _ _ Hj) as Hm.
  destruct (mapE marshal_snapActionJSON (actionJSONs t1')),
           (mapE marshal_snapActionJSON (actionJSONs t2')); simpl;
    [by subst | done..].
Qed.

(** ** C9: the validation flags *)

Lemma buildRequest_inl cs actions salt h h' e :
  buildRequest cs actions salt h = (h', inl e) →
  contextLoop salt cs = inl e
  ∨ (∃ p, p ∈ actions
          ∧ rejected (Action (h p)) (InstanceName (h p)) = Some e)
  ∨ (∃ x, e = errExternal x).
Proof.
  unfold buildRequest. intros H.
  destruct (contextLoop salt cs) as [e'|ct] eqn:Hc; [by simplify_eq; left|].
  destruct (actionLoop (instanceNameToKey ct) actions h noActions)
    as [h1 [e'|at1]] eqn:Ha.
  - simplify_eq. right; left. by eapply actionLoop_inl.
  - destruct (marshal_snapActionRequest _) as [x|j]; [|done].
    simplify_eq. right; right. eauto.
Qed.

(** C9: the two validation flags never make the call fail, together or
    apart: on two heaps whose actions differ in their flags only the
    request is built on both or fails on both with the same error; the
    action loop turns an action down on its kind and instance name alone,
    and a failed build is a context error, such a turned-down action or a
    marshalling error.  In the serialized entry the key ignore-validation
    is true when both flags are set, false when only the enforce flag is,
    and left out when neither is. *)
Theorem validation_flags_tristate cs actions salt h :
  (∀ h2, heapsButFlags h h2 →
     match (buildRequest cs actions salt h).2,
           (buildRequest cs actions salt h2).2 with
     | inl e1, inl e2 => e1 = e2
     | inr _, inr _ => True
     | _, _ => False
     end)
  ∧ (∀ nk t,
     (∀ p, p ∈ actions →
           rejected (Action (h p)) (InstanceName (h p)) = None) →
     ∃ h' t', actionLoop nk actions h t = (h', inr t'))
  ∧ (∀ h' e,
       buildRequest cs actions salt h = (h', inl e) →
       contextLoop salt cs = inl e
       ∨ (∃ p, p ∈ actions
               ∧ rejected (Action (h p)) (InstanceName (h p)) = Some e)
       ∨ (∃ x, e = errExternal x))
  ∧ (∀ h' ct at_ jsonData i p,
       buildRequest cs actions salt h = (h', inr (ct, at_, jsonData)) →
       actions !! i = Some p →
       ∃ entry,
         serializedActions jsonData !! i = Some entry
         ∧ (Z.land (Flags (h p)) SnapActionIgnoreValidation ≠ 0 →
            Z.land (Flags (h p)) SnapActionEnforceValidation ≠ 0 →
            obj_get "ignore-validation" entry = Some (JBool true))
         ∧ (Z.land (Flags (h p)) SnapActionIgnoreValidation = 0 →
            Z.land (Flags (h p)) SnapActionEnforceValidation ≠ 0 →
            obj_get "ignore-validation" entry = Some (JBool false))
         ∧ (Z.land (Flags (h p)) SnapActionIgnoreValidation = 0 →
            Z.land (Flags (h p)) SnapActionEnforceValidation = 0 →
            obj_get "ignore-validation" entry = None)).
Proof.
  split_and!.
  - intros h2. apply buildRequest_flags.
  - intros nk t Hok. by apply actionLoop_accepts.
  - intros h' e. apply buildRequest_inl.
  - intros h' ct at_ jsonData i p H Hi.
    destruct (request_action_entry _ _ _ _ _ _ _ _ _ _ H Hi)
      as (aj & entry & Hentry & Hm & _ & _ & _ & Hiv & _).
    apply marshal_snapActionJSON_fields in Hm as (_ & _ & _ & _ & Hf & _).
    rewrite Hiv in Hf. exists entry. split; [done|].
    unfold ignoreValidationOf in Hf.
    split_and!; intros Hi1 Hi2; rewrite Hf; repeat case_decide; done.
Qed.

(** ** C10: the write to the caller's action *)

(** The tables hold pointers of the action list only. *)
Lemma actionLoop_pointers nk l h t h' t' key p :
  actionLoop nk l h t = (h', inr t') →
  (installs t' !! key = Some p → installs t !! key = Some p ∨ p ∈ l)
  ∧ (downloads t' !! key = Some p → downloads t !! key = Some p ∨ p ∈ l)
  ∧ (refreshes t' !! key = Some p → refreshes t !! key = Some p ∨ p ∈ l).
Proof.
  revert h t. induction l as [|q l IH]; intros h t H; simpl in H.
  - simplify_eq. split_and!; by left.
  - destruct (actionStep nk h t q) as [h1 [e|t1]] eqn:Hs; [done|].
    apply actionStep_inr in Hs as (_ & _ & k & _ & Hin & Hdl & Hrf).
    destruct (IH _ _ H) as (Hi' & Hd' & Hr').
    assert (∀ (m m' : gmap string ptr),
              (m' = m ∨ m' = <[k := q]> m) →
              m' !! key = Some p → m !! key = Some p ∨ p = q) as Hcase.
    { intros m m' [-> | ->]; [by left|].
      destruct (decide (k = key)) as [->|Hne].
      - rewrite lookup_insert_eq. intros; simplify_eq. by right.
      - rewrite lookup_insert_ne by done. by left. }
    assert (installs t1 = installs t ∨ installs t1 = <[k := q]> (installs t))
      as Hti.
    { destruct (decide (Action (h q) = "install")) as [Ha|Ha].
      - right. by apply Hin.
      - left. destruct (decide (Action (h q) = "download")) as [Hb|Hb].
        + by apply Hdl. + by apply Hrf. }
    assert (downloads t1 = downloads t
            ∨ downloads t1 = <[k := q]> (downloads t)) as Htd.
    { destruct (decide (Action (h q) = "install")) as [Ha|Ha].
      - left. by apply Hin.
      - destruct (decide (Action (h q) = "download")) as [Hb|Hb].
        + right. by apply Hdl. + left. by apply Hrf. }
    assert (refreshes t1 = refreshes t
            ∨ refreshes t1 = <[k := q]> (refreshes t)) as Htr.
    { destruct (decide (Action (h q) = "install")) as [Ha|Ha].
      - left. by apply Hin.
      - destruct (decide (Action (h q) = "download")) as [Hb|Hb].
        + left. by apply Hdl. + right. by apply Hrf. }
    split_and!; intros Hlook.
    + destruct (Hi' Hlook) as [Hl|Hl]; [|right; by right].
      destruct (Hcase _ _ Hti Hl) as [?| ->]; [by left | right; left].
    + destruct (Hd' Hlook) as [Hl|Hl]; [|right; by right].
      destruct (Hcase _ _ Htd Hl) as [?| ->]; [by left | right; left].
    + destruct (Hr' Hlook) as [Hl|Hl]; [|right; by right].
      destruct (Hcase _ _ Htr Hl) as [?| ->]; [by left | right; left].
Qed.



Lemma retryLoop_retry fuel n cs actions opts st need :
  wantsRetry n (snapAction cs actions opts st).2 = Some need →
  retryLoop (S fuel) n cs actions opts st
  = retryLoop fuel (S n) cs actions opts
      (setWorld (refreshAuth need (world (snapAction cs actions opts st).1)).1
         (logEvent (EvRefreshAuth need) (snapAction cs actions opts st).1)).
Proof.
  intros H. simpl. destruct (snapAction cs actions opts st) as [st1 r].
  simpl in *. rewrite H. by destruct (refreshAuth need (world st1)).
Qed.

Lemma retryLoop_return fuel n cs actions opts st :
  wantsRetry n (snapAction cs actions opts st).2 = None →
  retryLoop (S fuel) n cs actions opts st
  = Some (snapAction cs actions opts st).
Proof.
  intros H. simpl. destruct (snapAction cs actions opts st) as [st1 r].
  simpl in *. by rewrite H.
Qed.




(** ** C3: the instance key *)

Lemma snapAction_build_fails cs actions opts st h e :
  buildRequest cs actions (PrivacyKey opts) (objects st) = (h, inl e) →
  snapAction cs actions opts st
  = (setObjects h (logEvent EvSnapAction st), fail e).
Proof. intros H. unfold snapAction. cbn [objects logEvent]. by rewrite H. Qed.

(** C3: the key derivation has three outcomes, decided by the instance-key
    part of the instance name and by the salt: the snap id itself when that
    part is empty; the internal error about the missing salt when it is not
    and the salt is empty, and then a call whose current snaps include this
    one returns an internal error after one inner call that never reaches
    the transport; otherwise the snap id, a colon and the unpadded
    base64url encoding of the SHA-256 of snap id, instance key and salt.
    The outcome depends on the snap id, the instance name and the salt
    only. *)
Theorem genInstanceKey_three_outcomes (curSnap : CurrentSnap) (salt : string) :
  let suffix := (SplitInstanceName (cur_InstanceName curSnap)).2 in
  (suffix = "" → genInstanceKey curSnap salt = inr (cur_SnapID curSnap))
  ∧ (suffix ≠ "" → salt = "" →
     genInstanceKey curSnap salt = inl errSaltNotProvided
     ∧ ∀ fuel currentSnaps actions opts st,
         curSnap ∈ currentSnaps →
         PrivacyKey (default noOptions opts) = salt →
         ∃ e, Store_SnapAction (S fuel) currentSnaps actions opts st
              = Some (logEvent EvSnapAction st, ([], Some (PlainErr e)))
              ∧ isInternalError e = true)
  ∧ (suffix ≠ "" → salt ≠ "" →
     genInstanceKey curSnap salt
     = inr (cur_SnapID curSnap +:+ ":" +:+
            RawURLEncoding (SHA256 (cur_SnapID curSnap +:+ suffix +:+ salt))))
  ∧ (∀ other,
       cur_SnapID other = cur_SnapID curSnap →
       cur_InstanceName other = cur_InstanceName curSnap →
       genInstanceKey other salt = genInstanceKey curSnap salt).
Proof.
  cbn zeta. unfold genInstanceKey.
  destruct (SplitInstanceName (cur_InstanceName curSnap)) as [n k] eqn:Hs.
  cbn [snd]. split_and!.
  - intros ->. by rewrite decide_True.
  - intros Hk ->. rewrite decide_False by done. rewrite decide_True by done.
    split; [done|].
    intros fuel currentSnaps actions opts st Hin Hsalt.
    assert (genInstanceKey curSnap "" = inl errSaltNotProvided) as Hgen.
    { unfold genInstanceKey. rewrite Hs, decide_False by done.
      by rewrite decide_True. }
    destruct (contextLoop_fails "" currentSnaps noContext _ _ Hin Hgen)
      as (e & He & Hint).
    exists e. split; [|done]. unfold Store_SnapAction.
    destruct currentSnaps as [|c0 cs]; [by inversion Hin|].
    cbn [length Nat.eqb andb].
    rewrite retryLoop_return.
    + erewrite snapAction_build_fails; [done|].
      unfold buildRequest, contextLoop. by rewrite Hsalt, He.
    + erewrite snapAction_build_fails; [done|].
      unfold buildRequest, contextLoop. by rewrite Hsalt, He.
  - intros Hk Hsalt. by rewrite !decide_False.
  - intros other -> ->. by rewrite Hs.
Qed.

(** ** C4: the composite error *)

(** What the inner call returns once the transport has answered with
    status 200. *)
Lemma snapAction_transported cs actions opts st h ct at_ jsonData w resp results :
  buildRequest cs actions (PrivacyKey opts) (objects st)
  = (h, inr (ct, at_, jsonData)) →
  retryRequestDecodeJSON (buildRequestOptions opts (world st) jsonData) (world st)
  = (w, inr (resp, results)) →
  StatusCode resp = 200 →
  (snapAction cs actions opts st).2
  = match resultLoop h ct at_ (Results results) with
    | inl e => fail e
    | inr c => assemble results c
    end.
Proof.
  intros Hb Ht Hcode. unfold snapAction. cbn [objects logEvent].
  rewrite Hb. cbn [world setObjects logEvent]. rewrite Ht.
  rewrite decide_False by (by intros []).
  by destruct (resultLoop h ct at_ (Results results)).
Qed.

Lemma normalize_spec (m : gmap string err) :
  (m = ∅ → normalize m = None) ∧ (m ≠ ∅ → normalize m = Some m).
Proof.
  unfold normalize. split; intros Hm.
  - subst. by rewrite map_size_empty.
  - rewrite decide_False; [done|]. by rewrite map_size_empty_iff.
Qed.

Lemma assemble_spec results c :
  let other := otherErrors c ++ errorListErrors (ErrorList results) in
  let bad :=
    refreshErrors c ≠ ∅ ∨ installErrors c ≠ ∅ ∨ downloadErrors c ≠ ∅
    ∨ Results results = [] ∨ other ≠ [] in
  (assemble results c).1 = sars c
  ∧ (bad →
     (assemble results c).2
     = Some (CompositeErr
               {| NoResults := (length (Results results) =? 0)%nat;
                  Refresh := normalize (refreshErrors c);
                  Install := normalize (installErrors c);
                  Download := normalize (downloadErrors c);
                  Other := other |}))
  ∧ (¬ bad → (assemble results c).2 = None).
Proof.
  cbn zeta. unfold assemble.
  set (n := (size (refreshErrors c) + size (installErrors c)
             + size (downloadErrors c))%nat).
  set (other := otherErrors c ++ errorListErrors (ErrorList results)).
  destruct (negb (n =? 0)%nat || (length (Results results) =? 0)%nat
            || negb (length other =? 0)%nat) eqn:Hcond.
  - split_and!; [done..|]. intros Hnot. exfalso. apply Hnot.
    apply orb_true_iff in Hcond as [Hcond|Hcond];
      [apply orb_true_iff in Hcond as [Hcond|Hcond]|].
    + apply negb_true_iff, Nat.eqb_neq in Hcond.
      destruct (decide (size (refreshErrors c) = 0%nat)) as [Hr|Hr];
        [|left; by rewrite <-map_size_empty_iff].
      destruct (decide (size (installErrors c) = 0%nat)) as [Hi|Hi];
        [|right; left; by rewrite <-map_size_empty_iff].
      right; right; left. rewrite <-map_size_empty_iff. unfold n in Hcond. lia.
    + apply Nat.eqb_eq in Hcond. do 3 right. left.
      by apply length_zero_iff_nil.
    + apply negb_true_iff, Nat.eqb_neq in Hcond. do 4 right.
      by rewrite <-length_zero_iff_nil.
  - apply orb_false_iff in Hcond as [Hcond Ho].
    apply orb_false_iff in Hcond as [Hn Hr].
    apply negb_false_iff, Nat.eqb_eq in Hn, Ho. apply Nat.eqb_neq in Hr.
    split_and!; [done| |done].
    intros [H|[H|[H|[H|H]]]]; exfalso.
    + apply H, map_size_empty_iff. unfold n in Hn. lia.
    + apply H, map_size_empty_iff. unfold n in Hn. lia.
    + apply H, map_size_empty_iff. unfold n in Hn. lia.
    + apply Hr. by rewrite H.
    + apply H. by apply length_zero_iff_nil.
Qed.

(** C4 (amended): with no current snaps and no actions the call returns
    no results and the composite error that has only [NoResults] set,
    leaving the state as it was: no inner call, no transport.  After an
    inner call whose transport answered 200 and whose walk over the results
    completed, the composite error is returned, with the successes, exactly
    when a refresh, install or download bucket is not empty, or the server
    sent no result, or the Other list (orphans followed by the translated
    error-list entries) is not empty; otherwise the successes come back
    with no error.  An error list that is not empty always gives the
    composite error, with an Other list that is not empty.  In the
    composite error [NoResults] says whether the results list was empty,
    and an empty bucket is nil.  An inner call whose walk over the results
    fails, whose transport fails or whose answer has another status
    returns no results and that plain error, whatever the buckets hold. *)
Theorem composite_error_assembly :
  (∀ fuel opts st,
     Store_SnapAction fuel [] [] opts st
     = Some (st, ([], Some (CompositeErr
                              {| NoResults := true; Refresh := None;
                                 Install := None; Download := None;
                                 Other := [] |}))))
  ∧ (∀ cs actions opts st h ct at_ jsonData w resp results c,
       buildRequest cs actions (PrivacyKey opts) (objects st)
       = (h, inr (ct, at_, jsonData)) →
       retryRequestDecodeJSON
         (buildRequestOptions opts (world st) jsonData) (world st)
       = (w, inr (resp, results)) →
       StatusCode resp = 200 →
       resultLoop h ct at_ (Results results) = inr c →
       let listed :=
         (λ errObj, translateSnapActionError "" ""
                      (el_Code errObj) (el_Message errObj) [])
         <$> ErrorList results in
       let other := otherErrors c ++ listed in
       let bad :=
         refreshErrors c ≠ ∅ ∨ installErrors c ≠ ∅ ∨ downloadErrors c ≠ ∅
         ∨ Results results = [] ∨ other ≠ [] in
       let r := (snapAction cs actions opts st).2 in
       r.1 = sars c
       ∧ ((∃ saErr, r.2 = Some (CompositeErr saErr)) ↔ bad)
       ∧ (¬ bad → r.2 = None)
       ∧ (ErrorList results ≠ [] →
          ∃ saErr, r.2 = Some (CompositeErr saErr) ∧ Other saErr ≠ []
                   ∧ length (Other saErr)
                     = (length (otherErrors c)
                        + length (ErrorList results))%nat)
       ∧ (∀ saErr, r.2 = Some (CompositeErr saErr) →
            (NoResults saErr = true ↔ Results results = [])
            ∧ Other saErr = other
            ∧ (refreshErrors c = ∅ → Refresh saErr = None)
            ∧ (refreshErrors c ≠ ∅ → Refresh saErr = Some (refreshErrors c))
            ∧ (installErrors c = ∅ → Install saErr = None)
            ∧ (installErrors c ≠ ∅ → Install saErr = Some (installErrors c))
            ∧ (downloadErrors c = ∅ → Download saErr = None)
            ∧ (downloadErrors c ≠ ∅ →
               Download saErr = Some (downloadErrors c))))
  ∧ (∀ cs actions opts st h ct at_ jsonData w resp results e,
       buildRequest cs actions (PrivacyKey opts) (objects st)
       = (h, inr (ct, at_, jsonData)) →
       retryRequestDecodeJSON
         (buildRequestOptions opts (world st) jsonData) (world st)
       = (w, inr (resp, results)) →
       StatusCode resp = 200 →
       resultLoop h ct at_ (Results results) = inl e →
       (snapAction cs actions opts st).2 = ([], Some (PlainErr e)))
  ∧ (∀ cs actions opts st h ct at_ jsonData w answer,
       buildRequest cs actions (PrivacyKey opts) (objects st)
       = (h, inr (ct, at_, jsonData)) →
       retryRequestDecodeJSON
         (buildRequestOptions opts (world st) jsonData) (world st)
       = (w, answer) →
       match answer with
       | inl e =>
           (snapAction cs actions opts st).2
           = ([], Some (PlainErr (errExternal e)))
       | inr (resp, _) =>
           StatusCode resp ≠ 200 →
           (snapAction cs actions opts st).2
           = ([], Some (PlainErr
                          (errExternal
                             (respToError resp
                                "query the store for updates"))))
       end).
Proof.
  split; [done|]. split_and!.
  2: { intros cs actions opts st h ct at_ jsonData w resp results e
         Hb Ht Hcode Hl.
       rewrite (snapAction_transported _ _ _ _ _ _ _ _ _ _ _ Hb Ht Hcode).
       by rewrite Hl. }
  2: { intros cs actions opts st h ct at_ jsonData w answer Hb Ht.
       unfold snapAction. cbn [objects logEvent]. rewrite Hb.
       cbn [world setObjects logEvent]. rewrite Ht.
       destruct answer as [e|[resp results]]; [done|].
       intros Hcode. by rewrite decide_True. }
  intros cs actions opts st h ct at_ jsonData w resp results c Hb Ht Hcode Hl.
  cbn zeta. rewrite (snapAction_transported _ _ _ _ _ _ _ _ _ _ _ Hb Ht Hcode).
  rewrite Hl. destruct (assemble_spec results c) as (Hs & Hbad & Hgood).
  cbn zeta in Hbad, Hgood. unfold errorListErrors in Hbad, Hgood.
  split_and!; [done| |done| |].
  - split.
    + intros [saErr Hsa]. apply dec_stable. intros Hn.
      rewrite (Hgood Hn) in Hsa. done.
    + intros Hb'. eexists. by apply Hbad.
  - intros Hne.
    assert (otherErrors c
            ++ ((λ errObj, translateSnapActionError "" ""
                             (el_Code errObj) (el_Message errObj) [])
                <$> ErrorList results) ≠ []) as Hother.
    { destruct (ErrorList results); [done|].
      rewrite fmap_cons. intros Happ. by apply app_eq_nil in Happ as [_ ?]. }
    eexists. split; [apply Hbad; by do 4 right|]. cbn.
    split; [done|]. by rewrite length_app, length_fmap.
  - intros saErr Hsa.
    assert (refreshErrors c ≠ ∅ ∨ installErrors c ≠ ∅ ∨ downloadErrors c ≠ ∅
            ∨ Results results = []
            ∨ otherErrors c
              ++ ((λ errObj, translateSnapActionError "" ""
                               (el_Code errObj) (el_Message errObj) [])
                  <$> ErrorList results) ≠ [])
      as Hb'.
    { apply dec_stable. intros Hn. rewrite (Hgood Hn) in Hsa. done. }
    rewrite (Hbad Hb') in Hsa. simplify_eq. cbn.
    split_and!; try done; try apply normalize_spec.
    rewrite Nat.eqb_eq. apply length_zero_iff_nil.
Qed.

(** ** C5: the auth-refresh loop *)

Lemma count_app f (l1 l2 : list event) :
  count f (l1 ++ l2) = (count f l1 + count f l2)%nat.
Proof. induction l1 as [|e l1 IH]; simpl; [done | rewrite IH; lia]. Qed.

(** One inner call logs its entry and at most one transport request. *)
Lemma snapAction_trace cs actions opts st :
  ∃ new, trace (snapAction cs actions opts st).1 = trace st ++ new
         ∧ count isSnapAction new = 1%nat
         ∧ count isRefreshAuth new = 0%nat
         ∧ (count isTransport new ≤ 1)%nat.
Proof.
  unfold snapAction. cbn [objects logEvent].
  destruct (buildRequest cs actions (PrivacyKey opts) (objects st))
    as [h [e|[[ct at_] jsonData]]].
  { exists [EvSnapAction]. split_and!; [done..|]. cbn. lia. }
  cbn [world setObjects logEvent].
  destruct (retryRequestDecodeJSON _ _) as [w [e|[resp results]]].
  { eexists [EvSnapAction; EvTransport _].
    cbn [trace setWorld setObjects logEvent fst].
    rewrite <-app_assoc. split_and!; [done..|]. cbn. lia. }
  eexists [EvSnapAction; EvTransport _].
  case_decide; [|destruct (resultLoop _ _ _ _)];
    cbn [trace setWorld setObjects logEvent fst]; rewrite <-app_assoc;
    (split_and!; [done..|]; cbn; lia).
Qed.

Lemma refreshNeedOf_fold (l : list err) rn :
  (need_user (fold_left noteRefreshNeed l rn) = true ↔
   need_user rn = true ∨ errUserAuthorizationNeedsRefresh ∈ l)
  ∧ (need_device (fold_left noteRefreshNeed l rn) = true ↔
     need_device rn = true ∨ errDeviceAuthorizationNeedsRefresh ∈ l).
Proof.
  revert rn. induction l as [|e l IH]; intros rn; simpl.
  - split; (split; [by left | intros [?|Hin]; [done | by inversion Hin]]).
  - destruct (IH (noteRefreshNeed rn e)) as [IHu IHd].
    rewrite IHu, IHd, !elem_of_cons. clear IH IHu IHd.
    destruct e; simpl; split; split; intros H;
      repeat match goal with
             | H : _ ∨ _ |- _ => destruct H
             end; simplify_eq; eauto.
Qed.

(** When the loop goes round again. *)
Lemma wantsRetry_Some n (r : result) need :
  wantsRetry n r = Some need ↔
  ∃ saErr, r.2 = Some (CompositeErr saErr)
           ∧ (n < 2)%nat
           ∧ (errUserAuthorizationNeedsRefresh ∈ Other saErr
              ∨ errDeviceAuthorizationNeedsRefresh ∈ Other saErr)
           ∧ need = refreshNeedOf (Other saErr).
Proof.
  unfold wantsRetry.
  assert (∀ l : list err,
            needed (refreshNeedOf l) = true ↔
            errUserAuthorizationNeedsRefresh ∈ l
            ∨ errDeviceAuthorizationNeedsRefresh ∈ l) as Hneeded.
  { intros l. unfold needed, refreshNeedOf. rewrite orb_true_iff.
    destruct (refreshNeedOf_fold l
                {| need_device := false; need_user := false |}) as [-> ->].
    simpl. intuition discriminate. }
  destruct r as [sars0 [[saErr|e]|]]; simpl.
  2,3: split; [done | by intros (? & ? & _)].
  destruct (n <? 2)%nat eqn:Hn; simpl.
  2: { split; [done|]. intros (? & ? & Hlt & _).
       apply Nat.ltb_ge in Hn. lia. }
  apply Nat.ltb_lt in Hn.
  destruct (0 <? length (Other saErr))%nat eqn:Hlen.
  - destruct (needed (refreshNeedOf (Other saErr))) eqn:Hnd.
    + apply Hneeded in Hnd. split.
      * intros ?; simplify_eq. eauto 10.
      * intros (? & ? & _ & _ & ->). by simplify_eq.
    + split; [done|]. intros (? & ? & _ & Hin & _). simplify_eq.
      apply Hneeded in Hin. congruence.
  - split; [done|]. intros (? & ? & _ & Hin & _). simplify_eq.
    apply Nat.ltb_ge in Hlen.
    destruct (Other x) as [|e0 l0]; [|simpl in Hlen; lia].
    destruct Hin as [Hin|Hin]; by inversion Hin.
Qed.

(** The loop returns, and within [k + 1] turns when at most [k] refreshes
    are left. *)
Lemma retryLoop_total k : ∀ n fuel cs actions opts st,
  (2 - n ≤ k)%nat → (k < fuel)%nat →
  ∃ st' r new,
    retryLoop fuel n cs actions opts st = Some (st', r)
    ∧ trace st' = trace st ++ new
    ∧ (count isRefreshAuth new ≤ k)%nat
    ∧ (count isSnapAction new ≤ S k)%nat
    ∧ (count isTransport new ≤ S k)%nat.
Proof.
  induction k as [|k IH]; intros n fuel cs actions opts st Hn Hfuel.
  - destruct fuel as [|fuel]; [lia|].
    rewrite retryLoop_return.
    + destruct (snapAction_trace cs actions opts st) as (new & ? & ? & ? & ?).
      destruct (snapAction cs actions opts st) as [st1 r] eqn:Hs.
      exists st1, r, new. split_and!; [done | done | lia..].
    + destruct (wantsRetry n _) as [need|] eqn:Hw; [|done].
      apply wantsRetry_Some in Hw as (? & _ & ? & _). lia.
  - destruct fuel as [|fuel]; [lia|].
    destruct (snapAction_trace cs actions opts st)
      as (new & Htr & Hc1 & Hc2 & Hc3).
    destruct (wantsRetry n (snapAction cs actions opts st).2) as [need|] eqn:Hw.
    + rewrite (retryLoop_retry _ _ _ _ _ _ _ Hw).
      apply wantsRetry_Some in Hw as (_ & _ & Hlt & _).
      edestruct (IH (S n) fuel cs actions opts) as (st' & r & new' & -> & Ht & ?);
        [lia | lia |].
      exists st', r, (new ++ EvRefreshAuth need :: new').
      split; [done|]. cbn [trace setWorld logEvent] in Ht.
      rewrite Ht, Htr, <-!app_assoc. split; [done|].
      rewrite !count_app, Hc1, Hc2.
      change (EvRefreshAuth need :: new') with ([EvRefreshAuth need] ++ new').
      rewrite !count_app. cbn. lia.
    + rewrite (retryLoop_return _ _ _ _ _ _ Hw).
      destruct (snapAction cs actions opts st) as [st1 r] eqn:Hs.
      exists st1, r, new. split_and!; [done | done | lia..].
Qed.

(** More fuel than needed changes nothing. *)
Lemma retryLoop_fuel fuel : ∀ n cs actions opts st x extra,
  retryLoop fuel n cs actions opts st = Some x →
  retryLoop (fuel + extra) n cs actions opts st = Some x.
Proof.
  induction fuel as [|fuel IH]; intros n cs actions opts st x extra H;
    [done|].
  simpl in *. destruct (snapAction cs actions opts st) as [st1 r].
  destruct (wantsRetry n r) as [need|]; [|done].
  destruct (refreshAuth need (world st1)) as [w o]. by apply IH.
Qed.

(** What the loop returns is what its last inner call returned. *)
Lemma retryLoop_result fuel : ∀ n cs actions opts st x,
  retryLoop fuel n cs actions opts st = Some x →
  ∃ st0, snapAction cs actions opts st0 = x.
Proof.
  induction fuel as [|fuel IH]; intros n cs actions opts st x H; [done|].
  simpl in H. destruct (snapAction cs actions opts st) as [st1 r] eqn:Hs.
  destruct (wantsRetry n r) as [need|].
  - destruct (refreshAuth need (world st1)) as [w o]. by eapply IH.
  - simplify_eq. eauto.
Qed.

(** C5: the auth-refresh loop always returns: three turns are enough for
    every course the inner calls can take, and in all it makes at most two
    auth-refresh attempts and three inner calls (at most three transport
    requests).  The loop goes round again only when the inner call gave a
    composite error whose Other list holds one of the two sentinels while
    fewer than two rounds were spent; then it calls the refresh primitive
    for the axes found, drops its error and goes on; in every other case
    it returns the inner call's result as it is. *)
Theorem auth_refresh_loop_bounded cs actions opts st :
  (∀ fuel, (3 ≤ fuel)%nat →
     ∃ st' r new,
       Store_SnapAction fuel cs actions opts st = Some (st', r)
       ∧ Store_SnapAction 3 cs actions opts st = Some (st', r)
       ∧ trace st' = trace st ++ new
       ∧ (count isRefreshAuth new ≤ 2)%nat
       ∧ (count isSnapAction new ≤ 3)%nat
       ∧ (count isTransport new ≤ 3)%nat)
  ∧ (∀ n r need,
       wantsRetry n r = Some need ↔
       ∃ saErr, r.2 = Some (CompositeErr saErr)
                ∧ (n < 2)%nat
                ∧ (errUserAuthorizationNeedsRefresh ∈ Other saErr
                   ∨ errDeviceAuthorizationNeedsRefresh ∈ Other saErr)
                ∧ need = refreshNeedOf (Other saErr))
  ∧ (∀ l : list err,
       (need_user (refreshNeedOf l) = true
        ↔ errUserAuthorizationNeedsRefresh ∈ l)
       ∧ (need_device (refreshNeedOf l) = true
          ↔ errDeviceAuthorizationNeedsRefresh ∈ l))
  ∧ (∀ fuel n need w o,
       let st1 := (snapAction cs actions (default noOptions opts) st).1 in
       wantsRetry n (snapAction cs actions (default noOptions opts) st).2
       = Some need →
       refreshAuth need (world st1) = (w, o) →
       retryLoop (S fuel) n cs actions (default noOptions opts) st
       = retryLoop fuel (S n) cs actions (default noOptions opts)
           (setWorld w (logEvent (EvRefreshAuth need) st1)))
  ∧ (∀ fuel n,
       wantsRetry n (snapAction cs actions (default noOptions opts) st).2
       = None →
       retryLoop (S fuel) n cs actions (default noOptions opts) st
       = Some (snapAction cs actions (default noOptions opts) st))
  ∧ (∀ fuel n x,
       retryLoop fuel n cs actions (default noOptions opts) st = Some x →
       ∃ st0, snapAction cs actions (default noOptions opts) st0 = x).
Proof.
  split_and!; [..|intros fuel n x; apply retryLoop_result].
  - intros fuel Hfuel. unfold Store_SnapAction.
    destruct ((length cs =? 0)%nat && (length actions =? 0)%nat).
    { exists st, ([], Some noResultsError), []. rewrite app_nil_r.
      split_and!; [done..| | |]; cbn; lia. }
    destruct (retryLoop_total 2 0 3 cs actions (default noOptions opts) st)
      as (st' & r & new & H3 & ?); [lia..|].
    exists st', r, new. split; [|done].
    replace fuel with (3 + (fuel - 3))%nat by lia.
    by apply retryLoop_fuel.
  - apply wantsRetry_Some.
  - intros l. unfold refreshNeedOf.
    destruct (refreshNeedOf_fold l
                {| need_device := false; need_user := false |}) as [-> ->].
    simpl. intuition discriminate.
  - intros fuel n need w o st1 Hw Hr.
    rewrite (retryLoop_retry _ _ _ _ _ _ _ Hw). fold st1. by rewrite Hr.
  - intros fuel n Hw. by apply retryLoop_return.
Qed.

(** ** C6: a refresh result that brings nothing new *)

Lemma findRev_elem_of needle haystack :
  findRev needle haystack = true ↔ needle ∈ haystack.
Proof.
  induction haystack as [|r l IH]; simpl.
  - split; [done | by intros H; inversion H].
  - rewrite elem_of_cons. case_decide; [by split; eauto|].
    rewrite IH. split; [by right | by intros [?|?]].
Qed.

(** Every error that ends the walk over the results is an invalid-response
    error. *)
Lemma resultStep_inl h ct at_ c res e :
  resultStep h ct at_ c res = inl e → isInvalidResponse e = true.
Proof.
  unfold resultStep, keepResult. intros H.
  repeat (case_match; simplify_eq; try done).
Qed.



(** ** C7: where an error result is recorded *)


End Properties.

(** * The resolver at work on the concrete store *)

Section Examples.
Import Demo Scenes.

(** C1, counterexample: an install pinned to revision 7 whose caller also
    names the channel "stable" goes on the wire with that channel. *)
Lemma pinned_action_is_sent_with_its_channel :
  Revision_Unset (act_Revision pinned) = false
  ∧ Channel pinned = "stable"
  ∧ ∃ st' r req entry,
      snapAction [] [0%nat] salted (start [pinned] []) = (st', r)
      ∧ trace st' = [EvSnapAction; EvTransport req]
      ∧ serializedActions (Data req) = [entry]
      ∧ obj_get "revision" entry = Some (JNum 7)
      ∧ obj_get "channel" entry = Some (JStr "stable").
Proof.
  split_and!; [reflexivity..|].
  do 4 eexists. split_and!; vm_compute; reflexivity.
Qed.

Lemma serialized_channel_of_pinned_action_witness :
  ∃ entry,
    serializedActions (built pinnedBuild).2 !! 0%nat = Some entry
    ∧ obj_get "channel" entry = Some (JStr "stable")
    ∧ Channel (pinnedBuild.1 0%nat) = "".
Proof.
  destruct (serialized_channel_of_pinned_action
              [] [0%nat] "salt" (heapOf [pinned]) pinnedBuild.1
              (built pinnedBuild).1.1 (built pinnedBuild).1.2
              (built pinnedBuild).2 0%nat 0%nat)
    as (entry & H1 & H2 & H3);
    [vm_compute; reflexivity | reflexivity | reflexivity |].
  exists entry. split_and!; [exact H1 | exact H2 | exact H3].
Defined.

(** C2, counterexample: an install whose instance name is "_x" goes on
    the wire with the epoch key and without the name key. *)
Lemma install_without_snap_name_has_no_name_key :
  Action nameless = "install"
  ∧ InstanceName nameless = "_x"
  ∧ ∃ st' r req entry,
      snapAction [] [0%nat] salted (start [nameless] []) = (st', r)
      ∧ trace st' = [EvSnapAction; EvTransport req]
      ∧ serializedActions (Data req) = [entry]
      ∧ obj_get "epoch" entry = Some JNull
      ∧ obj_get "name" entry = None.
Proof.
  split_and!; [reflexivity..|].
  do 4 eexists. split_and!; vm_compute; reflexivity.
Qed.

Lemma serialized_epoch_and_name_witness :
  ∃ entry,
    serializedActions (built mixedBuild).2 !! 0%nat = Some entry
    ∧ obj_get "epoch" entry = Some JNull
    ∧ obj_get "name" entry = Some (JStr "core").
Proof.
  destruct (serialized_epoch_and_name
              [helloDev] [0%nat; 1%nat] "salt" (heapOf mixed) mixedBuild.1
              (built mixedBuild).1.1 (built mixedBuild).1.2
              (built mixedBuild).2 0%nat 0%nat)
    as (entry & H1 & H2 & _); [vm_compute; reflexivity | reflexivity |].
  destruct (H2 (or_introl eq_refl)) as [He Hn].
  exists entry. split_and!; [exact H1 | exact He | exact Hn].
Defined.

Lemma refresh_instance_key_from_context_witness :
  genInstanceKey helloDev "salt" = inr helloDevKey
  ∧ ∃ entry centry,
      serializedActions (built mixedBuild).2 !! 1%nat = Some entry
      ∧ obj_get "instance-key" entry = Some (JStr helloDevKey)
      ∧ serializedContext (built mixedBuild).2 !! 0%nat = Some centry
      ∧ obj_get "instance-key" centry = Some (JStr helloDevKey).
Proof.
  split; [reflexivity|].
  destruct (refresh_instance_key_from_context
              [helloDev] [0%nat; 1%nat] "salt" (heapOf mixed) mixedBuild.1
              (built mixedBuild).1.1 (built mixedBuild).1.2
              (built mixedBuild).2 1%nat 1%nat)
    as (entry & H1 & _ & _ & H2);
    [vm_compute; reflexivity | reflexivity | reflexivity |].
  destruct (H2 0%nat helloDev) as (key & Hg & Hk & centry & Hc & Hck);
    [reflexivity | reflexivity | |].
  { intros j' cur' Hlt Hj'. destruct j' as [|[|j']]; [lia | done | done]. }
  assert (key = helloDevKey) as ->.
  { assert (genInstanceKey helloDev "salt" = inr helloDevKey) as Hg'
      by reflexivity.
    rewrite Hg' in Hg. by injection Hg. }
  exists entry, centry. split_and!; [exact H1 | exact Hk | exact Hc | exact Hck].
Defined.

Lemma genInstanceKey_three_outcomes_witness :
  genInstanceKey helloDev "salt" = inr helloDevKey
  ∧ genInstanceKey helloDev "" = inl errSaltNotProvided
  ∧ genInstanceKey hello "" = inr "abc".
Proof.
  split_and!.
  - destruct (genInstanceKey_three_outcomes helloDev "salt") as (_ & _ & H & _).
    apply H; vm_compute; discriminate.
  - destruct (genInstanceKey_three_outcomes helloDev "") as (_ & H & _).
    apply H; [vm_compute; discriminate | reflexivity].
  - destruct (genInstanceKey_three_outcomes hello "") as (H & _).
    apply H. reflexivity.
Defined.

(** C4, counterexample: the transport answers 200 with one result, an
    install under a key the request never used.  No bucket is filled, the
    results list is not empty and there is no error list, and the call
    returns neither the results with no error nor a composite error, but
    no results and a plain error. *)
Lemma uncorrelated_result_gives_a_plain_error :
  res_Result strayInstall ≠ "error"
  ∧ ∃ st' req,
      snapAction [hello] [0%nat] salted
        (start [plainRefresh] [answer [strayInstall] []])
      = (st', ([], Some (PlainErr (errUnexpectedInstanceKey "install-9"))))
      ∧ trace st' = [EvSnapAction; EvTransport req]
      ∧ snd <$> Store_SnapAction 3 [hello] [0%nat] (Some salted)
                  (start [plainRefresh] [answer [strayInstall] []])
        = Some ([], Some (PlainErr (errUnexpectedInstanceKey "install-9"))).
Proof.
  split; [discriminate|].
  do 2 eexists. split_and!; vm_compute; reflexivity.
Qed.

(** The call of scenario S2: one refresh, answered with the current
    revision. *)
Lemma composite_error_assembly_witness :
  ∃ saErr,
    (snapAction [hello] [0%nat] salted noUpdate).2
    = ([], Some (CompositeErr saErr))
    ∧ NoResults saErr = false
    ∧ Refresh saErr = Some {[ "hello" := ErrNoUpdateAvailable ]}
    ∧ Install saErr = None ∧ Download saErr = None ∧ Other saErr = [].
Proof.
  destruct composite_error_assembly as (_ & H & _).
  specialize (H [hello] [0%nat] salted noUpdate noUpdateBuild.1
                (built noUpdateBuild).1.1 (built noUpdateBuild).1.2
                (built noUpdateBuild).2 [] 200
                {| Results := [sameRevision]; ErrorList := [] |}
                (setRefreshError "hello" ErrNoUpdateAvailable noCorrelation)).
  destruct H as (Hsars & [_ Hbad] & _ & _ & Hshape);
    [vm_compute; reflexivity | reflexivity | reflexivity
    | vm_compute; reflexivity |].
  destruct Hbad as [saErr Hsa].
  { left. cbn. apply insert_non_empty. }
  destruct (Hshape saErr Hsa) as (_ & Ho & _ & Hr & Hi & _ & Hd & _).
  exists saErr. split_and!.
  - destruct (snapAction [hello] [0%nat] salted noUpdate).2 as [l o].
    cbn in *. by rewrite Hsars, Hsa.
  - destruct (NoResults saErr) eqn:Hn; [|done].
    by apply (Hshape saErr Hsa) in Hn.
  - rewrite Hr; [done|]. cbn. apply insert_non_empty.
  - by apply Hi.
  - by apply Hd.
  - exact Ho.
Defined.

(** A call whose first answer asks for a token refresh: two inner calls,
    one refresh attempt, which fails and is ignored. *)
Lemma auth_refresh_loop_bounded_witness :
  ∃ st' r new,
    Store_SnapAction 5 [hello] [0%nat] (Some salted)
      (start [pinnedRefresh] softExpiry) = Some (st', r)
    ∧ Store_SnapAction 3 [hello] [0%nat] (Some salted)
        (start [pinnedRefresh] softExpiry) = Some (st', r)
    ∧ trace st' = trace (start [pinnedRefresh] softExpiry) ++ new
    ∧ (count isRefreshAuth new ≤ 2)%nat
    ∧ (count isSnapAction new ≤ 3)%nat
    ∧ (count isTransport new ≤ 3)%nat.
Proof.
  destruct (auth_refresh_loop_bounded [hello] [0%nat] (Some salted)
              (start [pinnedRefresh] softExpiry)) as [H _].
  apply (H 5%nat). repeat constructor.
Defined.




Lemma validation_flags_tristate_witness :
  Flags (heapOf mixed 1%nat) = 3
  ∧ ∃ entry,
      serializedActions (built mixedBuild).2 !! 1%nat = Some entry
      ∧ obj_get "ignore-validation" entry = Some (JBool true).
Proof.
  split; [reflexivity|].
  destruct (validation_flags_tristate [helloDev] [0%nat; 1%nat] "salt"
              (heapOf mixed)) as (_ & _ & _ & H).
  destruct (H mixedBuild.1 (built mixedBuild).1.1 (built mixedBuild).1.2
              (built mixedBuild).2 1%nat 1%nat)
    as (entry & H1 & H2 & _); [vm_compute; reflexivity | reflexivity |].
  exists entry. split; [exact H1|]. apply H2; discriminate.
Defined.



(** The whole call of that example: the first request carries channel
    "edge" beside revision 12, the retry leaves the channel out, and the
    refresh error is translated with an empty channel. *)
Example pinned_refresh_retried :
  ∃ st' req1 need req2 entry1 entry2,
    Store_SnapAction 3 [hello] [0%nat] (Some salted)
      (start [pinnedRefresh] softExpiry)
    = Some (st',
            ([], Some (CompositeErr
                         {| NoResults := false;
                            Refresh :=
                              Some {[ "hello" :=
                                        demoTranslate "refresh" ""
                                          "revision-not-found" "msg" [] ]};
                            Install := None; Download := None;
                            Other := [] |})))
    ∧ trace st' = [EvSnapAction; EvTransport req1; EvRefreshAuth need;
                   EvSnapAction; EvTransport req2]
    ∧ serializedActions (Data req1) = [entry1]
    ∧ obj_get "channel" entry1 = Some (JStr "edge")
    ∧ serializedActions (Data req2) = [entry2]
    ∧ obj_get "channel" entry2 = None
    ∧ Channel (objects st' 0%nat) = "".
Proof. do 6 eexists. split_and!; vm_compute; reflexivity. Qed.

(** Scenario S1 of the specification: one new snap is installed. *)
Example install_one_new_snap :
  ∃ st' req entry info,
    Store_SnapAction 3 [] [0%nat] (Some salted)
      (start [mkAction "install" "hello" "stable" 0 0]
             [answer [mkResult "install" "install-1" "hello" 10 ""] []])
    = Some (st', ([{| sar_Info := info; RedirectChannel := "" |}], None))
    ∧ trace st' = [EvSnapAction; EvTransport req]
    ∧ serializedContext (Data req) = []
    ∧ serializedActions (Data req) = [entry]
    ∧ entry = [("action", JStr "install"); ("instance-key", JStr "install-1");
               ("name", JStr "hello"); ("channel", JStr "stable");
               ("epoch", JNull)]
    ∧ info = {| di_Revision := 10; di_Channel := "stable";
                di_InstanceKey := "" |}.
Proof. do 4 eexists. split_and!; vm_compute; reflexivity. Qed.

(** Scenarios S2 and S3: a refresh answered with the current revision, or
    with a blocked one, is no update. *)
Example refresh_with_no_update :
  ∀ rev, rev = 10 ∨ rev = 11 →
    snd <$> Store_SnapAction 3 [hello] [0%nat] (Some salted)
              (start [plainRefresh]
                     [answer [mkResult "refresh" "abc" "hello" rev ""] []])
    = Some ([], Some (CompositeErr
                        {| NoResults := false;
                           Refresh := Some {[ "hello" := ErrNoUpdateAvailable ]};
                           Install := None; Download := None;
                           Other := [] |})).
Proof. intros rev [-> | ->]; vm_compute; reflexivity. Qed.

(** Scenario S6: two installs, a refresh and a download; the refresh on
    channel "edge" fails, the other three succeed. *)
Example mixed_batch :
  ∃ st' r saErr,
    Store_SnapAction 3 [hello] [0%nat; 1%nat; 2%nat; 3%nat] (Some salted)
      (start [mkAction "install" "one" "stable" 0 0;
              mkAction "install" "two_dev" "stable" 0 0;
              mkAction "refresh" "hello" "edge" 0 0;
              mkAction "download" "three" "stable" 0 0]
             [answer [mkResult "install" "install-1" "one" 1 "";
                      mkResult "install" "install-2" "two" 2 "";
                      mkErrorResult "abc" "hello" "snap-channel-not-available";
                      mkResult "download" "download-1" "three" 3 ""] []])
    = Some (st', (r, Some (CompositeErr saErr)))
    ∧ di_InstanceKey ∘ sar_Info <$> r = [""; "dev"; ""]
    ∧ Refresh saErr
      = Some {[ "hello" := demoTranslate "refresh" "edge"
                             "snap-channel-not-available" "msg" [] ]}
    ∧ Install saErr = None ∧ Download saErr = None ∧ Other saErr = []
    ∧ NoResults saErr = false.
Proof. do 3 eexists. split_and!; vm_compute; reflexivity. Qed.

End Examples.

(** * Further properties of the resolver *)

Section Further.
Context `{Tr : Transport}.

Abbreviation err := (error extError).

(** ** Input that is turned down *)

Lemma resultLoop_inl h ct at_ results e :
  resultLoop h ct at_ results = inl e → isInvalidResponse e = true.
Proof.
  unfold resultLoop. generalize noCorrelation.
  induction results as [|x l IH]; intros c H; simpl in H; [done|].
  destruct (resultStep h ct at_ c x) as [e'|c'] eqn:Hs.
  - simplify_eq. by eapply resultStep_inl.
  - by eapply IH.
Qed.

Lemma assemble_not_plain results c e :
  (assemble results c).2 ≠ Some (PlainErr e).
Proof. unfold assemble. by case_match. Qed.

(** X3: an internal error is never the transport's, the decoder's or the
    walk's: the call that returns one has sent nothing.  It has entered
    one inner call, left the world alone, and returned no results; and the
    outer call returns it as it is, without a retry. *)
Theorem internal_error_sends_nothing cs actions opts st st' sars e :
  snapAction cs actions opts st = (st', (sars, Some (PlainErr e))) →
  isInternalError e = true →
  sars = []
  ∧ trace st' = trace st ++ [EvSnapAction]
  ∧ world st' = world st
  ∧ ∀ fuel, Store_SnapAction (S fuel) cs actions (Some opts) st
            = Some (st', ([], Some (PlainErr e))).
Proof.
  intros H Hint.
  assert (sars = [] ∧ trace st' = trace st ++ [EvSnapAction]
          ∧ world st' = world st
          ∧ ∃ h, (buildRequest cs actions (PrivacyKey opts) (objects st)).2
                 = inl h) as (-> & Htr & Hw & hb & Hb).
  { revert H. unfold snapAction. cbn [objects logEvent].
    destruct (buildRequest cs actions (PrivacyKey opts) (objects st))
      as [h [e0|[[ct at_] jsonData]]].
    { intros ?; simplify_eq. cbn. eauto. }
    cbn [world setObjects logEvent].
    destruct (retryRequestDecodeJSON _ _) as [w [e0|[resp results]]].
    { intros ?; by simplify_eq. }
    case_decide; [intros ?; by simplify_eq|].
    destruct (resultLoop _ _ _ _) as [e0|c] eqn:Hl.
    - intros ?; simplify_eq. apply resultLoop_inl in Hl. by destruct e.
    - intros Ha. exfalso. apply (assemble_not_plain results c e).
      injection Ha as _ Ha. by rewrite Ha. }
  split_and!; [done..|]. intros fuel. unfold Store_SnapAction.
  change (default noOptions (Some opts)) with opts.
  destruct cs as [|c0 cs]; [destruct actions as [|a0 actions]|].
  - exfalso. revert Hb. unfold buildRequest, contextLoop. cbn.
    unfold marshal_snapActionRequest. by cbn.
  - cbn [length Nat.eqb andb]. rewrite retryLoop_return; by rewrite H.
  - cbn [length Nat.eqb andb]. rewrite retryLoop_return; by rewrite H.
Qed.

Lemma actionStep_rejected nk h t p e :
  rejected (Action (h p)) (InstanceName (h p)) = Some e →
  ∃ h', actionStep nk h t p = (h', inl e).
Proof.
  intros Hr. destruct (actionStep nk h t p) as [h' [e'|t']] eqn:Hs.
  - apply actionStep_inl in Hs as (Hr' & _). exists h'. congruence.
  - apply actionStep_inr in Hs as (Hr' & _). congruence.
Qed.

(** X2: the build fails with the error of the first action that has an
    unsupported kind, an empty instance name or, being a download, an
    instance key: whatever follows that action in the list is not looked
    at. *)
Theorem first_rejected_action_decides cs actions salt h ct i p e :
  contextLoop salt cs = inr ct →
  actions !! i = Some p →
  (∀ j q, (j < i)%nat → actions !! j = Some q →
          rejected (Action (h q)) (InstanceName (h q)) = None) →
  rejected (Action (h p)) (InstanceName (h p)) = Some e →
  (buildRequest cs actions salt h).2 = inl e
  ∧ isInternalError e = true
  ∧ ((isValidAction (Action (h p)) = false
      ∧ e = errUnsupportedAction (Action (h p)))
     ∨ (isValidAction (Action (h p)) = true ∧ InstanceName (h p) = ""
        ∧ e = errActionWithoutInstanceName)
     ∨ (Action (h p) = "download" ∧ InstanceName (h p) ≠ ""
        ∧ (SplitInstanceName (InstanceName (h p))).2 ≠ ""
        ∧ e = errUnsupportedDownload (InstanceName (h p)))).
Proof.
  intros Hc Hi Hbefore Hr.
  assert ((buildRequest cs actions salt h).2 = inl e) as Hb.
  { unfold buildRequest. rewrite Hc.
    rewrite <-(take_drop_middle actions i p Hi), actionLoop_app.
    destruct (actionLoop_accepts (instanceNameToKey ct) (take i actions) h
                noActions) as (h1 & t1 & H1).
    { intros q Hq. apply list_elem_of_lookup in Hq as [j Hj].
      apply lookup_take_Some in Hj as [Hj Hlt]. by eapply Hbefore. }
    rewrite H1. simpl.
    assert (rejected (Action (h1 p)) (InstanceName (h1 p)) = Some e) as Hr1.
    { destruct (actionLoop_frame _ _ _ _ _ _ H1 p) as [->|(-> & _)]; done. }
    destruct (actionStep_rejected (instanceNameToKey ct) h1 t1 p e Hr1)
      as [h2 ->]. done. }
  split; [done|]. revert Hr. unfold rejected.
  destruct (isValidAction (Action (h p))); simpl.
  2: { intros ?; simplify_eq. split; [done|]. by left. }
  case_decide as Hn.
  { intros ?; simplify_eq. split; [done|]. right; left. done. }
  case_decide as Hd; [|done].
  intros ?; simplify_eq. split; [done|]. right; right.
  by destruct Hd.
Qed.

(** ** The context loop *)

Lemma genInstanceKey_inl cur salt e :
  genInstanceKey cur salt = inl e ↔
  (SplitInstanceName (cur_InstanceName cur)).2 ≠ "" ∧ salt = ""
  ∧ e = errSaltNotProvided.
Proof.
  unfold genInstanceKey. destruct (SplitInstanceName _) as [n k]; simpl.
  destruct (decide (k = "")) as [->|Hk].
  { split; [done | by intros (? & _)]. }
  destruct (decide (salt = "")) as [->|Hs].
  - split; [intros ?; by simplify_eq | by intros (_ & _ & ->)].
  - split; [done | by intros (_ & ? & _)].
Qed.

Lemma genInstanceKey_inr cur salt :
  (∃ k, genInstanceKey cur salt = inr k) ↔
  (SplitInstanceName (cur_InstanceName cur)).2 = "" ∨ salt ≠ "".
Proof.
  unfold genInstanceKey. destruct (SplitInstanceName _) as [n k]; simpl.
  destruct (decide (k = "")) as [->|Hk].
  { split; [by left | eauto]. }
  destruct (decide (salt = "")) as [->|Hs].
  - split; [by intros [? ?] | by intros [?|?]].
  - split; [by right | eauto].
Qed.

Lemma contextStep_cases salt t cur :
  match contextStep salt t cur with
  | inl e => (invalidCurrentSnap cur = true ∧ e = errInvalidCurrentSnap)
             ∨ (invalidCurrentSnap cur = false
                ∧ genInstanceKey cur salt = inl e)
  | inr _ => invalidCurrentSnap cur = false
             ∧ ∃ k, genInstanceKey cur salt = inr k
  end.
Proof.
  unfold contextStep. fold (invalidCurrentSnap cur).
  destruct (invalidCurrentSnap cur); [by left|].
  destruct (genInstanceKey cur salt); simpl; eauto.
Qed.

Lemma contextLoop_inl salt l t e :
  foldE (contextStep salt) l t = inl e ↔
  ∃ j cur, l !! j = Some cur
    ∧ (∀ j' c', (j' < j)%nat → l !! j' = Some c' →
         invalidCurrentSnap c' = false ∧ ∃ k, genInstanceKey c' salt = inr k)
    ∧ ((invalidCurrentSnap cur = true ∧ e = errInvalidCurrentSnap)
       ∨ (invalidCurrentSnap cur = false ∧ genInstanceKey cur salt = inl e)).
Proof.
  revert t. induction l as [|x l IH]; intros t; simpl.
  { split; [done|]. by intros (j & cur & H & _). }
  pose proof (contextStep_cases salt t x) as Hc.
  destruct (contextStep salt t x) as [e'|t'].
  - split.
    + intros ?; simplify_eq. exists 0%nat, x.
      split_and!; [done | intros; lia | done].
    + intros (j & cur & Hj & Hbefore & Hcur). destruct j as [|j].
      * simpl in Hj. simplify_eq.
        destruct Hc as [[? ->]|[? Hc]], Hcur as [[? ->]|[? Hcur]]; congruence.
      * destruct (Hbefore 0%nat x) as [Hv [k Hk]]; [lia | done |].
        destruct Hc as [[? _]|[_ ?]]; congruence.
  - rewrite IH. split.
    + intros (j & cur & Hj & Hbefore & Hcur). exists (S j), cur.
      split_and!; [done | | done].
      intros [|j'] c' Hlt Hc'; simpl in Hc'; [by simplify_eq|].
      apply (Hbefore j'); [lia | done].
    + intros (j & cur & Hj & Hbefore & Hcur). destruct j as [|j].
      * simpl in Hj; simplify_eq. destruct Hc as [Hv [k Hk]].
        destruct Hcur as [[? _]|[_ ?]]; congruence.
      * exists j, cur. split_and!; [done | | done].
        intros j' c' Hlt Hc'. apply (Hbefore (S j')); [lia | done].
Qed.

Lemma contextLoop_valid salt l t ct :
  foldE (contextStep salt) l t = inr ct →
  ∀ cur, cur ∈ l → invalidCurrentSnap cur = false.
Proof.
  revert t. induction l as [|x l IH]; intros t H cur Hin; simpl in H.
  { by apply elem_of_nil in Hin. }
  pose proof (contextStep_cases salt t x) as Hc.
  destruct (contextStep salt t x) as [e'|t']; [done|].
  apply elem_of_cons in Hin as [->|Hin]; [by destruct Hc | by eapply IH].
Qed.

(** X1: the context loop fails exactly when some current snap lacks its snap
    id, its instance name or its revision, or has an instance key while the
    salt is empty; the first such snap of the list decides the error, the
    completeness test coming before the salt.  A request that fails so
    returns the caller's objects as they were: no action has been looked
    at. *)
Theorem context_failure_is_the_first_bad_snap cs actions salt h e :
  (contextLoop salt cs = inl e ↔
   ∃ j cur, cs !! j = Some cur
     ∧ (∀ j' c', (j' < j)%nat → cs !! j' = Some c' →
          invalidCurrentSnap c' = false
          ∧ ((SplitInstanceName (cur_InstanceName c')).2 = "" ∨ salt ≠ ""))
     ∧ ((invalidCurrentSnap cur = true ∧ e = errInvalidCurrentSnap)
        ∨ (invalidCurrentSnap cur = false
           ∧ (SplitInstanceName (cur_InstanceName cur)).2 ≠ ""
           ∧ salt = "" ∧ e = errSaltNotProvided)))
  ∧ (contextLoop salt cs = inl e →
     buildRequest cs actions salt h = (h, inl e)).
Proof.
  split.
  - unfold contextLoop. rewrite contextLoop_inl.
    split; intros (j & cur & Hj & Hbefore & Hcur); exists j, cur;
      (split_and!; [done | |]).
    + intros j' c' Hlt Hc'. destruct (Hbefore j' c' Hlt Hc') as [? Hk].
      by rewrite <-genInstanceKey_inr.
    + destruct Hcur as [?|[? Hk]]; [by left|]. right.
      by apply genInstanceKey_inl in Hk.
    + intros j' c' Hlt Hc'. destruct (Hbefore j' c' Hlt Hc') as [? Hk].
      by rewrite genInstanceKey_inr.
    + destruct Hcur as [?|[? Hk]]; [by left|]. right.
      by rewrite genInstanceKey_inl.
  - intros H. unfold buildRequest. by rewrite H.
Qed.

(** ** The transport *)

(** X11: when the transport fails, or answers with a status other than 200,
    the call returns that error with no results after one inner call and
    one request: there is no retry and no token refresh, and the world is
    the one the transport left, no suggested currency having been taken
    from the response. *)
Theorem transport_failure_is_returned
    cs actions opts st h ct at_ jsonData w answer :
  cs ≠ [] ∨ actions ≠ [] →
  buildRequest cs actions (PrivacyKey opts) (objects st)
  = (h, inr (ct, at_, jsonData)) →
  retryRequestDecodeJSON (buildRequestOptions opts (world st) jsonData)
    (world st) = (w, answer) →
  match answer with
  | inl _ => True
  | inr (resp, _) => StatusCode resp ≠ 200
  end →
  ∀ fuel,
    Store_SnapAction (S fuel) cs actions (Some opts) st
    = Some ({| objects := h; world := w;
               trace := trace st
                 ++ [EvSnapAction;
                     EvTransport
                       (buildRequestOptions opts (world st) jsonData)] |},
            ([], Some (PlainErr (errExternal
                   match answer with
                   | inl e => e
                   | inr (resp, _) =>
                       respToError resp "query the store for updates"
                   end)))).
Proof.
  intros Hne Hb Ht Ha fuel.
  unfold Store_SnapAction. change (default noOptions (Some opts)) with opts.
  assert ((length cs =? 0)%nat && (length actions =? 0)%nat = false) as ->.
  { destruct cs, actions; try done. by destruct Hne. }
  assert (snapAction cs actions opts st
          = ({| objects := h; world := w;
                trace := trace st
                  ++ [EvSnapAction;
                      EvTransport
                        (buildRequestOptions opts (world st) jsonData)] |},
             ([], Some (PlainErr (errExternal
                    match answer with
                    | inl e => e
                    | inr (resp, _) =>
                        respToError resp "query the store for updates"
                    end))))) as Hs.
  { unfold snapAction. cbn [objects logEvent]. rewrite Hb.
    cbn [world setObjects logEvent]. rewrite Ht.
    assert (setWorld w
              (logEvent
                 (EvTransport (buildRequestOptions opts (world st) jsonData))
                 (setObjects h (logEvent EvSnapAction st)))
            = {| objects := h; world := w;
                 trace := trace st
                   ++ [EvSnapAction;
                       EvTransport
                         (buildRequestOptions opts (world st) jsonData)] |})
      as ->.
    { unfold setWorld, logEvent, setObjects. cbn [world objects trace].
      by rewrite <-app_assoc. }
    destruct answer as [e0|[resp results]]; [done|]. by rewrite decide_True. }
  rewrite retryLoop_return; by rewrite Hs.
Qed.

(** ** The walk over the results *)

Lemma errorResultStep_accounted h ct at_ c res :
  sars (errorResultStep h ct at_ c res) = sars c
  ∧ (accounted (errorResultStep h ct at_ c res) ≤ S (accounted c))%nat
  ∧ (size (installErrors (errorResultStep h ct at_ c res))
     + size (downloadErrors (errorResultStep h ct at_ c res))
     + length (otherErrors (errorResultStep h ct at_ c res))
     ≤ S (size (installErrors c) + size (downloadErrors c)
          + length (otherErrors c)))%nat.
Proof.
  unfold errorResultStep, accounted.
  repeat case_match; cbn; rewrite ?length_app, ?map_size_insert; cbn;
    repeat case_match; unfold id; split_and!; (done || lia).
Qed.

Lemma keepResult_inr c res info name c' :
  keepResult c res info name = inr c' →
  c' = appendSar
         {| sar_Info := Info_setInstanceKey (SplitInstanceName name).2 info;
            RedirectChannel := res_RedirectChannel res |} c
  ∧ (res_Result res = "download" ∨ name ≠ "").
Proof.
  unfold keepResult.
  destruct (bool_decide (res_Result res ≠ "download")
            && bool_decide (name = "")) eqn:Hb; [done|].
  destruct (SplitInstanceName name) as [n k]. intros ?; simplify_eq.
  split; [done|]. apply andb_false_iff in Hb as [Hb|Hb].
  - left. apply bool_decide_eq_false in Hb.
    by destruct (decide (res_Result res = "download")).
  - right. by apply bool_decide_eq_false in Hb.
Qed.

Lemma resultStep_sars h ct at_ c res c' :
  resultStep h ct at_ c res = inr c' →
  (sars c' = sars c
   ∧ installErrors c' = installErrors c ∧ downloadErrors c' = downloadErrors c
   ∧ otherErrors c' = otherErrors c
   ∧ (size (refreshErrors c') ≤ S (size (refreshErrors c)))%nat
   ∧ res_Result res = "refresh")
  ∨ (res_Result res = "error" ∧ c' = errorResultStep h ct at_ c res)
  ∨ ∃ sar, c' = appendSar sar c ∧ keptAs res sar.
Proof.
  unfold resultStep. case_decide as He.
  { intros ?; simplify_eq. right; left. done. }
  destruct (infoFromStoreSnap (res_Snap res)) as [x|info] eqn:Hinfo; [done|].
  assert (∀ name,
    keepResult c res (Info_setChannel (res_EffectiveChannel res) info) name
    = inr c' → ∃ sar, c' = appendSar sar c ∧ keptAs res sar) as Hkeep.
  { intros name Hk. apply keepResult_inr in Hk as [-> _].
    eexists. split; [done|]. unfold keptAs. cbn. eauto 10. }
  case_decide as Hr.
  { destruct (curSnaps ct !! res_InstanceKey res) as [cur|]; [|done].
    destruct (_ || _).
    - intros ?; simplify_eq. left. cbn. rewrite map_size_insert.
      split_and!; try done. case_match; unfold id; lia.
    - intros Hk. right; right. eauto. }
  case_decide.
  { destruct (installs at_ !! res_InstanceKey res);
      intros Hk; right; right; eauto. }
  intros Hk; right; right; eauto.
Qed.

Lemma resultLoop_accounted h ct at_ l c0 c :
  foldE (resultStep h ct at_) l c0 = inr c →
  (accounted c ≤ accounted c0 + length l)%nat
  ∧ (length (sars c)
     ≤ length (sars c0)
       + length (filter (λ res, res_Result res ≠ "error") l))%nat
  ∧ (size (installErrors c) + size (downloadErrors c) + length (otherErrors c)
     ≤ size (installErrors c0) + size (downloadErrors c0)
       + length (otherErrors c0)
       + length (filter (λ res, res_Result res = "error") l))%nat.
Proof.
  revert c0. induction l as [|res l IH]; intros c0 H; simpl in H.
  { simplify_eq. rewrite !filter_nil. simpl. lia. }
  destruct (resultStep h ct at_ c0 res) as [e|c1] eqn:Hs; [done|].
  destruct (IH _ H) as (IH1 & IH2 & IH3). rewrite !filter_cons.
  destruct (resultStep_sars _ _ _ _ _ _ Hs)
    as [(Hsars & Hi & Hd & Ho & Hr & Hk)|[[He ->]|(sar & -> & Hkept)]].
  - rewrite decide_True by (rewrite Hk; done).
    rewrite decide_False by (rewrite Hk; done).
    revert IH1. unfold accounted. rewrite Hsars, Hi, Hd, Ho in *. simpl. lia.
  - destruct (errorResultStep_accounted h ct at_ c0 res) as (Hsars & Ha & Hb).
    rewrite decide_False by (intros Hne; by apply Hne).
    rewrite decide_True by done. rewrite Hsars in IH2. simpl. lia.
  - destruct Hkept as (Hne & _). rewrite decide_True by done.
    rewrite decide_False by done. revert IH1 IH2 IH3. unfold accounted. cbn.
    rewrite !length_app. simpl. lia.
Qed.

(** X17: the walk never reports more outcomes than the store sent results: the
    successes and the entries of the three buckets and of Other, taken
    together, are at most as many as the results; the successes are at most
    as many as the results that are no errors; and the install and download
    buckets and Other, taken together, hold at most as many entries as
    there are error results. *)
Theorem results_are_accounted_once h ct at_ results c :
  resultLoop h ct at_ results = inr c →
  (accounted c ≤ length results)%nat
  ∧ (length (sars c)
     ≤ length (filter (λ res, res_Result res ≠ "error") results))%nat
  ∧ (size (installErrors c) + size (downloadErrors c) + length (otherErrors c)
     ≤ length (filter (λ res, res_Result res = "error") results))%nat.
Proof.
  intros H. apply resultLoop_accounted in H. revert H.
  unfold accounted, noCorrelation. cbn. rewrite !map_size_empty. simpl. lia.
Qed.

Lemma resultLoop_sars h ct at_ l c0 c :
  foldE (resultStep h ct at_) l c0 = inr c →
  ∃ kept new, sublist kept l ∧ sars c = sars c0 ++ new
              ∧ Forall2 keptAs kept new.
Proof.
  revert c0. induction l as [|res l IH]; intros c0 H; simpl in H.
  { simplify_eq. exists [], []. by rewrite app_nil_r. }
  destruct (resultStep h ct at_ c0 res) as [e|c1] eqn:Hs; [done|].
  destruct (IH _ H) as (kept & new & Hsub & Hsars & Hall).
  destruct (resultStep_sars _ _ _ _ _ _ Hs)
    as [(Hc1 & _)|[[He ->]|(sar & -> & Hkept)]].
  - exists kept, new. rewrite <-Hc1. split_and!; [by constructor | done..].
  - destruct (errorResultStep_accounted h ct at_ c0 res) as (Hc1 & _).
    exists kept, new. rewrite <-Hc1. split_and!; [by constructor | done..].
  - exists (res :: kept), (sar :: new). split_and!; [by constructor | |].
    + rewrite Hsars. cbn. by rewrite <-app_assoc.
    + by constructor.
Qed.

(** X16: the successes come back in the order of the store's results: they are
    what is left of the results once errors and refreshes without an update
    are taken out, each one decoded, with the effective channel of its
    result, some instance key, and the redirect channel of its result. *)
Theorem successes_follow_the_results h ct at_ results c :
  resultLoop h ct at_ results = inr c →
  ∃ kept, sublist kept results ∧ Forall2 keptAs kept (sars c).
Proof.
  intros H. apply resultLoop_sars in H as (kept & new & Hsub & Hsars & Hall).
  exists kept. split; [done|]. by rewrite Hsars.
Qed.

(** ** The counter keys of installs and downloads *)

Lemma kindCount_cons h kind p l :
  kindCount h kind (p :: l)
  = ((if decide (Action (h p) = kind) then 1 else 0)
     + kindCount h kind l)%nat.
Proof. unfold kindCount. rewrite filter_cons. by case_decide. Qed.

Lemma kindCount_app h kind l1 l2 :
  kindCount h kind (l1 ++ l2)
  = (kindCount h kind l1 + kindCount h kind l2)%nat.
Proof. unfold kindCount. by rewrite filter_app, length_app. Qed.

Lemma kindCount_ext h1 h2 kind l :
  (∀ q, Action (h1 q) = Action (h2 q)) →
  kindCount h1 kind l = kindCount h2 kind l.
Proof.
  intros H. induction l as [|p l IH]; [done|].
  by rewrite !kindCount_cons, IH, H.
Qed.

Lemma afterStep_Action h p q : Action (afterStep h p q) = Action (h q).
Proof. rewrite afterStep_lookup. by case_decide. Qed.

Lemma counter_key_inj (prefix : string) (m k : nat) :
  prefix +:+ pretty m = prefix +:+ pretty k → m = k.
Proof.
  intros H. apply (inj (String.append prefix)) in H.
  by apply (inj pretty) in H.
Qed.

Lemma actionStep_counters nk h t p h' t' :
  actionStep nk h t p = (h', inr t') → countersFresh t →
  countersFresh t'
  ∧ installNum t' = (installNum t + kindCount h "install" [p])%nat
  ∧ downloadNum t' = (downloadNum t + kindCount h "download" [p])%nat
  ∧ (∀ key q, installs t !! key = Some q → installs t' !! key = Some q)
  ∧ (∀ key q, downloads t !! key = Some q → downloads t' !! key = Some q).
Proof.
  intros Hs [Hfi Hfd].
  apply actionStep_inr in Hs as (_ & _ & k & _ & Hi & Hd & Hr).
  rewrite !kindCount_cons. unfold kindCount, countersFresh.
  rewrite filter_nil. simpl.
  destruct (decide (Action (h p) = "install")) as [Ha|Ha].
  { destruct (Hi Ha) as (-> & Hins & Hin & Hdn & Hdl & _).
    rewrite Hins, Hin, Hdn, Hdl.
    rewrite decide_False by (rewrite Ha; done).
    split_and!; [ | done | lia | lia | | done].
    - intros m Hm. rewrite lookup_insert_ne; [apply Hfi; lia|].
      intros Heq. apply counter_key_inj in Heq. lia.
    - intros key q Hq. rewrite lookup_insert_ne; [done|].
      intros <-. rewrite Hfi in Hq by lia. done. }
  destruct (decide (Action (h p) = "download")) as [Hb|Hb].
  { destruct (Hd Hb) as (-> & Hdl & Hdn & Hin & Hins & _).
    rewrite Hins, Hin, Hdn, Hdl.
    split_and!; [done | | lia | lia | done |].
    - intros m Hm. rewrite lookup_insert_ne; [apply Hfd; lia|].
      intros Heq. apply counter_key_inj in Heq. lia.
    - intros key q Hq. rewrite lookup_insert_ne; [done|].
      intros <-. rewrite Hfd in Hq by lia. done. }
  destruct (Hr Ha Hb) as (_ & _ & Hin & Hdn & Hins & Hdl).
  rewrite Hins, Hin, Hdn, Hdl.
  split_and!; [done | done | lia | lia | done | done].
Qed.

Lemma actionLoop_counters nk l h t h' t' :
  actionLoop nk l h t = (h', inr t') → countersFresh t →
  countersFresh t'
  ∧ installNum t' = (installNum t + kindCount h "install" l)%nat
  ∧ downloadNum t' = (downloadNum t + kindCount h "download" l)%nat
  ∧ (∀ key q, installs t !! key = Some q → installs t' !! key = Some q)
  ∧ (∀ key q, downloads t !! key = Some q → downloads t' !! key = Some q).
Proof.
  revert h t. induction l as [|p l IH]; intros h t H Hf; simpl in H.
  { simplify_eq. unfold kindCount. rewrite !filter_nil. simpl.
    split_and!; [done | lia | lia | done | done]. }
  destruct (actionStep nk h t p) as [h1 [e|t1]] eqn:Hs; [done|].
  destruct (actionStep_counters _ _ _ _ _ _ Hs Hf)
    as (Hf1 & Hi1 & Hd1 & Hki & Hkd).
  apply actionStep_inr in Hs as (_ & -> & _).
  destruct (IH _ _ H Hf1) as (Hf' & Hi' & Hd' & Hki' & Hkd').
  rewrite (kindCount_ext (afterStep h p) h) in Hi', Hd'
    by apply afterStep_Action.
  rewrite (kindCount_cons h "install"), (kindCount_cons h "download").
  rewrite !kindCount_cons in Hi1, Hd1. unfold kindCount in Hi1, Hd1.
  rewrite filter_nil in Hi1, Hd1. simpl in Hi1, Hd1.
  split_and!; [done | lia | lia | eauto | eauto].
Qed.

Lemma countersFresh_noActions : countersFresh noActions.
Proof. split; intros; apply lookup_empty. Qed.

(** The entry of the action at index [i], its key when the action is an
    install or a download, and the table that holds it. *)
Lemma actionLoop_counter_key nk l h h' t' i p :
  actionLoop nk l h noActions = (h', inr t') → l !! i = Some p →
  ∃ aj, actionJSONs t' !! i = Some aj
    ∧ (Action (h p) = "install" →
       aj_InstanceKey aj
       = "install-" +:+ pretty (kindCount h "install" (take (S i) l))
       ∧ installs t' !! aj_InstanceKey aj = Some p)
    ∧ (Action (h p) = "download" →
       aj_InstanceKey aj
       = "download-" +:+ pretty (kindCount h "download" (take (S i) l))
       ∧ downloads t' !! aj_InstanceKey aj = Some p).
Proof.
  intros H Hi.
  rewrite <-(take_drop_middle l i p Hi), actionLoop_app in H.
  destruct (actionLoop nk (take i l) h noActions) as [h1 [e|t1]] eqn:H1;
    [done|].
  simpl in H.
  destruct (actionStep nk h1 t1 p) as [h2 [e|t2]] eqn:Hs; [done|].
  destruct (actionLoop_counters _ _ _ _ _ _ H1 countersFresh_noActions)
    as (Hf1 & Hi1 & Hd1 & _ & _).
  destruct (actionStep_counters _ _ _ _ _ _ Hs Hf1) as (Hf2 & _ & _ & _ & _).
  destruct (actionLoop_counters _ _ _ _ _ _ H Hf2) as (_ & _ & _ & Hki & Hkd).
  apply actionStep_inr in Hs as (_ & _ & k & Hk & Hin & Hdn & _).
  destruct (actionLoop_entries _ _ _ _ _ _ H1) as (es1 & He1 & Hl1).
  apply actionLoop_entries in H as (es2 & He2 & _).
  assert (length es1 = i) as Hlen.
  { rewrite Hl1, length_take. apply lookup_lt_Some in Hi. lia. }
  assert (Action (h1 p) = Action (h p)) as Hact.
  { by destruct (actionLoop_frame _ _ _ _ _ _ H1 p) as [->|[-> _]]. }
  exists (entryOf (h1 p) k). split.
  { rewrite He2, Hk, He1. simpl. rewrite <-app_assoc.
    rewrite lookup_app_r by lia.
    by replace (i - length es1)%nat with 0%nat by lia. }
  rewrite (take_S_r l i p Hi), !kindCount_app, !kindCount_cons.
  unfold kindCount at 2 4. rewrite !filter_nil. rewrite Hact in *.
  cbn [aj_InstanceKey entryOf length]. simpl in Hi1, Hd1.
  split; intros Ha.
  - destruct (Hin Ha) as (-> & Hins & _). rewrite decide_True by done. split.
    + do 2 f_equal. lia.
    + apply Hki. rewrite Hins. apply lookup_insert_eq.
  - destruct (Hdn Ha) as (-> & Hdl & _). rewrite decide_True by done. split.
    + do 2 f_equal. lia.
    + apply Hkd. rewrite Hdl. apply lookup_insert_eq.
Qed.

Lemma kindCount_take_lt h kind l i j q :
  (i < j)%nat → l !! j = Some q → Action (h q) = kind →
  (kindCount h kind (take (S i) l) < kindCount h kind (take (S j) l))%nat.
Proof.
  intros Hlt Hj Ha.
  rewrite (take_S_r l j q Hj), kindCount_app, kindCount_cons.
  rewrite decide_True by done.
  rewrite <-(take_drop (S i) (take j l)), kindCount_app, take_take.
  replace (S i `min` j)%nat with (S i) by lia. lia.
Qed.

Lemma request_counter_entry cs actions salt h h' ct at_ jsonData i p :
  buildRequest cs actions salt h = (h', inr (ct, at_, jsonData)) →
  actions !! i = Some p →
  ∃ entry key,
    serializedActions jsonData !! i = Some entry
    ∧ obj_get "instance-key" entry = Some (JStr key)
    ∧ (Action (h p) = "install" →
       key = "install-"
             +:+ pretty (kindCount h "install" (take (S i) actions))
       ∧ installs at_ !! key = Some p)
    ∧ (Action (h p) = "download" →
       key = "download-"
             +:+ pretty (kindCount h "download" (take (S i) actions))
       ∧ downloads at_ !! key = Some p).
Proof.
  intros Hb Hi. apply buildRequest_inr in Hb as (_ & Ha & _ & Hm).
  destruct (actionLoop_counter_key _ _ _ _ _ _ _ Ha Hi)
    as (aj & Haj & Hin & Hdn).
  destruct (mapE_lookup _ _ _ _ _ Hm Haj) as (entry & He & Hentry).
  apply marshal_snapActionJSON_fields in He as (_ & Hkey & _).
  exists entry, (aj_InstanceKey aj). done.
Qed.

(** X6: an install is sent under the key [install-N] and a download under
    [download-N], [N] counting from 1 the installs, or the downloads, of
    the action list up to and including the action; and the table the
    results are correlated with holds the action under that very key. *)
Theorem counter_keys_name_the_actions
    cs actions salt h h' ct at_ jsonData i p :
  buildRequest cs actions salt h = (h', inr (ct, at_, jsonData)) →
  actions !! i = Some p →
  ∃ entry key,
    serializedActions jsonData !! i = Some entry
    ∧ obj_get "instance-key" entry = Some (JStr key)
    ∧ (Action (h p) = "install" →
       key = "install-"
             +:+ pretty (kindCount h "install" (take (S i) actions))
       ∧ installs at_ !! key = Some p)
    ∧ (Action (h p) = "download" →
       key = "download-"
             +:+ pretty (kindCount h "download" (take (S i) actions))
       ∧ downloads at_ !! key = Some p).
Proof.
  intros Hb Hi. apply buildRequest_inr in Hb as (_ & Ha & _ & Hm).
  destruct (actionLoop_counter_key _ _ _ _ _ _ _ Ha Hi)
    as (aj & Haj & Hin & Hdn).
  destruct (mapE_lookup _ _ _ _ _ Hm Haj) as (entry & He & Hentry).
  apply marshal_snapActionJSON_fields in He as (_ & Hkey & _).
  exists entry, (aj_InstanceKey aj). split_and!; [done | done | |].
  - intros Hinstall. by apply Hin.
  - intros Hdownload. by apply Hdn.
Qed.

(** X7: no two installs or downloads of one request share their instance
    key, also when the same action object stands twice in the list. *)
Theorem counter_keys_are_distinct
    cs actions salt h h' ct at_ jsonData i j p q :
  buildRequest cs actions salt h = (h', inr (ct, at_, jsonData)) →
  actions !! i = Some p → actions !! j = Some q → i ≠ j →
  Action (h p) = "install" ∨ Action (h p) = "download" →
  Action (h q) = "install" ∨ Action (h q) = "download" →
  ∃ ei ej ki kj,
    serializedActions jsonData !! i = Some ei
    ∧ serializedActions jsonData !! j = Some ej
    ∧ obj_get "instance-key" ei = Some (JStr ki)
    ∧ obj_get "instance-key" ej = Some (JStr kj)
    ∧ ki ≠ kj.
Proof.
  intros Hb Hi Hj Hne Hp Hq.
  destruct (request_counter_entry _ _ _ _ _ _ _ _ _ _ Hb Hi)
    as (ei & ki & Hei & Hki & Hpi & Hpd).
  destruct (request_counter_entry _ _ _ _ _ _ _ _ _ _ Hb Hj)
    as (ej & kj & Hej & Hkj & Hqi & Hqd).
  exists ei, ej, ki, kj. split_and!; [done..|]. intros Heq.
  assert (∀ kind, Action (h p) = kind → Action (h q) = kind →
            kindCount h kind (take (S i) actions)
            ≠ kindCount h kind (take (S j) actions)) as Hcount.
  { intros kind Hkp Hkq.
    destruct (decide (i < j)%nat) as [Hlt|Hge].
    - pose proof (kindCount_take_lt h kind actions i j q Hlt Hj Hkq). lia.
    - assert (j < i)%nat as Hlt by lia.
      pose proof (kindCount_take_lt h kind actions j i p Hlt Hi Hkp). lia. }
  destruct Hp as [Hp|Hp], Hq as [Hq|Hq].
  - destruct (Hpi Hp) as [-> _], (Hqi Hq) as [-> _].
    apply counter_key_inj in Heq. by apply (Hcount "install").
  - destruct (Hpi Hp) as [-> _], (Hqd Hq) as [-> _]. done.
  - destruct (Hpd Hp) as [-> _], (Hqi Hq) as [-> _]. done.
  - destruct (Hpd Hp) as [-> _], (Hqd Hq) as [-> _].
    apply counter_key_inj in Heq. by apply (Hcount "download").
Qed.

(** ** Results and the request they answer *)

Lemma request_tables_named cs actions salt h h' ct at_ jsonData :
  buildRequest cs actions salt h = (h', inr (ct, at_, jsonData)) →
  (∀ key cur, curSnaps ct !! key = Some cur → cur_InstanceName cur ≠ "")
  ∧ (∀ key p, installs at_ !! key = Some p → InstanceName (h' p) ≠ "").
Proof.
  intros Hb. apply buildRequest_inr in Hb as (Hc & Ha & _ & _). split.
  - intros key cur Hcur.
    destruct (contextLoop_tables _ _ _ Hc) as (_ & _ & _ & _ & Hin).
    destruct (Hin _ _ Hcur) as [Hel _].
    pose proof (contextLoop_valid _ _ _ _ Hc cur Hel) as Hv.
    unfold invalidCurrentSnap in Hv.
    apply orb_false_iff in Hv as [Hv _]. apply orb_false_iff in Hv as [_ Hv].
    by apply bool_decide_eq_false in Hv.
  - intros key p Hp.
    destruct (actionLoop_pointers _ _ _ _ _ _ key p Ha) as (Hin & _).
    destruct (Hin Hp) as [Hempty|Hel].
    { cbn in Hempty. by rewrite lookup_empty in Hempty. }
    apply list_elem_of_lookup in Hel as [i Hi].
    destruct (actionLoop_entry _ _ _ _ _ _ _ Ha Hi) as [Hrej _].
    apply rejected_None in Hrej as (_ & Hn & _).
    by destruct (actionLoop_frame _ _ _ _ _ _ Ha p) as [->|[-> _]].
Qed.

Lemma keepResult_named c res info name :
  name ≠ "" → ∃ c', keepResult c res info name = inr c'.
Proof.
  intros Hn. unfold keepResult.
  rewrite (bool_decide_eq_false_2 (name = "")) by done.
  rewrite andb_false_r. destruct (SplitInstanceName name). eauto.
Qed.

Lemma keepResult_unnamed c res info e :
  keepResult c res info "" = inl e ↔
  res_Result res ≠ "download"
  ∧ e = errUnexpectedInstanceKey (res_InstanceKey res).
Proof.
  unfold keepResult. rewrite (bool_decide_eq_true_2 ("" = "")) by done.
  rewrite andb_true_r. case_bool_decide as Hd; simpl.
  - split; [intros ?; by simplify_eq | by intros [_ ->]].
  - split; [done|]. intros [Hne _]. by destruct Hd.
Qed.

(** X12: in the walk over the answer to a built request, a result ends the
    call, whatever has been collected before it, in four cases only, none
    of them an error result: its payload does not decode; it is a refresh
    whose key is the key of no current snap; it is an install whose key is
    the key of no install of the request; it is of a kind other than
    refresh, install and download. *)
Theorem walk_failure_causes cs actions salt h h' ct at_ jsonData c res e :
  buildRequest cs actions salt h = (h', inr (ct, at_, jsonData)) →
  (resultStep h' ct at_ c res = inl e ↔
   res_Result res ≠ "error"
   ∧ match infoFromStoreSnap (res_Snap res) with
     | inl x => e = errInvalidResult x
     | inr _ =>
         if decide (res_Result res = "refresh") then
           curSnaps ct !! res_InstanceKey res = None
           ∧ e = errUnexpectedRefresh
         else if decide (res_Result res = "install") then
           installs at_ !! res_InstanceKey res = None
           ∧ e = errUnexpectedInstanceKey (res_InstanceKey res)
         else
           res_Result res ≠ "download"
           ∧ e = errUnexpectedInstanceKey (res_InstanceKey res)
     end).
Proof.
  intros Hb. destruct (request_tables_named _ _ _ _ _ _ _ _ Hb) as [Hcur Hins].
  unfold resultStep. case_decide as He.
  { split; [done | by intros [? _]]. }
  destruct (infoFromStoreSnap (res_Snap res)) as [x|info].
  { split; [intros ?; by simplify_eq | by intros [_ ->]]. }
  case_decide as Hr.
  { destruct (curSnaps ct !! res_InstanceKey res) as [cur|] eqn:Hc.
    - destruct (_ || _).
      + split; [done | by intros [_ [? _]]].
      + destruct (keepResult_named c res
                    (Info_setChannel (res_EffectiveChannel res) info)
                    (cur_InstanceName cur)) as [c' ->]; [by eapply Hcur|].
        split; [done | by intros [_ [? _]]].
    - split; [intros ?; by simplify_eq | by intros [_ [_ ->]]]. }
  case_decide as Hi.
  { destruct (installs at_ !! res_InstanceKey res) as [p|] eqn:Hp.
    - destruct (keepResult_named c res
                  (Info_setChannel (res_EffectiveChannel res) info)
                  (InstanceName (h' p))) as [c' ->]; [by eapply Hins|].
      split; [done | by intros [_ [? _]]].
    - rewrite keepResult_unnamed. split.
      + intros [_ ->]. done.
      + intros [_ [_ ->]]. split; [|done]. rewrite Hi. done. }
  rewrite keepResult_unnamed. split; [by intros [? ->] | by intros [_ [? ->]]].
Qed.

Lemma resultLoop_elem h ct at_ l c0 c res :
  foldE (resultStep h ct at_) l c0 = inr c → res ∈ l →
  ∃ c1 c2 new, resultStep h ct at_ c1 res = inr c2
               ∧ sars c = sars c2 ++ new.
Proof.
  revert c0. induction l as [|x l IH]; intros c0 H Hin; simpl in H.
  { by apply elem_of_nil in Hin. }
  destruct (resultStep h ct at_ c0 x) as [e|c1] eqn:Hs; [done|].
  apply elem_of_cons in Hin as [->|Hin]; [|by eapply IH].
  destruct (resultLoop_sars _ _ _ _ _ _ H) as (_ & new & _ & Hsars & _).
  eauto.
Qed.

Lemma contextLoop_curSnaps_other salt l t ct key :
  foldE (contextStep salt) l t = inr ct →
  (∀ j cur, l !! j = Some cur → genInstanceKey cur salt ≠ inr key) →
  curSnaps ct !! key = curSnaps t !! key.
Proof.
  revert t. induction l as [|x l IH]; intros t H Hother; simpl in H.
  { by simplify_eq. }
  destruct (contextStep salt t x) as [e|t1] eqn:Hs; [done|].
  rewrite (IH _ H) by (intros j cur Hj; by apply (Hother (S j))).
  apply contextStep_inr in Hs as (k & Hk & -> & _).
  apply lookup_insert_ne. intros ->. by apply (Hother 0%nat x).
Qed.

Lemma contextLoop_curSnaps salt l ct j cur key :
  contextLoop salt l = inr ct →
  l !! j = Some cur → genInstanceKey cur salt = inr key →
  (∀ j' cur', (j < j')%nat → l !! j' = Some cur' →
              genInstanceKey cur' salt ≠ inr key) →
  curSnaps ct !! key = Some cur.
Proof.
  unfold contextLoop. intros H Hj Hk Hlater.
  rewrite <-(take_drop_middle l j cur Hj), foldE_app in H.
  destruct (foldE (contextStep salt) (take j l) noContext) as [e|t1]; [done|].
  simpl in H.
  destruct (contextStep salt t1 cur) as [e|t2] eqn:Hs; [done|].
  rewrite (contextLoop_curSnaps_other _ _ _ _ key H).
  - apply contextStep_inr in Hs as (k & Hk' & -> & _).
    rewrite Hk in Hk'. simplify_eq. apply lookup_insert_eq.
  - intros j' cur' Hj'. apply (Hlater (S j + j')%nat); [lia|].
    by rewrite lookup_drop in Hj'.
Qed.

Lemma elem_of_kept sar c new : sar ∈ sars (appendSar sar c) ++ new.
Proof.
  cbn. apply elem_of_app. left. apply elem_of_app. right.
  by apply list_elem_of_singleton.
Qed.

(** X13: an install result that comes back under the key of an install of the
    request is kept, with the effective and redirect channels of the
    result and with the instance key of that action's instance name. *)
Theorem install_result_is_kept
    cs actions salt h h' ct at_ jsonData i p results res c :
  buildRequest cs actions salt h = (h', inr (ct, at_, jsonData)) →
  actions !! i = Some p → Action (h p) = "install" →
  res ∈ results → res_Result res = "install" →
  res_InstanceKey res
  = "install-" +:+ pretty (kindCount h "install" (take (S i) actions)) →
  resultLoop h' ct at_ results = inr c →
  ∃ info,
    infoFromStoreSnap (res_Snap res) = inr info
    ∧ {| sar_Info :=
           Info_setInstanceKey (SplitInstanceName (InstanceName (h p))).2
             (Info_setChannel (res_EffectiveChannel res) info);
         RedirectChannel := res_RedirectChannel res |} ∈ sars c.
Proof.
  intros Hb Hi Ha Hin Hr Hkey Hl.
  destruct (request_counter_entry _ _ _ _ _ _ _ _ _ _ Hb Hi)
    as (_ & key & _ & _ & Hins & _).
  destruct (Hins Ha) as [-> Hp]. rewrite <-Hkey in Hp.
  assert (InstanceName (h' p) = InstanceName (h p)) as Hname.
  { apply buildRequest_inr in Hb as (_ & Hloop & _).
    by destruct (actionLoop_frame _ _ _ _ _ _ Hloop p) as [->|[-> _]]. }
  destruct (resultLoop_elem _ _ _ _ _ _ _ Hl Hin) as (c1 & c2 & new & Hs & ->).
  revert Hs. unfold resultStep. rewrite decide_False by (rewrite Hr; done).
  destruct (infoFromStoreSnap (res_Snap res)) as [x|info]; [done|].
  rewrite decide_False by (rewrite Hr; done). rewrite decide_True by done.
  rewrite Hp, Hname. intros Hk. apply keepResult_inr in Hk as [-> _].
  exists info. split; [done|]. apply elem_of_kept.
Qed.

(** X14: a refresh result that comes back under the key of a current snap, with
    a revision that is neither the snap's nor one of its blocked ones, is
    kept, with the effective and redirect channels of the result and with
    the instance key of that snap's instance name; the snap is the last
    one of the context with that key. *)
Theorem refresh_result_is_kept
    cs actions salt h h' ct at_ jsonData j cur key results res c :
  buildRequest cs actions salt h = (h', inr (ct, at_, jsonData)) →
  cs !! j = Some cur → genInstanceKey cur salt = inr key →
  (∀ j' cur', (j < j')%nat → cs !! j' = Some cur' →
              genInstanceKey cur' salt ≠ inr key) →
  res ∈ results → res_Result res = "refresh" → res_InstanceKey res = key →
  R (storeSnap_Revision (res_Snap res)) ≠ cur_Revision cur →
  R (storeSnap_Revision (res_Snap res)) ∉ cur_Block cur →
  resultLoop h' ct at_ results = inr c →
  ∃ info,
    infoFromStoreSnap (res_Snap res) = inr info
    ∧ {| sar_Info :=
           Info_setInstanceKey (SplitInstanceName (cur_InstanceName cur)).2
             (Info_setChannel (res_EffectiveChannel res) info);
         RedirectChannel := res_RedirectChannel res |} ∈ sars c.
Proof.
  intros Hb Hj Hk Hlater Hin Hr Hkey Hrev Hblock Hl.
  apply buildRequest_inr in Hb as (Hc & _).
  pose proof (contextLoop_curSnaps _ _ _ _ _ _ Hc Hj Hk Hlater) as Hcur.
  rewrite <-Hkey in Hcur.
  destruct (resultLoop_elem _ _ _ _ _ _ _ Hl Hin) as (c1 & c2 & new & Hs & ->).
  revert Hs. unfold resultStep. rewrite decide_False by (rewrite Hr; done).
  destruct (infoFromStoreSnap (res_Snap res)) as [x|info]; [done|].
  rewrite decide_True by done. rewrite Hcur.
  rewrite bool_decide_eq_false_2 by done.
  destruct (findRev _ (cur_Block cur)) eqn:Hf.
  { by apply findRev_elem_of in Hf. }
  simpl. intros Hkeep. apply keepResult_inr in Hkeep as [-> _].
  exists info. split; [done|]. apply elem_of_kept.
Qed.



(** X15: a download result is kept whatever its instance key is, known to the
    request or not, and always with an empty instance key. *)
Theorem download_result_is_kept h ct at_ results res c :
  res ∈ results → res_Result res = "download" →
  resultLoop h ct at_ results = inr c →
  ∃ info,
    infoFromStoreSnap (res_Snap res) = inr info
    ∧ {| sar_Info :=
           Info_setInstanceKey ""
             (Info_setChannel (res_EffectiveChannel res) info);
         RedirectChannel := res_RedirectChannel res |} ∈ sars c.
Proof.
  intros Hin Hr Hl.
  destruct (resultLoop_elem _ _ _ _ _ _ _ Hl Hin) as (c1 & c2 & new & Hs & ->).
  revert Hs. unfold resultStep. rewrite decide_False by (rewrite Hr; done).
  destruct (infoFromStoreSnap (res_Snap res)) as [x|info]; [done|].
  rewrite !decide_False by (rewrite Hr; done).
  intros Hkeep. apply keepResult_inr in Hkeep as [-> _].
  exists info. split; [done|]. apply elem_of_kept.
Qed.

(** ** What is written into the request *)

Lemma mapE_length {E A B} (f : A → E + B) (l : list A) (l' : list B) :
  mapE f l = inr l' → length l' = length l.
Proof.
  revert l'. induction l as [|x l IH]; intros l' H; simpl in H.
  { by simplify_eq. }
  apply bindE_inr in H as (y & _ & H). apply bindE_inr in H as (ys & Hys & H).
  simplify_eq. simpl. f_equal. by apply IH.
Qed.

Lemma obj_get_omitempty_bool key k b :
  obj_get key (omitempty_bool k b) =
  if decide (k = key) then (if b then Some (JBool true) else None) else None.
Proof.
  unfold omitempty_bool. destruct b; simpl; destruct (decide (k = key)); done.
Qed.

Lemma marshal_currentSnapV2JSON_fields (c : currentSnapV2JSON) obj :
  marshal_currentSnapV2JSON c = inr obj →
  obj_get "snap-id" obj = Some (JStr (cj_SnapID c))
  ∧ obj_get "revision" obj = Some (JNum (cj_Revision c))
  ∧ obj_get "tracking-channel" obj = Some (JStr (cj_TrackingChannel c))
  ∧ (∃ epoch, Epoch_MarshalJSON (cj_Epoch c) = inr epoch
              ∧ obj_get "epoch" obj = Some epoch)
  ∧ match cj_RefreshedDate c with
    | None => obj_get "refreshed-date" obj = None
    | Some t => ∃ date, Time_MarshalJSON t = inr date
                        ∧ obj_get "refreshed-date" obj = Some date
    end
  ∧ obj_get "ignore-validation" obj =
      (if cj_IgnoreValidation c then Some (JBool true) else None)
  ∧ obj_get "cohort-key" obj =
      (if decide (cj_CohortKey c = "") then None
       else Some (JStr (cj_CohortKey c))).
Proof.
  unfold marshal_currentSnapV2JSON. intros H.
  apply bindE_inr in H as (ep & Hep & H).
  apply bindE_inr in H as (date & Hdate & H). inversion H; subst; clear H.
  assert (∀ key, key ≠ "refreshed-date" → obj_get key date = None) as Hother.
  { intros key Hkey. destruct (cj_RefreshedDate c) as [t|].
    - apply bindE_inr in Hdate as (j & _ & Hj). inversion Hj; subst.
      simpl. by rewrite decide_False.
    - by inversion Hdate; subst. }
  cbn [app obj_get].
  rewrite !obj_get_app, !obj_get_omitempty_bool, !obj_get_omitempty_string.
  key_decide. split_and!; try done.
  - eauto.
  - destruct (cj_RefreshedDate c) as [t|].
    + apply bindE_inr in Hdate as (j & Hj & Hd). inversion Hd; subst.
      exists j. split; [done|]. simpl. by key_decide.
    + by inversion Hdate; subst.
  - rewrite Hother by done. by destruct (cj_IgnoreValidation c).
  - by rewrite Hother.
Qed.

(** X4: the context of a built request has one entry for each current snap,
    in order, and the entry reads back as the snap: its snap id, its
    revision, its tracking channel or [stable] when it has none, its
    marshalled epoch, the refresh date unless it is zero, ignore-validation
    only when set, the cohort key unless empty. *)
Theorem context_entry_round_trip cs actions salt h h' ct at_ jsonData j cur :
  buildRequest cs actions salt h = (h', inr (ct, at_, jsonData)) →
  cs !! j = Some cur →
  length (serializedContext jsonData) = length cs
  ∧ ∃ entry epoch,
      serializedContext jsonData !! j = Some entry
      ∧ Epoch_MarshalJSON (cur_Epoch cur) = inr epoch
      ∧ obj_get "snap-id" entry = Some (JStr (cur_SnapID cur))
      ∧ obj_get "revision" entry = Some (JNum (N (cur_Revision cur)))
      ∧ obj_get "tracking-channel" entry =
          Some (JStr (if decide (cur_TrackingChannel cur = "") then "stable"
                      else cur_TrackingChannel cur))
      ∧ obj_get "epoch" entry = Some epoch
      ∧ (if Time_IsZero (cur_RefreshedDate cur)
         then obj_get "refreshed-date" entry = None
         else ∃ date, Time_MarshalJSON (cur_RefreshedDate cur) = inr date
                      ∧ obj_get "refreshed-date" entry = Some date)
      ∧ obj_get "ignore-validation" entry =
          (if cur_IgnoreValidation cur then Some (JBool true) else None)
      ∧ obj_get "cohort-key" entry =
          (if decide (cur_CohortKey cur = "") then None
           else Some (JStr (cur_CohortKey cur))).
Proof.
  intros Hb Hj. apply buildRequest_inr in Hb as (Hc & _ & Hm & _).
  destruct (contextLoop_tables _ _ _ Hc) as (Hlen & Hentry & _).
  split; [by rewrite (mapE_length _ _ _ Hm)|].
  destruct (Hentry _ _ Hj) as (key & _ & Hlook).
  destruct (mapE_lookup _ _ _ _ _ Hm Hlook) as (entry & He & Hentry').
  apply marshal_currentSnapV2JSON_fields in He
    as (Hid & Hrev & Htc & (epoch & Hep & Hepoch) & Hdate & Hiv & Hck).
  exists entry, epoch. cbn in *. split_and!; try done.
  by destruct (Time_IsZero (cur_RefreshedDate cur)).
Qed.

Lemma marshal_snapActionJSON_ids (a : snapActionJSON) obj :
  marshal_snapActionJSON a = inr obj →
  obj_get "snap-id" obj =
    (if decide (aj_SnapID a = "") then None else Some (JStr (aj_SnapID a)))
  ∧ obj_get "revision" obj =
      (if decide (aj_Revision a = 0) then None
       else Some (JNum (aj_Revision a)))
  ∧ obj_get "cohort-key" obj =
      (if decide (aj_CohortKey a = "") then None
       else Some (JStr (aj_CohortKey a))).
Proof.
  unfold marshal_snapActionJSON. intros H.
  apply bindE_inr in H as (ep & Hep & H). inversion H; subst; clear H.
  pose proof (marshal_epochField_other _ _ "snap-id" Hep) as Hs.
  pose proof (marshal_epochField_other _ _ "revision" Hep) as Hr.
  pose proof (marshal_epochField_other _ _ "cohort-key" Hep) as Hc.
  cbn [app obj_get].
  rewrite !obj_get_app, !obj_get_omitempty_string, !obj_get_omitempty_int,
    !obj_get_omitempty_boolptr.
  key_decide. repeat split.
  - destruct (decide (aj_SnapID a = "")); [|done]. by apply Hs.
  - destruct (decide (aj_Revision a = 0)); [|done]. by apply Hr.
  - destruct (decide (aj_CohortKey a = "")); [|done]. by apply Hc.
Qed.

(** X5: the payload of a built request lists the store's fields and has one
    action entry for each action, in order; the entry carries the kind of
    its action and, unless empty or zero, its snap id, its revision and
    its cohort key. *)
Theorem action_entry_round_trip cs actions salt h h' ct at_ jsonData i p :
  buildRequest cs actions salt h = (h', inr (ct, at_, jsonData)) →
  actions !! i = Some p →
  length (serializedActions jsonData) = length actions
  ∧ (∃ fields, jsonData = JObj fields
               ∧ obj_get "fields" fields
                 = Some (JArr (JStr <$> snapActionFields)))
  ∧ ∃ entry,
      serializedActions jsonData !! i = Some entry
      ∧ obj_get "action" entry = Some (JStr (Action (h p)))
      ∧ obj_get "snap-id" entry =
          (if decide (SnapID (h p) = "") then None
           else Some (JStr (SnapID (h p))))
      ∧ obj_get "revision" entry =
          (if decide (N (act_Revision (h p)) = 0) then None
           else Some (JNum (N (act_Revision (h p)))))
      ∧ obj_get "cohort-key" entry =
          (if decide (CohortKey (h p) = "") then None
           else Some (JStr (CohortKey (h p)))).
Proof.
  intros Hb Hi. pose proof Hb as Hb0.
  apply buildRequest_inr in Hb as (Hc & Ha & _ & Hm).
  split_and!.
  - rewrite (mapE_length _ _ _ Hm).
    destruct (actionLoop_entries _ _ _ _ _ _ Ha) as (es & -> & <-). done.
  - revert Hb0. unfold buildRequest. rewrite Hc, Ha.
    unfold marshal_snapActionRequest.
    cbn [req_Context req_Actions req_Fields].
    destruct (mapE marshal_currentSnapV2JSON _) as [e|ctx]; [done|]. simpl.
    destruct (mapE marshal_snapActionJSON _) as [e|acts]; [done|]. simpl.
    intros ?; simplify_eq. eexists. split; [done|]. cbn [obj_get].
    by key_decide.
  - destruct (actionLoop_lookup _ _ _ _ _ _ _ _ Ha Hi)
      as (h1 & t1 & k & H1 & _ & Hlook & _). simpl in Hlook.
    destruct (mapE_lookup _ _ _ _ _ Hm Hlook) as (entry & He & Hentry).
    exists entry. split; [done|].
    pose proof (marshal_snapActionJSON_fields _ _ He) as (Hact & _).
    pose proof (marshal_snapActionJSON_ids _ _ He) as (Hid & Hrev & Hck).
    cbn in Hact, Hid, Hrev, Hck.
    by destruct (actionLoop_frame _ _ _ _ _ _ H1 p) as [Hp|[Hp _]];
      rewrite Hp in *.
Qed.

Lemma snapAction_request cs actions opts st h ct at_ jsonData :
  buildRequest cs actions (PrivacyKey opts) (objects st)
  = (h, inr (ct, at_, jsonData)) →
  trace (snapAction cs actions opts st).1
  = trace st
    ++ [EvSnapAction;
        EvTransport (buildRequestOptions opts (world st) jsonData)].
Proof.
  intros Hb. unfold snapAction. cbn [objects logEvent]. rewrite Hb.
  cbn [world setObjects logEvent].
  destruct (retryRequestDecodeJSON _ _) as [w [e|[resp results]]];
    [|case_decide; [|destruct (resultLoop _ _ _ _)]];
    cbn [trace setWorld setObjects logEvent fst]; by rewrite <-app_assoc.
Qed.

Lemma buildRequestOptions_headers opts w jsonData k :
  ExtraHeaders (buildRequestOptions opts w jsonData) !! k =
  if decide (k = "Snap-Refresh-Managed") then
    (if RefreshManaged opts then Some "true" else None)
  else if decide (k = "Snap-Accept-Delta-Format") then
    (if useDeltas w then Some deltaFormat else None)
  else if decide (k = "Snap-Refresh-Reason") then
    (if IsAutoRefresh opts then Some "scheduled" else None)
  else None.
Proof.
  unfold buildRequestOptions.
  destruct (IsAutoRefresh opts), (useDeltas w), (RefreshManaged opts); cbn;
    rewrite ?lookup_insert, ?lookup_empty;
    repeat (case_decide; subst; try done).
Qed.

(** X10: the one request of an inner call is a POST of the payload to the
    action endpoint, and of the extra headers it carries
    [Snap-Refresh-Reason: scheduled] exactly for an auto refresh,
    [Snap-Accept-Delta-Format] exactly when the store uses deltas,
    [Snap-Refresh-Managed: true] exactly for a managed refresh, and nothing
    else. *)
Theorem request_headers cs actions opts st h ct at_ jsonData :
  buildRequest cs actions (PrivacyKey opts) (objects st)
  = (h, inr (ct, at_, jsonData)) →
  ∃ req,
    trace (snapAction cs actions opts st).1
    = trace st ++ [EvSnapAction; EvTransport req]
    ∧ Method req = "POST" ∧ URL req = snapActionURL
    ∧ Accept req = jsonContentType ∧ ContentType req = jsonContentType
    ∧ APILevel req = apiV2Endps ∧ Data req = jsonData
    ∧ ExtraHeaders req !! "Snap-Refresh-Reason"
      = (if IsAutoRefresh opts then Some "scheduled" else None)
    ∧ ExtraHeaders req !! "Snap-Accept-Delta-Format"
      = (if useDeltas (world st) then Some deltaFormat else None)
    ∧ ExtraHeaders req !! "Snap-Refresh-Managed"
      = (if RefreshManaged opts then Some "true" else None)
    ∧ ∀ k, k ≠ "Snap-Refresh-Reason" → k ≠ "Snap-Accept-Delta-Format" →
           k ≠ "Snap-Refresh-Managed" → ExtraHeaders req !! k = None.
Proof.
  intros Hb. eexists. split; [by eapply snapAction_request|].
  pose proof (buildRequestOptions_headers opts (world st) jsonData) as Hh.
  split_and!.
  - unfold buildRequestOptions. by repeat case_match.
  - unfold buildRequestOptions. by repeat case_match.
  - unfold buildRequestOptions. by repeat case_match.
  - unfold buildRequestOptions. by repeat case_match.
  - unfold buildRequestOptions. by repeat case_match.
  - apply buildRequestOptions_Data.
  - rewrite Hh. by key_decide.
  - rewrite Hh. by key_decide.
  - rewrite Hh. by key_decide.
  - intros k H1 H2 H3. rewrite Hh. by rewrite !decide_False by done.
Qed.

(** ** Channels and retries *)

Lemma sameButChannel_afterStep h1 h2 p :
  heapsButChannel h1 h2 → heapsButChannel (afterStep h1 p) (afterStep h2 p).
Proof.
  intros Hh q. rewrite !afterStep_lookup.
  destruct (Hh q) as (Ha & Hn & Hs & Hr & Hk & Hf & He).
  rewrite <-Hr. case_decide; [|by apply Hh].
  unfold sameButChannel. cbn. done.
Qed.

Lemma entriesButChannel_entryOf a b instanceKey :
  sameButChannel a b →
  entriesButChannel (entryOf a instanceKey) (entryOf b instanceKey).
Proof.
  intros (Ha & Hn & Hs & Hr & Hk & Hf & He).
  unfold entriesButChannel, entryOf, nameOf, epochOf. cbn.
  rewrite Ha, Hn, Hs, Hr, Hk, Hf, He. done.
Qed.

Lemma actionStep_channel nk h1 h2 t1 t2 p :
  heapsButChannel h1 h2 → tablesButChannel t1 t2 →
  match actionStep nk h1 t1 p, actionStep nk h2 t2 p with
  | (_, inl e1), (_, inl e2) => e1 = e2
  | (h1', inr t1'), (h2', inr t2') =>
      heapsButChannel h1' h2' ∧ tablesButChannel t1' t2'
  | _, _ => False
  end.
Proof.
  intros Hh (Hd & Hi & Hti & Htd & Htr & Hj).
  pose proof (sameButChannel_afterStep _ _ p Hh) as Hafter.
  pose proof (λ k, entriesButChannel_entryOf _ _ k (Hh p)) as Hentry.
  destruct (Hh p) as (Ha & Hn & _).
  rewrite !actionStep_unfold. cbn zeta. rewrite <-Ha, <-Hn, <-Hd, <-Hi.
  destruct (isValidAction (Action (h1 p))); simpl; [|done].
  repeat case_decide; try done.
  all: split; [done|]; unfold tablesButChannel; cbn;
    rewrite ?Hti, ?Htd, ?Htr; split_and!; try done;
    apply Forall2_app; [done|]; by constructor.
Qed.

Lemma actionLoop_channel nk l : ∀ h1 h2 t1 t2,
  heapsButChannel h1 h2 → tablesButChannel t1 t2 →
  match actionLoop nk l h1 t1, actionLoop nk l h2 t2 with
  | (_, inl e1), (_, inl e2) => e1 = e2
  | (_, inr t1'), (_, inr t2') => tablesButChannel t1' t2'
  | _, _ => False
  end.
Proof.
  induction l as [|p l IH]; intros h1 h2 t1 t2 Hh Ht; simpl; [done|].
  pose proof (actionStep_channel nk h1 h2 t1 t2 p Hh Ht) as Hs.
  destruct (actionStep nk h1 t1 p) as [h1' [e1|t1']],
           (actionStep nk h2 t2 p) as [h2' [e2|t2']]; try done.
  destruct Hs. by apply IH.
Qed.

Lemma marshal_snapActionJSON_channel x y :
  entriesButChannel x y →
  match marshal_snapActionJSON x, marshal_snapActionJSON y with
  | inl e1, inl e2 => e1 = e2
  | inr ox, inr oy => objectsButChannel ox oy
  | _, _ => False
  end.
Proof.
  intros (Ha & Hk & Hn & Hs & Hr & Hc & Hi & He).
  unfold marshal_snapActionJSON. rewrite Ha, Hk, Hn, Hs, Hr, Hc, Hi, He.
  destruct (marshal_epochField (aj_Epoch y)) as [e|ep]; simpl; [done|].
  intros key Hkey. cbn [app obj_get]. rewrite !obj_get_app.
  rewrite !(obj_get_omitempty_string key "channel").
  by rewrite !(decide_False (P := "channel" = key)) by done.
Qed.

Lemma mapE_marshal_channel l1 l2 :
  Forall2 entriesButChannel l1 l2 →
  match mapE marshal_snapActionJSON l1, mapE marshal_snapActionJSON l2 with
  | inl e1, inl e2 => e1 = e2
  | inr o1, inr o2 => Forall2 objectsButChannel o1 o2
  | _, _ => False
  end.
Proof.
  induction 1 as [|x y l1 l2 Hxy _ IH]; simpl; [done|].
  pose proof (marshal_snapActionJSON_channel x y Hxy) as Hm.
  destruct (marshal_snapActionJSON x), (marshal_snapActionJSON y);
    simpl; try done.
  destruct (mapE marshal_snapActionJSON l1),
           (mapE marshal_snapActionJSON l2); simpl; try done.
  by constructor.
Qed.

Lemma buildRequest_channel cs actions salt h1 h2 :
  heapsButChannel h1 h2 →
  match (buildRequest cs actions salt h1).2,
        (buildRequest cs actions salt h2).2 with
  | inl e1, inl e2 => e1 = e2
  | inr (ct1, at1, j1), inr (ct2, at2, j2) =>
      ct1 = ct2
      ∧ installs at1 = installs at2 ∧ downloads at1 = downloads at2
      ∧ refreshes at1 = refreshes at2
      ∧ serializedContext j1 = serializedContext j2
      ∧ Forall2 objectsButChannel (serializedActions j1)
          (serializedActions j2)
  | _, _ => False
  end.
Proof.
  intros Hh. unfold buildRequest.
  destruct (contextLoop salt cs) as [e|ct]; [done|].
  assert (tablesButChannel noActions noActions) as Ht
    by (unfold tablesButChannel; split_and!; try done; constructor).
  pose proof (actionLoop_channel (instanceNameToKey ct) actions _ _ _ _ Hh Ht)
    as Hl.
  destruct (actionLoop _ actions h1 _) as [h1' [e1|t1']],
           (actionLoop _ actions h2 _) as [h2' [e2|t2']]; try done.
  destruct Hl as (_ & _ & Hti & Htd & Htr & Hj).
  unfold marshal_snapActionRequest. cbn [req_Context req_Actions req_Fields].
  destruct (mapE marshal_currentSnapV2JSON _) as [e|ctx]; [done|]. simpl.
  pose proof (mapE_marshal_channel _ _ Hj) as Hm.
  destruct (mapE marshal_snapActionJSON (actionJSONs t1')) as [e1|o1],
           (mapE marshal_snapActionJSON (actionJSONs t2')) as [e2|o2]; simpl;
    [by subst | done | done |].
  split_and!; [done..|].
  change (Forall2 objectsButChannel (arrayObjects (JArr (JObj <$> o1)))
            (arrayObjects (JArr (JObj <$> o2)))).
  by rewrite !arrayObjects_JObj.
Qed.

(** X8: the channels of the action objects reach nothing but the [channel]
    keys of the action entries: on two sets of objects that differ in
    their channels only, request building fails with the same error on
    both or succeeds on both, with the same context tables, the same
    install, download and refresh tables, the same context, and action
    entries that agree on every key but [channel]. *)
Theorem channels_only_reach_the_channel_key cs actions salt h1 h2 :
  heapsButChannel h1 h2 →
  match (buildRequest cs actions salt h1).2,
        (buildRequest cs actions salt h2).2 with
  | inl e1, inl e2 => e1 = e2
  | inr (ct1, at1, j1), inr (ct2, at2, j2) =>
      ct1 = ct2
      ∧ installs at1 = installs at2 ∧ downloads at1 = downloads at2
      ∧ refreshes at1 = refreshes at2
      ∧ serializedContext j1 = serializedContext j2
      ∧ Forall2 objectsButChannel (serializedActions j1)
          (serializedActions j2)
  | _, _ => False
  end.
Proof.
  intros Hh. unfold buildRequest.
  destruct (contextLoop salt cs) as [e|ct]; [done|].
  assert (tablesButChannel noActions noActions) as Ht
    by (unfold tablesButChannel; split_and!; try done; constructor).
  pose proof (actionLoop_channel (instanceNameToKey ct) actions _ _ _ _ Hh Ht)
    as Hl.
  destruct (actionLoop _ actions h1 _) as [h1' [e1|t1']],
           (actionLoop _ actions h2 _) as [h2' [e2|t2']]; try done.
  destruct Hl as (_ & _ & Hti & Htd & Htr & Hj).
  pose proof (mapE_marshal_channel _ _ Hj) as Hm.
  unfold marshal_snapActionRequest. cbn [req_Context req_Actions req_Fields].
  destruct (mapE marshal_currentSnapV2JSON _) as [e|ctx]; [done|]. simpl.
  destruct (mapE marshal_snapActionJSON (actionJSONs t1')) as [e1|o1],
           (mapE marshal_snapActionJSON (actionJSONs t2')) as [e2|o2]; simpl;
    [by subst | done | done |].
  split_and!; [done..|].
  change (Forall2 objectsButChannel (arrayObjects (JArr (JObj <$> o1)))
            (arrayObjects (JArr (JObj <$> o2)))).
  by rewrite !arrayObjects_JObj.
Qed.

(** X9: building the request again from the objects a first build has left,
    as a retry does, writes to none of them any more, and gives the same
    tables, the same context and the same action entries but for their
    channels: an action with a revision is now sent without a channel, an
    action without one with the channel it has. *)
Theorem retry_rebuilds_the_same_request
    cs actions salt h h1 ct at_ jsonData :
  buildRequest cs actions salt h = (h1, inr (ct, at_, jsonData)) →
  ∃ h2 at2 jsonData2,
    buildRequest cs actions salt h1 = (h2, inr (ct, at2, jsonData2))
    ∧ (∀ q, h2 q = h1 q)
    ∧ installs at2 = installs at_ ∧ downloads at2 = downloads at_
    ∧ refreshes at2 = refreshes at_
    ∧ serializedContext jsonData2 = serializedContext jsonData
    ∧ Forall2 objectsButChannel (serializedActions jsonData)
        (serializedActions jsonData2)
    ∧ ∀ i p, actions !! i = Some p →
        ∃ entry, serializedActions jsonData2 !! i = Some entry
          ∧ obj_get "channel" entry =
              if Revision_Unset (act_Revision (h p)) then
                (if decide (Channel (h p) = "") then None
                 else Some (JStr (Channel (h p))))
              else None.
Proof.
  intros Hb. pose proof (buildRequest_inr _ _ _ _ _ _ _ _ Hb) as (_ & Ha & _).
  assert (heapsButChannel h h1) as Hh.
  { intros q. by destruct (actionLoop_frame _ _ _ _ _ _ Ha q) as [->|[-> _]]. }
  pose proof (buildRequest_channel cs actions salt h h1 Hh) as Hrel.
  rewrite Hb in Hrel.
  destruct (buildRequest cs actions salt h1) as [h2 [e|[[ct2 at2] j2]]] eqn:Hb2;
    simpl in Hrel; [done|].
  destruct Hrel as (<- & Hti & Htd & Htr & Hctx & Hacts).
  pose proof (buildRequest_inr _ _ _ _ _ _ _ _ Hb2) as (_ & Ha2 & _).
  exists h2, at2, j2. split_and!; try done.
  - intros q. rewrite (actionLoop_heap _ _ _ _ _ _ Ha2 q).
    rewrite !(actionLoop_heap _ _ _ _ _ _ Ha q).
    destruct (decide (q ∈ actions
                      ∧ Revision_Unset (act_Revision (h q)) = false))
      as [[Hin Hrev]|Hno].
    + by case_decide.
    + by rewrite decide_False.
  - intros i p Hi.
    destruct (request_action_entry _ _ _ _ _ _ _ _ _ _ Hb2 Hi)
      as (aj & entry & Hentry & Hm & _ & _ & _ & _ & Hch & _).
    exists entry. split; [done|].
    apply marshal_snapActionJSON_fields in Hm as (_ & _ & _ & -> & _).
    assert (p ∈ actions) as Hin by (by eapply list_elem_of_lookup_2).
    pose proof (actionLoop_heap _ _ _ _ _ _ Ha p) as Hp.
    destruct (Revision_Unset (act_Revision (h p))) eqn:Hrev.
    + rewrite decide_False in Hp by (by intros [_ ?]).
      rewrite Hch, Hp, Hrev.
      by rewrite (decide_False (P := _ ∧ _)) by (by intros [_ ?]).
    + rewrite decide_True in Hp by done.
      assert (aj_Channel aj = "") as ->; [|done].
      assert (Channel (h1 p) = "") as Hempty by (by rewrite Hp).
      rewrite Hch. by case_decide.
Qed.

End Further.

(** * The further properties on the concrete store *)

Section FurtherExamples.
Import Demo Scenes.

Lemma internal_error_sends_nothing_witness :
  ∃ st',
    Store_SnapAction 1 [] [1%nat] (Some salted)
      (start secondRejected [answer [] []])
    = Some (st', ([], Some (PlainErr (errUnsupportedAction "remove"))))
    ∧ trace st' = [EvSnapAction]
    ∧ world st' = [answer [] []].
Proof.
  destruct (internal_error_sends_nothing [] [1%nat] salted
              (start secondRejected [answer [] []])
              (snapAction [] [1%nat] salted
                 (start secondRejected [answer [] []])).1
              [] (errUnsupportedAction "remove"))
    as (_ & Ht & Hw & Hs); [vm_compute; reflexivity | reflexivity |].
  eexists. split_and!; [exact (Hs 0%nat) | exact Ht | exact Hw].
Defined.

Lemma first_rejected_action_decides_witness :
  (buildRequest [hello] [0%nat; 1%nat; 2%nat] "salt"
     (heapOf secondRejected)).2
  = inl (errUnsupportedAction "remove").
Proof.
  destruct (first_rejected_action_decides [hello] [0%nat; 1%nat; 2%nat]
              "salt" (heapOf secondRejected) helloTables 1%nat 1%nat
              (errUnsupportedAction "remove")) as (H & _);
    [vm_compute; reflexivity | reflexivity | | reflexivity | exact H].
  intros [|j] q Hlt Hj; [|lia]. injection Hj as <-. reflexivity.
Defined.

Lemma transport_failure_is_returned_witness :
  snd <$> Store_SnapAction 1 [] [0%nat] (Some salted) (start [pinned] [])
  = Some ([], Some (PlainErr (errExternal "no answer"))).
Proof.
  rewrite (transport_failure_is_returned [] [0%nat] salted (start [pinned] [])
             pinnedBuild.1 (built pinnedBuild).1.1 (built pinnedBuild).1.2
             (built pinnedBuild).2 [] (inl "no answer")).
  - reflexivity.
  - right. discriminate.
  - vm_compute. reflexivity.
  - reflexivity.
  - exact I.
Defined.

Lemma results_are_accounted_once_witness :
  (accounted batchWalk ≤ length batchResults)%nat
  ∧ (length (sars batchWalk) ≤ 3)%nat.
Proof.
  destruct (results_are_accounted_once batchBuild.1 (built batchBuild).1.1
              (built batchBuild).1.2 batchResults batchWalk)
    as (H1 & H2 & _); [vm_compute; reflexivity|].
  split; [exact H1 | exact H2].
Defined.

Lemma successes_follow_the_results_witness :
  ∃ kept, sublist kept batchResults ∧ Forall2 keptAs kept (sars batchWalk).
Proof.
  apply (successes_follow_the_results batchBuild.1 (built batchBuild).1.1
           (built batchBuild).1.2 batchResults batchWalk).
  vm_compute. reflexivity.
Defined.

Lemma walk_failure_causes_witness :
  resultStep batchBuild.1 (built batchBuild).1.1 (built batchBuild).1.2
    noCorrelation strangeResult
  = inl (errUnexpectedInstanceKey "x").
Proof.
  apply (walk_failure_causes [hello] [0%nat; 1%nat; 2%nat; 3%nat] "salt"
           (heapOf batch) batchBuild.1 (built batchBuild).1.1
           (built batchBuild).1.2 (built batchBuild).2);
    [vm_compute; reflexivity|].
  split; [discriminate|]. cbn. split; [discriminate | reflexivity].
Defined.

Lemma install_result_is_kept_witness :
  {| sar_Info := {| di_Revision := 2; di_Channel := "stable";
                    di_InstanceKey := "dev" |};
     RedirectChannel := "" |} ∈ sars batchWalk.
Proof.
  destruct (install_result_is_kept [hello] [0%nat; 1%nat; 2%nat; 3%nat]
              "salt" (heapOf batch) batchBuild.1 (built batchBuild).1.1
              (built batchBuild).1.2 (built batchBuild).2 1%nat 1%nat
              batchResults (mkResult "install" "install-2" "two" 2 "")
              batchWalk) as (info & Hinfo & H);
    [vm_compute; reflexivity | reflexivity | reflexivity | repeat constructor
    | reflexivity | vm_compute; reflexivity | vm_compute; reflexivity |].
  injection Hinfo as <-. exact H.
Defined.

Lemma refresh_result_is_kept_witness :
  {| sar_Info := {| di_Revision := 12; di_Channel := "stable";
                    di_InstanceKey := "" |};
     RedirectChannel := "" |} ∈ sars updateWalk.
Proof.
  destruct (refresh_result_is_kept [hello] [0%nat] "salt"
              (heapOf [plainRefresh]) noUpdateBuild.1
              (built noUpdateBuild).1.1 (built noUpdateBuild).1.2
              (built noUpdateBuild).2 0%nat hello "abc" [newRevision]
              newRevision updateWalk) as (info & Hinfo & H);
    [vm_compute; reflexivity | reflexivity | reflexivity | 
    | repeat constructor | reflexivity | reflexivity | discriminate | 
    | vm_compute; reflexivity |].
  - intros [|j'] cur' Hlt Hj'; [lia | done].
  - intros Hin%findRev_elem_of. vm_compute in Hin. discriminate Hin.
  - injection Hinfo as <-. exact H.
Defined.

Lemma download_result_is_kept_witness :
  {| sar_Info := {| di_Revision := 3; di_Channel := "stable";
                    di_InstanceKey := "" |};
     RedirectChannel := "" |} ∈ sars batchWalk.
Proof.
  destruct (download_result_is_kept batchBuild.1 (built batchBuild).1.1
              (built batchBuild).1.2 batchResults
              (mkResult "download" "download-1" "three" 3 "") batchWalk)
    as (info & Hinfo & H);
    [repeat constructor | reflexivity | vm_compute; reflexivity |].
  injection Hinfo as <-. exact H.
Defined.


Lemma counter_keys_name_the_actions_witness :
  ∃ entry,
    serializedActions (built batchBuild).2 !! 1%nat = Some entry
    ∧ obj_get "instance-key" entry = Some (JStr "install-2")
    ∧ installs (built batchBuild).1.2 !! "install-2" = Some 1%nat.
Proof.
  destruct (counter_keys_name_the_actions [hello]
              [0%nat; 1%nat; 2%nat; 3%nat] "salt" (heapOf batch)
              batchBuild.1 (built batchBuild).1.1 (built batchBuild).1.2
              (built batchBuild).2 1%nat 1%nat)
    as (entry & key & H1 & H2 & H3 & _); [vm_compute; reflexivity | reflexivity |].
  destruct (H3 eq_refl) as [-> H4].
  exists entry. split_and!; [exact H1 | exact H2 | exact H4].
Defined.

Lemma counter_keys_are_distinct_witness :
  ∃ ei ej ki kj,
    serializedActions (built batchBuild).2 !! 0%nat = Some ei
    ∧ serializedActions (built batchBuild).2 !! 1%nat = Some ej
    ∧ obj_get "instance-key" ei = Some (JStr ki)
    ∧ obj_get "instance-key" ej = Some (JStr kj)
    ∧ ki ≠ kj.
Proof.
  apply (counter_keys_are_distinct [hello] [0%nat; 1%nat; 2%nat; 3%nat]
           "salt" (heapOf batch) batchBuild.1 (built batchBuild).1.1
           (built batchBuild).1.2 (built batchBuild).2 0%nat 1%nat 0%nat 1%nat);
    [vm_compute; reflexivity | reflexivity | reflexivity | discriminate
    | left; reflexivity | left; reflexivity].
Defined.

Lemma context_entry_round_trip_witness :
  ∃ entry,
    serializedContext (built batchBuild).2 !! 0%nat = Some entry
    ∧ obj_get "snap-id" entry = Some (JStr "abc")
    ∧ obj_get "revision" entry = Some (JNum 10)
    ∧ obj_get "tracking-channel" entry = Some (JStr "stable")
    ∧ obj_get "refreshed-date" entry = None.
Proof.
  destruct (context_entry_round_trip [hello] [0%nat; 1%nat; 2%nat; 3%nat]
              "salt" (heapOf batch) batchBuild.1 (built batchBuild).1.1
              (built batchBuild).1.2 (built batchBuild).2 0%nat hello)
    as (_ & entry & epoch & H1 & _ & H2 & H3 & H4 & _ & H5 & _);
    [vm_compute; reflexivity | reflexivity |].
  exists entry. split_and!; [exact H1 | exact H2 | exact H3 | exact H4 | exact H5].
Defined.

Lemma action_entry_round_trip_witness :
  ∃ entry,
    serializedActions (built pinnedBuild).2 !! 0%nat = Some entry
    ∧ obj_get "action" entry = Some (JStr "install")
    ∧ obj_get "snap-id" entry = None
    ∧ obj_get "revision" entry = Some (JNum 7).
Proof.
  destruct (action_entry_round_trip [] [0%nat] "salt" (heapOf [pinned])
              pinnedBuild.1 (built pinnedBuild).1.1 (built pinnedBuild).1.2
              (built pinnedBuild).2 0%nat 0%nat)
    as (_ & _ & entry & H1 & H2 & H3 & H4 & _);
    [vm_compute; reflexivity | reflexivity |].
  exists entry. split_and!; [exact H1 | exact H2 | exact H3 | exact H4].
Defined.

Lemma request_headers_witness :
  ∃ req,
    trace (snapAction [] [0%nat] managed (start [pinned] [])).1
    = [EvSnapAction; EvTransport req]
    ∧ Method req = "POST"
    ∧ ExtraHeaders req !! "Snap-Refresh-Reason" = Some "scheduled"
    ∧ ExtraHeaders req !! "Snap-Accept-Delta-Format" = None
    ∧ ExtraHeaders req !! "Snap-Refresh-Managed" = Some "true".
Proof.
  destruct (request_headers [] [0%nat] managed (start [pinned] [])
              pinnedBuild.1 (built pinnedBuild).1.1 (built pinnedBuild).1.2
              (built pinnedBuild).2)
    as (req & H1 & H2 & _ & _ & _ & _ & _ & H3 & H4 & H5 & _);
    [vm_compute; reflexivity|].
  exists req. split_and!; [exact H1 | exact H2 | exact H3 | exact H4 | exact H5].
Defined.

Lemma channels_only_reach_the_channel_key_witness :
  match (buildRequest [] [0%nat] "salt" (heapOf [pinned])).2,
        (buildRequest [] [0%nat] "salt" (heapOf [pinnedEdge])).2 with
  | inl e1, inl e2 => e1 = e2
  | inr (ct1, at1, j1), inr (ct2, at2, j2) =>
      ct1 = ct2
      ∧ installs at1 = installs at2 ∧ downloads at1 = downloads at2
      ∧ refreshes at1 = refreshes at2
      ∧ serializedContext j1 = serializedContext j2
      ∧ Forall2 objectsButChannel (serializedActions j1)
          (serializedActions j2)
  | _, _ => False
  end.
Proof.
  apply (channels_only_reach_the_channel_key [] [0%nat] "salt"
           (heapOf [pinned]) (heapOf [pinnedEdge])).
  intros [|q]; repeat split.
Defined.

Lemma retry_rebuilds_the_same_request_witness :
  ∃ h2 at2 jsonData2 entry,
    buildRequest [] [0%nat] "salt" pinnedBuild.1
    = (h2, inr ((built pinnedBuild).1.1, at2, jsonData2))
    ∧ h2 0%nat = pinnedBuild.1 0%nat
    ∧ serializedActions jsonData2 !! 0%nat = Some entry
    ∧ obj_get "channel" entry = None.
Proof.
  destruct (retry_rebuilds_the_same_request [] [0%nat] "salt"
              (heapOf [pinned]) pinnedBuild.1 (built pinnedBuild).1.1
              (built pinnedBuild).1.2 (built pinnedBuild).2)
    as (h2 & at2 & j2 & H1 & H2 & _ & _ & _ & _ & _ & H3);
    [vm_compute; reflexivity|].
  destruct (H3 0%nat 0%nat eq_refl) as (entry & H4 & H5).
  exists h2, at2, j2, entry.
  split_and!; [exact H1 | exact (H2 0%nat) | exact H4 | exact H5].
Defined.

End FurtherExamples.
